(** * pbs-backuper: change detection, archive grouping and backup orchestration

    A shallow embedding of the Go packages [models], [scanner], [archiver]
    and [backup], followed by the properties of the specification that
    hold (or fail) on that code.

    Conventions
    - Go [string] values are byte strings: Rocq's [string] (a list of
      8-bit [ascii]), so [len(s)] is [String.length s] and [s[:n]] is
      [String.substring 0 n s].
    - Go maps are stdpp [gmap]s.  A [nil] map and an empty map behave the
      same for [len], lookup and [range], and both are [∅] here.
    - Go [int]/[int64] values are [Z].  File sizes are accumulated with the
      64-bit wrap-around written out ([add64]).  The group counters are
      incremented at most once per element of a slice, whose length is
      itself an [int], so they cannot wrap and are plain [Z].
    - [error] values are their message text ([err.Error()]); wrapping with
      [fmt.Errorf("...: %w", err)] is string concatenation. *)

From stdpp Require Import gmap strings list fin_maps sorting pretty.
From Stdlib Require Import ZArith Ascii.

#[local] Set Warnings "-register-all".
#[local] Open Scope Z_scope.

(** ** Results of fallible calls: a Go [(T, error)] pair *)

Inductive result (A : Type) : Type :=
| Ok (a : A)
| Err (msg : string).
Arguments Ok {A} a.
Arguments Err {A} msg.

Definition is_Ok {A} (r : result A) : bool :=
  match r with Ok _ => true | Err _ => false end.

(** [fmt.Errorf(ctx ++ ": %w", err)] *)
Definition wrap_err (ctx msg : string) : string := ctx +:+ ": " +:+ msg.

(** [strings.Repeat] for a one-byte string. *)
Fixpoint strings_Repeat (c : ascii) (n : nat) : string :=
  match n with
  | O => EmptyString
  | S k => String c (strings_Repeat c k)
  end.

(** ** Package [models] *)

Module models.

(** [FileTreeNode]: [ModTime] is the instant in nanoseconds, which is
    all that [time.Time.Equal] looks at. *)
Inductive FileTreeNode : Type := mkFileTreeNode {
  Name : string;
  Size : Z;
  ModTime : Z;
  IsDir : bool;
  Children : gmap string FileTreeNode
}.

Record BackupMetadata : Type := mkBackupMetadata {
  Version : Z;
  PrefixDigits : Z;
  BackupTime : Z;
  FileTree : gmap string FileTreeNode;
  Checksums : gmap string string
}.

Record ArchiveGroup : Type := mkArchiveGroup {
  Prefix : string;
  StartRange : string;
  EndRange : string;
  ArchiveName : string;
  Directories : list string;
  NeedsUpdate : bool
}.

Record BackupResult : Type := mkBackupResult {
  TotalArchives : Z;
  UpdatedArchives : Z;
  SkippedArchives : Z;
  ErrorArchives : list string;
  UploadedFiles : list string;
  Duration : Z;
  Details : gmap string string
}.

End models.

(** [models.Config], in a module of its own because it shares the field
    name [PrefixDigits] with [BackupMetadata]. *)
Module Config.
Record t : Type := mk {
  ChunkPath : string;
  RemotePath : string;
  TempPath : string;
  PrefixDigits : Z
}.
End Config.

(** ** The local filesystem below the chunk directory

    What [os.Stat], [os.ReadDir] and [filepath.Walk] observe.  A file is
    its bytes, its modification time and whether [os.Open] succeeds on it;
    a directory is its modification time, whether [os.ReadDir] succeeds on
    it, and its entries in the order [os.ReadDir] lists them.  One run
    sees one state of the chunk directory (nothing else writes to it
    meanwhile), and [os.Stat] or [DirEntry.Info] on an entry that has just
    been listed succeeds. *)

Inductive FsNode : Type :=
| FsFile (content : string) (mtime : Z) (readable : bool)
| FsDir (mtime : Z) (readable : bool) (entries : list (string * FsNode)).

Definition fs_isDir (n : FsNode) : bool :=
  match n with FsDir _ _ _ => true | FsFile _ _ _ => false end.

(** [filepath.Join dir name] for a cleaned directory path and a plain
    entry name: the two joined by one separator. *)
Definition filepath_Join (dir name : string) : string :=
  if String.eqb dir "/" then "/" +:+ name else dir +:+ "/" +:+ name.

(** 64-bit signed wrap-around of [node.Size += ...]. *)
Definition wrap64 (z : Z) : Z := (z + 2^63) mod 2^64 - 2^63.
Definition add64 (a b : Z) : Z := wrap64 (a + b).

(** ** Everything outside the repository a run depends on *)

(** One entry of the tar stream: the header that [tarWriter.WriteHeader]
    writes and, for a file that could be opened, the bytes [io.Copy]
    writes after it. *)
Record TarEntry : Type := mkTarEntry {
  te_name : string;
  te_isDir : bool;
  te_mtime : Z;
  te_data : option string
}.

(** The system and storage calls that can fail for reasons outside the
    program, each with the path it is made on.  Within one run every such
    call is made at most once (the archive names of the groups are
    pairwise different), so one answer per call describes the run. *)
Inductive Op : Type :=
| OpMkdirAll (path : string)
| OpCreate (path : string)
| OpOpen (path : string)
| OpRead (path : string)
| OpWrite (path : string)
| OpMarshal
| OpUpload (localPath remotePath : string)
| OpExists (remotePath : string)
| OpGet (remotePath : string).

(** The contents of a stored file: its bytes, together with what
    [json.Unmarshal] into a [BackupMetadata] returns on those bytes
    ([None]: they do not parse). *)
Record Blob : Type := mkBlob {
  bytes : string;
  json : option models.BackupMetadata
}.

(** The environment of one run: the fixed codecs (tar+gzip, SHA-256 in
    hexadecimal, JSON text), the clock, the chunk directory as it is on
    disk, and for each call whether it fails and with which error text. *)
Record Env : Type := mkEnv {
  tar_gz : list TarEntry -> string;
  sha256_hex : string -> string;
  json_MarshalIndent : models.BackupMetadata -> string;
  time_Now : Z;
  time_Since : Z;
  chunk_root : option FsNode;
  fault : Op -> option string
}.

(** The mutable world: the remote storage behind the [Storage] interface
    and the scratch directory [TempPath]. *)
Record World : Type := mkWorld {
  remote : gmap string Blob;
  temp : gmap string Blob
}.

Definition set_remote (f : gmap string Blob -> gmap string Blob) (w : World)
  : World :=
  {| remote := f (remote w); temp := temp w |}.
Definition set_temp (f : gmap string Blob -> gmap string Blob) (w : World)
  : World :=
  {| remote := remote w; temp := f (temp w) |}.

(** [os.Remove] (its error is ignored by the callers). *)
Definition os_Remove (path : string) (w : World) : World :=
  set_temp (delete path) w.

(** [filepath.Base] of a path that does not end in a separator. *)
Fixpoint base_from (s : string) (acc : string) : string :=
  match s with
  | EmptyString => acc
  | String c s' =>
      if Ascii.eqb c "/" then base_from s' EmptyString
      else base_from s' (acc +:+ String c EmptyString)
  end.
Definition filepath_Base (path : string) : string := base_from path EmptyString.

(** [strings.Fields]: the maximal runs of non-space bytes.  The split is
    at ASCII white space; the multi-byte Unicode spaces are kept as
    ordinary bytes. *)
Definition is_space (c : ascii) : bool :=
  let n := nat_of_ascii c in ((9 <=? n) && (n <=? 13) || (n =? 32))%nat.

Fixpoint fields_from (s : string) (cur : option string) : list string :=
  match s with
  | EmptyString => match cur with Some f => [f] | None => [] end
  | String c s' =>
      if is_space c then
        match cur with
        | Some f => f :: fields_from s' None
        | None => fields_from s' None
        end
      else fields_from s' (Some (default EmptyString cur +:+ String c EmptyString))
  end.
Definition strings_Fields (s : string) : list string := fields_from s None.

(** ** Package [scanner]: snapshot builder and snapshot differ *)

Module scanner.
Import models.

Definition is_hex_digit (c : ascii) : bool :=
  let n := nat_of_ascii c in
  ((48 <=? n) && (n <=? 57) || (97 <=? n) && (n <=? 102)
   || (65 <=? n) && (n <=? 70))%nat.

Fixpoint all_hex (s : string) : bool :=
  match s with
  | EmptyString => true
  | String c s' => is_hex_digit c && all_hex s'
  end.

(** [regexp.MustCompile(`^[0-9a-fA-F]{4}$`).MatchString] *)
Definition hexPattern_MatchString (s : string) : bool :=
  Nat.eqb (String.length s) 4 && all_hex s.

Definition withChild (node : FileTreeNode) (name : string)
    (child : FileTreeNode) : FileTreeNode :=
  {| Name := Name node;
     Size := add64 (Size node) (Size child);
     ModTime := ModTime node;
     IsDir := IsDir node;
     Children := <[name := child]> (Children node) |}.

(** [scanDirectory dirPath], where [name] is [filepath.Base dirPath] and
    [n] is what is on disk at [dirPath]. *)
Fixpoint scanDirectory (dirPath name : string) (n : FsNode) {struct n}
  : result FileTreeNode :=
  match n with
  | FsFile _ _ _ =>
      Err (wrap_err ("failed to read directory " +:+ dirPath)
             "not a directory")
  | FsDir mtime readable entries =>
      if negb readable then
        Err (wrap_err ("failed to read directory " +:+ dirPath)
               "permission denied")
      else
        (fix loop (es : list (string * FsNode)) (node : FileTreeNode)
           {struct es} : result FileTreeNode :=
           match es with
           | [] => Ok node
           | (ename, e) :: es' =>
               match e with
               | FsDir _ _ _ =>
                   match scanDirectory (filepath_Join dirPath ename) ename e with
                   | Err msg => Err msg
                   | Ok childNode => loop es' (withChild node ename childNode)
                   end
               | FsFile content fmtime _ =>
                   loop es'
                     (withChild node ename
                        {| Name := ename;
                           Size := Z.of_nat (String.length content);
                           ModTime := fmtime;
                           IsDir := false;
                           Children := ∅ |})
               end
           end) entries
          {| Name := name; Size := 0; ModTime := mtime; IsDir := true;
             Children := ∅ |}
  end.

(** The loop of [ScanFileTree] over the entries of the chunk directory. *)
Fixpoint scanEntries (chunkPath : string) (entries : list (string * FsNode))
    (fileTree : gmap string FileTreeNode)
  : result (gmap string FileTreeNode) :=
  match entries with
  | [] => Ok fileTree
  | (ename, e) :: rest =>
      if negb (fs_isDir e) then scanEntries chunkPath rest fileTree
      else if negb (hexPattern_MatchString ename) then
        scanEntries chunkPath rest fileTree
      else
        let dirPath := filepath_Join chunkPath ename in
        match scanDirectory dirPath ename e with
        | Err msg =>
            Err (wrap_err ("failed to scan directory " +:+ dirPath) msg)
        | Ok node => scanEntries chunkPath rest (<[ename := node]> fileTree)
        end
  end.

(** [os.ReadDir] on the chunk directory. *)
Definition readChunkDir (root : option FsNode)
  : result (list (string * FsNode)) :=
  match root with
  | None => Err "no such file or directory"
  | Some (FsFile _ _ _) => Err "not a directory"
  | Some (FsDir _ readable entries) =>
      if readable then Ok entries else Err "permission denied"
  end.

(** [ScanFileTree] *)
Definition ScanFileTree (chunkPath : string) (root : option FsNode)
  : result (gmap string FileTreeNode) :=
  match root with
  | None => Err ("chunk directory does not exist: " +:+ chunkPath)
  | Some _ =>
      match readChunkDir root with
      | Err msg => Err (wrap_err "failed to read chunk directory" msg)
      | Ok entries => scanEntries chunkPath entries ∅
      end
  end.

(** [GetChunkDirectories] *)
Definition GetChunkDirectories (root : option FsNode) : result (list string) :=
  match readChunkDir root with
  | Err msg => Err (wrap_err "failed to read chunk directory" msg)
  | Ok entries =>
      let directories :=
        fst <$> List.filter
                  (fun entry => fs_isDir entry.2 && hexPattern_MatchString entry.1)
                  entries in
      Ok (merge_sort String.le directories)
  end.

(** [hasTreeChanged].  The two [range] loops return [true] at the first
    offending child; over a map that is the disjunction over all
    children, which [map_fold] computes with the accumulator playing the
    early return. *)
Fixpoint hasTreeChanged (oldNode newNode : FileTreeNode) {struct oldNode}
  : bool :=
  if negb (Size oldNode =? Size newNode)
     || negb (ModTime oldNode =? ModTime newNode)
     || negb (Bool.eqb (IsDir oldNode) (IsDir newNode))
  then true
  else if negb (IsDir oldNode) then false
  else if negb (Nat.eqb (size (Children oldNode)) (size (Children newNode)))
  then true
  else if map_fold
            (fun (name : string) (oldChild : FileTreeNode) (found : bool) =>
               if found then true
               else match Children newNode !! name with
                    | None => true
                    | Some newChild => hasTreeChanged oldChild newChild
                    end)
            false (Children oldNode)
  then true
  else map_fold
         (fun (name : string) (_ : FileTreeNode) (found : bool) =>
            if found then true
            else match Children oldNode !! name with
                 | None => true
                 | Some _ => false
                 end)
         false (Children newNode).

(** [CompareFileTrees] *)
Definition CompareFileTrees (oldTree newTree : gmap string FileTreeNode)
  : gmap string bool :=
  let changedDirs :=
    map_fold
      (fun (dirName : string) (newNode : FileTreeNode)
           (changedDirs : gmap string bool) =>
         match oldTree !! dirName with
         | None => <[dirName := true]> changedDirs
         | Some oldNode =>
             if hasTreeChanged oldNode newNode
             then <[dirName := true]> changedDirs
             else changedDirs
         end)
      ∅ newTree in
  map_fold
    (fun (dirName : string) (_ : FileTreeNode)
         (changedDirs : gmap string bool) =>
       match newTree !! dirName with
       | None => <[dirName := true]> changedDirs
       | Some _ => changedDirs
       end)
    changedDirs oldTree.

(** Structural equality of two tree nodes, as the specification words
    it: equal size, equal modification time, equal directory flag and,
    for directories, equal child-name sets with every child pairwise
    structurally equal. *)
Inductive structurally_equal : FileTreeNode -> FileTreeNode -> Prop :=
| structurally_equal_intro (a b : FileTreeNode) :
    Size a = Size b ->
    ModTime a = ModTime b ->
    IsDir a = IsDir b ->
    (IsDir a = true -> dom (Children a) = dom (Children b)) ->
    (IsDir a = true ->
     forall name ca cb,
       Children a !! name = Some ca -> Children b !! name = Some cb ->
       structurally_equal ca cb) ->
    structurally_equal a b.

End scanner.

(** ** Package [archiver]: the prefix grouper and the archive builder *)

Module archiver.
Import models.

(** [calculateRange] *)
Definition calculateRange (prefix : string) (prefixDigits : Z)
  : string * string :=
  (prefix +:+ strings_Repeat "0" (Z.to_nat (4 - prefixDigits)),
   prefix +:+ strings_Repeat "f" (Z.to_nat (4 - prefixDigits))).

(** The body of the first loop of [GenerateArchiveGroups]:
    [groupMap[prefix] = append(groupMap[prefix], dir)]. *)
Definition addToGroupMap (prefixDigits : Z)
    (groupMap : gmap string (list string)) (dir : string)
  : gmap string (list string) :=
  if negb (Nat.eqb (String.length dir) 4) then groupMap
  else
    let prefix := String.substring 0 (Z.to_nat prefixDigits) dir in
    <[prefix := default [] (groupMap !! prefix) ++ [dir]]> groupMap.

(** The body of the second loop: one group per map entry. *)
Definition makeGroup (prefixDigits : Z) (entry : string * list string)
  : ArchiveGroup :=
  let prefix := entry.1 in
  let dirs := merge_sort String.le entry.2 in
  let '(startRange, endRange) := calculateRange prefix prefixDigits in
  {| Prefix := prefix;
     StartRange := startRange;
     EndRange := endRange;
     ArchiveName := startRange +:+ "-" +:+ endRange +:+ ".tar.gz";
     Directories := dirs;
     NeedsUpdate := false |}.

(** The order [sort.Slice] is called with. *)
Definition prefix_le (g1 g2 : ArchiveGroup) : Prop :=
  String.le (Prefix g1) (Prefix g2).

#[global] Instance prefix_le_dec : RelDecision prefix_le.
Proof. intros g1 g2. unfold prefix_le. apply _. Defined.

#[global] Instance prefix_le_total : Total prefix_le.
Proof. intros g1 g2. unfold prefix_le. apply String.le_total. Qed.

#[global] Instance prefix_le_trans : Transitive prefix_le.
Proof.
  intros g1 g2 g3. unfold prefix_le.
  destruct String.le_po as [[_ Htrans] _]. apply Htrans.
Qed.

(** [GenerateArchiveGroups].  Go ranges over [groupMap] in an arbitrary
    order and then sorts by prefix; the prefixes are the map's keys, so
    they are pairwise different and the sorted slice does not depend on
    that order (nor on the sorting algorithm). *)
Definition GenerateArchiveGroups (directories : list string)
    (prefixDigits : Z) : result (list ArchiveGroup) :=
  if (prefixDigits <? 1) || (prefixDigits >? 4) then
    Err ("prefix digits must be between 1 and 4, got " +:+ pretty prefixDigits)
  else
    let groupMap := foldl (addToGroupMap prefixDigits) ∅ directories in
    let groups := makeGroup prefixDigits <$> map_to_list groupMap in
    Ok (merge_sort prefix_le groups).

(** [MarkGroupsForUpdate]: a missing key of [changedDirs] reads as
    [false]. *)
Definition isChanged (changedDirs : gmap string bool) (dir : string) : bool :=
  default false (changedDirs !! dir).

Definition markGroup (changedDirs : gmap string bool) (group : ArchiveGroup)
  : ArchiveGroup :=
  if existsb (isChanged changedDirs) (Directories group) then
    {| Prefix := Prefix group;
       StartRange := StartRange group;
       EndRange := EndRange group;
       ArchiveName := ArchiveName group;
       Directories := Directories group;
       NeedsUpdate := true |}
  else group.

Definition MarkGroupsForUpdate (groups : list ArchiveGroup)
    (changedDirs : gmap string bool) : list ArchiveGroup :=
  markGroup changedDirs <$> groups.

(** [addDirectoryToTar]: [filepath.Walk] with its callback.  Returns the
    entries written and the error that stopped the walk, if any.
    [file] is the path on disk and [rel] the name inside the archive,
    [filepath.Rel(filepath.Dir(sourcePath), file)] with forward slashes.
    A directory that cannot be read reaches the callback with the
    error, before any header is written for it; a file that cannot be
    opened has had its header written. *)
Fixpoint addDirectoryToTar (file rel : string) (n : FsNode) {struct n}
  : list TarEntry * option string :=
  match n with
  | FsFile content mtime readable =>
      if readable then
        ([{| te_name := rel; te_isDir := false; te_mtime := mtime;
             te_data := Some content |}], None)
      else
        ([{| te_name := rel; te_isDir := false; te_mtime := mtime;
             te_data := None |}],
         Some ("open " +:+ file +:+ ": permission denied"))
  | FsDir mtime readable entries =>
      if negb readable then
        ([], Some ("open " +:+ file +:+ ": permission denied"))
      else
        let header :=
          {| te_name := rel; te_isDir := true; te_mtime := mtime;
             te_data := None |} in
        (fix each (es : list (string * FsNode)) (written : list TarEntry)
           {struct es} : list TarEntry * option string :=
           match es with
           | [] => (written, None)
           | (ename, e) :: es' =>
               match addDirectoryToTar (filepath_Join file ename)
                       (rel +:+ "/" +:+ ename) e with
               | (out, Some msg) => (written ++ out, Some msg)
               | (out, None) => each es' (written ++ out)
               end
           end) entries [header]
  end.

(** [os.Stat(dirPath)] for a member of the chunk directory. *)
Inductive StatResult : Type :=
| StatNotExist
| StatFailed (msg : string)
| StatFound (n : FsNode).

Definition statMember (root : option FsNode) (dirPath dir : string)
  : StatResult :=
  match root with
  | None => StatNotExist
  | Some (FsFile _ _ _) =>
      StatFailed ("lstat " +:+ dirPath +:+ ": not a directory")
  | Some (FsDir _ _ entries) =>
      match List.find (fun entry => String.eqb entry.1 dir) entries with
      | None => StatNotExist
      | Some entry => StatFound entry.2
      end
  end.

(** The member loop of [CreateArchive]. *)
Fixpoint addMembers (env : Env) (chunkPath : string) (dirs : list string)
    (written : list TarEntry) : list TarEntry * option string :=
  match dirs with
  | [] => (written, None)
  | dir :: rest =>
      let dirPath := filepath_Join chunkPath dir in
      let failed msg :=
        wrap_err ("failed to add directory " +:+ dir +:+ " to archive") msg in
      match statMember (chunk_root env) dirPath dir with
      | StatNotExist => addMembers env chunkPath rest written
      | StatFailed msg => (written, Some (failed msg))
      | StatFound n =>
          match addDirectoryToTar dirPath dir n with
          | (out, Some msg) => (written ++ out, Some (failed msg))
          | (out, None) => addMembers env chunkPath rest (written ++ out)
          end
      end
  end.

(** [CreateArchive].  Once [os.Create] has succeeded the scratch file
    exists; the deferred [Close] calls flush what was written to it,
    also when a member could not be added. *)
Definition CreateArchive (env : Env) (cfg : Config.t) (group : ArchiveGroup)
    (w : World) : result string * World :=
  match fault env (OpMkdirAll (Config.TempPath cfg)) with
  | Some msg => (Err (wrap_err "failed to create temp directory" msg), w)
  | None =>
      let archivePath := filepath_Join (Config.TempPath cfg) (ArchiveName group) in
      match fault env (OpCreate archivePath) with
      | Some msg => (Err (wrap_err "failed to create archive file" msg), w)
      | None =>
          let '(written, failure) :=
            addMembers env (Config.ChunkPath cfg) (Directories group) [] in
          let w' :=
            set_temp <[archivePath := {| bytes := tar_gz env written;
                                         json := None |}]> w in
          match failure with
          | Some msg => (Err msg, w')
          | None => (Ok archivePath, w')
          end
      end
  end.

(** [CalculateChecksum] *)
Definition CalculateChecksum (env : Env) (filePath : string) (w : World)
  : result string :=
  match fault env (OpOpen filePath) with
  | Some msg => Err (wrap_err "failed to open file for checksum" msg)
  | None =>
      match temp w !! filePath with
      | None =>
          Err (wrap_err "failed to open file for checksum"
                 ("open " +:+ filePath +:+ ": no such file or directory"))
      | Some blob =>
          match fault env (OpRead filePath) with
          | Some msg => Err (wrap_err "failed to calculate checksum" msg)
          | None => Ok (sha256_hex env (bytes blob))
          end
      end
  end.

(** [CreateChecksumFile] *)
Definition CreateChecksumFile (env : Env) (archivePath checksum : string)
    (w : World) : result string * World :=
  let checksumPath := archivePath +:+ ".sha256" in
  match fault env (OpCreate checksumPath) with
  | Some msg => (Err (wrap_err "failed to create checksum file" msg), w)
  | None =>
      let archiveName := filepath_Base archivePath in
      let content :=
        checksum +:+ "  " +:+ archiveName +:+ String "010" EmptyString in
      match fault env (OpWrite checksumPath) with
      | Some msg =>
          (Err (wrap_err "failed to write checksum" msg),
           set_temp <[checksumPath := {| bytes := EmptyString; json := None |}]> w)
      | None =>
          (Ok checksumPath,
           set_temp <[checksumPath := {| bytes := content; json := None |}]> w)
      end
  end.

End archiver.

(** ** The [Storage] interface *)

Module storage.

(** [UploadFile]: all or nothing. *)
Definition UploadFile (env : Env) (localPath remotePath : string) (w : World)
  : result unit * World :=
  match fault env (OpUpload localPath remotePath) with
  | Some msg => (Err msg, w)
  | None =>
      match temp w !! localPath with
      | None => (Err ("open " +:+ localPath +:+ ": no such file or directory"), w)
      | Some blob => (Ok tt, set_remote <[remotePath := blob]> w)
      end
  end.

Definition FileExists (env : Env) (remotePath : string) (w : World)
  : result bool :=
  match fault env (OpExists remotePath) with
  | Some msg => Err msg
  | None => Ok (bool_decide (is_Some (remote w !! remotePath)))
  end.

Definition GetFileContent (env : Env) (remotePath : string) (w : World)
  : result Blob :=
  match fault env (OpGet remotePath) with
  | Some msg => Err msg
  | None =>
      match remote w !! remotePath with
      | None => Err ("open " +:+ remotePath +:+ ": no such file or directory")
      | Some blob => Ok blob
      end
  end.

End storage.

(** ** Package [backup]: the orchestrator *)

Module backup.
Import models.

Definition MetadataFileName : string := "backup-metadata.json".
Definition MetadataVersion : Z := 1.

(** What [processArchiveGroup] reads and mutates through its pointer
    arguments and its receiver: the world, the [checksums] map and the
    [result]. *)
Record RunState : Type := mkRunState {
  world : World;
  checksums : gmap string string;
  res : BackupResult
}.

Definition set_world (f : World -> World) (st : RunState) : RunState :=
  {| world := f (world st); checksums := checksums st; res := res st |}.
Definition set_checksums (f : gmap string string -> gmap string string)
    (st : RunState) : RunState :=
  {| world := world st; checksums := f (checksums st); res := res st |}.
Definition set_res (f : BackupResult -> BackupResult) (st : RunState) : RunState :=
  {| world := world st; checksums := checksums st; res := f (res st) |}.

(** The updates of a [BackupResult]. *)
Definition emptyResult : BackupResult :=
  {| TotalArchives := 0; UpdatedArchives := 0; SkippedArchives := 0;
     ErrorArchives := []; UploadedFiles := []; Duration := 0; Details := ∅ |}.
Definition incUpdated (r : BackupResult) : BackupResult :=
  {| TotalArchives := TotalArchives r; UpdatedArchives := UpdatedArchives r + 1;
     SkippedArchives := SkippedArchives r; ErrorArchives := ErrorArchives r;
     UploadedFiles := UploadedFiles r; Duration := Duration r;
     Details := Details r |}.
Definition incSkipped (r : BackupResult) : BackupResult :=
  {| TotalArchives := TotalArchives r; UpdatedArchives := UpdatedArchives r;
     SkippedArchives := SkippedArchives r + 1; ErrorArchives := ErrorArchives r;
     UploadedFiles := UploadedFiles r; Duration := Duration r;
     Details := Details r |}.
Definition addError (name : string) (r : BackupResult) : BackupResult :=
  {| TotalArchives := TotalArchives r; UpdatedArchives := UpdatedArchives r;
     SkippedArchives := SkippedArchives r;
     ErrorArchives := ErrorArchives r ++ [name];
     UploadedFiles := UploadedFiles r; Duration := Duration r;
     Details := Details r |}.
Definition addUploaded (name : string) (r : BackupResult) : BackupResult :=
  {| TotalArchives := TotalArchives r; UpdatedArchives := UpdatedArchives r;
     SkippedArchives := SkippedArchives r; ErrorArchives := ErrorArchives r;
     UploadedFiles := UploadedFiles r ++ [name]; Duration := Duration r;
     Details := Details r |}.
Definition setDetail (name text : string) (r : BackupResult) : BackupResult :=
  {| TotalArchives := TotalArchives r; UpdatedArchives := UpdatedArchives r;
     SkippedArchives := SkippedArchives r; ErrorArchives := ErrorArchives r;
     UploadedFiles := UploadedFiles r; Duration := Duration r;
     Details := <[name := text]> (Details r) |}.
Definition finishResult (total duration : Z) (r : BackupResult) : BackupResult :=
  {| TotalArchives := total; UpdatedArchives := UpdatedArchives r;
     SkippedArchives := SkippedArchives r; ErrorArchives := ErrorArchives r;
     UploadedFiles := UploadedFiles r; Duration := duration;
     Details := Details r |}.

(** *** A state-and-error monad for the function bodies *)

Definition M (A : Type) : Type := RunState -> result A * RunState.

Definition ret {A} (a : A) : M A := fun st => (Ok a, st).
Definition bind {A B} (m : M A) (k : A -> M B) : M B :=
  fun st =>
    match m st with
    | (Ok a, st') => k a st'
    | (Err msg, st') => (Err msg, st')
    end.

Notation "'let*' x ':=' m 'in' k" := (bind m (fun x => k))
  (at level 10, x name, m at level 100, k at level 200).
Notation "m ';;' k" := (bind m (fun _ => k))
  (at level 100, k at level 200, right associativity).

(** A call on the world that may fail; [ctx] is the text its error is
    wrapped in ([fmt.Errorf(ctx + ": %w", err)]). *)
Definition call {A} (ctx : string) (op : World -> result A * World) : M A :=
  fun st =>
    match op (world st) with
    | (Ok a, w) => (Ok a, set_world (fun _ => w) st)
    | (Err msg, w) => (Err (wrap_err ctx msg), set_world (fun _ => w) st)
    end.
(** The same for a call that only reads the world. *)
Definition query {A} (ctx : string) (op : World -> result A) : M A :=
  call ctx (fun w => (op w, w)).
Definition update (f : BackupResult -> BackupResult) : M unit :=
  fun st => (Ok tt, set_res f st).
Definition store (name checksum : string) : M unit :=
  fun st => (Ok tt, set_checksums <[name := checksum]> st).
(** [defer os.Remove(path)]: [rest] is the remainder of the function
    body; the removal runs when it returns, with or without error. *)
Definition defer_Remove {A} (path : string) (rest : M A) : M A :=
  fun st => let '(r, st') := rest st in (r, set_world (os_Remove path) st').

(** [getRemoteChecksum] *)
Definition getRemoteChecksum (env : Env) (remotePath : string) (w : World)
  : result string :=
  match storage.GetFileContent env remotePath w with
  | Err msg => Err msg
  | Ok content =>
      match strings_Fields (bytes content) with
      | part :: _ => Ok part
      | [] => Err "invalid checksum file format"
      end
  end.

(** Step 3 of [processArchiveGroup]: [needsUpload]. *)
Definition checkRemote (env : Env) (group : ArchiveGroup)
    (remoteSha256Path checksum : string) : M bool :=
  fun st =>
    match getRemoteChecksum env remoteSha256Path (world st) with
    | Ok remoteChecksum =>
        if String.eqb remoteChecksum checksum then
          (Ok false,
           set_res (setDetail (ArchiveName group)
                      "checksum unchanged, skipped upload") st)
        else (Ok true, st)
    | Err _ => (Ok true, st)
    end.

(** [processArchiveGroup].  A Go [defer] lasts to the end of the function,
    so the statement after the [if], [checksums[group.ArchiveName] =
    checksum], is written at the end of both branches. *)
Definition processArchiveGroup (env : Env) (cfg : Config.t)
    (group : ArchiveGroup) : M unit :=
  let name := ArchiveName group in
  let* archivePath :=
    call "failed to create archive" (archiver.CreateArchive env cfg group) in
  defer_Remove archivePath (
    let* checksum :=
      query "failed to calculate checksum"
        (archiver.CalculateChecksum env archivePath) in
    let remoteSha256Path :=
      filepath_Join (Config.RemotePath cfg) (name +:+ ".sha256") in
    let* needsUpload := checkRemote env group remoteSha256Path checksum in
    if needsUpload then
      let remoteArchivePath := filepath_Join (Config.RemotePath cfg) name in
      call "failed to upload archive"
        (storage.UploadFile env archivePath remoteArchivePath) ;;
      update (addUploaded name) ;;
      let* checksumPath :=
        call "failed to create checksum file"
          (archiver.CreateChecksumFile env archivePath checksum) in
      defer_Remove checksumPath (
        call "failed to upload checksum file"
          (storage.UploadFile env checksumPath remoteSha256Path) ;;
        update (addUploaded (name +:+ ".sha256")) ;;
        update incUpdated ;;
        update (setDetail name "created and uploaded") ;;
        store name checksum)
    else
      update incSkipped ;;
      update (setDetail name "checksum unchanged, skipped") ;;
      store name checksum).

(** [loadRemoteMetadata] *)
Definition loadRemoteMetadata (env : Env) (cfg : Config.t) (w : World)
  : result BackupMetadata :=
  let remotePath := filepath_Join (Config.RemotePath cfg) MetadataFileName in
  match storage.FileExists env remotePath w with
  | Err msg => Err (wrap_err "failed to check metadata file existence" msg)
  | Ok false => Err "no previous backup metadata found, use full backup mode"
  | Ok true =>
      match storage.GetFileContent env remotePath w with
      | Err msg => Err (wrap_err "failed to download metadata" msg)
      | Ok content =>
          match json content with
          | None => Err (wrap_err "failed to parse metadata" "invalid JSON")
          | Some metadata => Ok metadata
          end
      end
  end.

(** [saveAndUploadMetadata]; the local copy is kept.  The document
    written decodes to the metadata it was made from: sizes, instants
    and maps survive the JSON encoding. *)
Definition saveAndUploadMetadata (env : Env) (cfg : Config.t)
    (metadata : BackupMetadata) (w : World) : result unit * World :=
  match fault env OpMarshal with
  | Some msg => (Err (wrap_err "failed to marshal metadata" msg), w)
  | None =>
      let data := {| bytes := json_MarshalIndent env metadata;
                     json := Some metadata |} in
      let localPath := filepath_Join (Config.TempPath cfg) MetadataFileName in
      match fault env (OpWrite localPath) with
      | Some msg => (Err (wrap_err "failed to save local metadata" msg), w)
      | None =>
          let w1 := set_temp <[localPath := data]> w in
          let remotePath :=
            filepath_Join (Config.RemotePath cfg) MetadataFileName in
          match storage.UploadFile env localPath remotePath w1 with
          | (Err msg, w2) => (Err (wrap_err "failed to upload metadata" msg), w2)
          | (Ok _, w2) => (Ok tt, w2)
          end
      end
  end.

(** The handling of one group's error in both loops. *)
Definition recordError (group : ArchiveGroup) (msg : string) (st : RunState)
  : RunState :=
  set_res (setDetail (ArchiveName group) msg)
    (set_res (addError (ArchiveName group)) st).

(** The body of the loop of [RunFullBackup]. *)
Definition fullStep (env : Env) (cfg : Config.t) (st : RunState)
    (group : ArchiveGroup) : RunState :=
  match processArchiveGroup env cfg group st with
  | (Err msg, st') => recordError group msg st'
  | (Ok _, st') => st'
  end.

(** The body of the loop of [RunIncrementalBackup]. *)
Definition incrementalStep (env : Env) (cfg : Config.t) (st : RunState)
    (group : ArchiveGroup) : RunState :=
  if NeedsUpdate group then fullStep env cfg st group
  else
    set_res (setDetail (ArchiveName group) "unchanged, skipped")
      (set_res incSkipped st).

(** Steps 5 and 6, shared by both runs: persist the metadata and
    complete the result. *)
Definition persist (env : Env) (cfg : Config.t) (prefixDigits : Z)
    (fileTree : gmap string FileTreeNode) (groups : list ArchiveGroup)
    (st : RunState) : result BackupResult * World :=
  let metadata :=
    {| Version := MetadataVersion;
       PrefixDigits := prefixDigits;
       BackupTime := time_Now env;
       FileTree := fileTree;
       Checksums := checksums st |} in
  match saveAndUploadMetadata env cfg metadata (world st) with
  | (Err msg, w') => (Err (wrap_err "failed to save metadata" msg), w')
  | (Ok _, w') =>
      (Ok (finishResult (Z.of_nat (length groups)) (time_Since env) (res st)), w')
  end.

(** [RunFullBackup] *)
Definition RunFullBackup (env : Env) (cfg : Config.t) (w : World)
  : result BackupResult * World :=
  match scanner.ScanFileTree (Config.ChunkPath cfg) (chunk_root env) with
  | Err msg => (Err (wrap_err "failed to scan file tree" msg), w)
  | Ok fileTree =>
  match scanner.GetChunkDirectories (chunk_root env) with
  | Err msg => (Err (wrap_err "failed to get chunk directories" msg), w)
  | Ok directories =>
  match archiver.GenerateArchiveGroups directories (Config.PrefixDigits cfg) with
  | Err msg => (Err (wrap_err "failed to generate archive groups" msg), w)
  | Ok groups =>
      let st :=
        foldl (fullStep env cfg)
          {| world := w; checksums := ∅; res := emptyResult |} groups in
      persist env cfg (Config.PrefixDigits cfg) fileTree groups st
  end end end.

(** [RunIncrementalBackup] *)
Definition RunIncrementalBackup (env : Env) (cfg : Config.t) (w : World)
  : result BackupResult * World :=
  match loadRemoteMetadata env cfg w with
  | Err msg => (Err (wrap_err "failed to load previous backup metadata" msg), w)
  | Ok oldMetadata =>
  match scanner.ScanFileTree (Config.ChunkPath cfg) (chunk_root env) with
  | Err msg => (Err (wrap_err "failed to scan current file tree" msg), w)
  | Ok currentFileTree =>
  let changedDirs :=
    scanner.CompareFileTrees (FileTree oldMetadata) currentFileTree in
  match scanner.GetChunkDirectories (chunk_root env) with
  | Err msg => (Err (wrap_err "failed to get chunk directories" msg), w)
  | Ok directories =>
  match archiver.GenerateArchiveGroups directories (PrefixDigits oldMetadata) with
  | Err msg => (Err (wrap_err "failed to generate archive groups" msg), w)
  | Ok groups0 =>
      let groups := archiver.MarkGroupsForUpdate groups0 changedDirs in
      let st :=
        foldl (incrementalStep env cfg)
          {| world := w; checksums := Checksums oldMetadata;
             res := emptyResult |} groups in
      persist env cfg (PrefixDigits oldMetadata) currentFileTree groups st
  end end end end.

End backup.

Import models.


(** * Vocabulary of the properties *)

(** The names of [directories] that go to the bucket of [prefix], in
    their order of appearance. *)
Definition bucket (prefixDigits : Z) (prefix : string)
    (directories : list string) : list string :=
  filter (fun dir => String.length dir = 4%nat /\
                     String.substring 0 (Z.to_nat prefixDigits) dir = prefix)
         directories.

(** A measure for recursion through the [Children] maps. *)
Fixpoint node_size (n : FileTreeNode) : nat :=
  S (map_fold (fun (_ : string) (c : FileTreeNode) (acc : nat) =>
                 (node_size c + acc)%nat) 0%nat (Children n)).

(** The number of groups a result accounts for. *)
Definition outcome_count (r : BackupResult) : Z :=
  UpdatedArchives r + SkippedArchives r + Z.of_nat (length (ErrorArchives r)).

(** What one iteration of either loop may change, for the group named
    [name]. *)
Record step_effect (name : string) (st st' : backup.RunState) : Prop := {
  se_checksums : forall k, k <> name ->
                   backup.checksums st' !! k = backup.checksums st !! k;
  se_details : forall k, k <> name ->
                 Details (backup.res st') !! k = Details (backup.res st) !! k;
  se_detail : is_Some (Details (backup.res st') !! name);
  se_errors : exists l, ErrorArchives (backup.res st')
                        = ErrorArchives (backup.res st) ++ l;
  se_uploaded : exists l, UploadedFiles (backup.res st')
                          = UploadedFiles (backup.res st) ++ l;
  se_count : outcome_count (backup.res st') = outcome_count (backup.res st) + 1
}.

(** Where the metadata document is kept. *)
Definition metadataRemotePath (cfg : Config.t) : string :=
  filepath_Join (Config.RemotePath cfg) backup.MetadataFileName.
Definition metadataLocalPath (cfg : Config.t) : string :=
  filepath_Join (Config.TempPath cfg) backup.MetadataFileName.

(** The three calls of [saveAndUploadMetadata] all succeed. *)
Definition persistence_ok (env : Env) (cfg : Config.t) : bool :=
  bool_decide (fault env OpMarshal = None)
  && bool_decide (fault env (OpWrite (metadataLocalPath cfg)) = None)
  && bool_decide (fault env (OpUpload (metadataLocalPath cfg)
                               (metadataRemotePath cfg)) = None).

(** The state the loop of a full run starts in, and that of an
    incremental run that loaded [old]. *)
Definition fullInit (w : World) : backup.RunState :=
  {| backup.world := w; backup.checksums := ∅;
     backup.res := backup.emptyResult |}.
Definition incrementalInit (old : BackupMetadata) (w : World) : backup.RunState :=
  {| backup.world := w; backup.checksums := Checksums old;
     backup.res := backup.emptyResult |}.

(** The groups a full run works on. *)
Definition fullGroups (env : Env) (cfg : Config.t) : result (list ArchiveGroup) :=
  match scanner.GetChunkDirectories (chunk_root env) with
  | Err msg => Err msg
  | Ok directories =>
      archiver.GenerateArchiveGroups directories (Config.PrefixDigits cfg)
  end.

(** The groups an incremental run works on, marked. *)
Definition incrementalGroups (env : Env) (old : BackupMetadata)
    (tree : gmap string FileTreeNode) : result (list ArchiveGroup) :=
  match scanner.GetChunkDirectories (chunk_root env) with
  | Err msg => Err msg
  | Ok directories =>
      match archiver.GenerateArchiveGroups directories (PrefixDigits old) with
      | Err msg => Err msg
      | Ok groups =>
          Ok (archiver.MarkGroupsForUpdate groups
                (scanner.CompareFileTrees (FileTree old) tree))
      end
  end.

(** The processing of [g], at its place in the loop over [groups],
    returns the error [msg]. *)
Definition fails_in (env : Env) (cfg : Config.t)
    (step : backup.RunState -> ArchiveGroup -> backup.RunState)
    (init : backup.RunState) (groups : list ArchiveGroup) (g : ArchiveGroup)
    (msg : string) : Prop :=
  exists pre post,
    groups = pre ++ g :: post /\
    (backup.processArchiveGroup env cfg g (foldl step init pre)).1 = Err msg.

(** All the steps of a run other than the processing of the groups
    succeed. *)
Definition fullStateLevelOk (env : Env) (cfg : Config.t) : bool :=
  is_Ok (scanner.ScanFileTree (Config.ChunkPath cfg) (chunk_root env))
  && is_Ok (fullGroups env cfg) && persistence_ok env cfg.

Definition incrementalStateLevelOk (env : Env) (cfg : Config.t) (w : World)
  : bool :=
  match backup.loadRemoteMetadata env cfg w,
        scanner.ScanFileTree (Config.ChunkPath cfg) (chunk_root env) with
  | Ok old, Ok tree =>
      is_Ok (incrementalGroups env old tree) && persistence_ok env cfg
  | _, _ => false
  end.

(** The paths [processArchiveGroup] works with for a group. *)
Definition remoteArchivePath (cfg : Config.t) (group : ArchiveGroup) : string :=
  filepath_Join (Config.RemotePath cfg) (ArchiveName group).
Definition remoteSha256Path (cfg : Config.t) (group : ArchiveGroup) : string :=
  filepath_Join (Config.RemotePath cfg) (ArchiveName group +:+ ".sha256").
Definition scratchArchivePath (cfg : Config.t) (group : ArchiveGroup) : string :=
  filepath_Join (Config.TempPath cfg) (ArchiveName group).
Definition scratchChecksumPath (cfg : Config.t) (group : ArchiveGroup) : string :=
  scratchArchivePath cfg group +:+ ".sha256".

(** The companion checksum record the code writes for the hash [h]. *)
Definition checksumRecord (cfg : Config.t) (group : ArchiveGroup) (h : string)
  : Blob :=
  {| bytes := h +:+ "  " +:+ filepath_Base (scratchArchivePath cfg group)
                +:+ String "010" EmptyString;
     json := None |}.

(** The companion checksum record cannot be created or uploaded. *)
Definition checksumRecordFails (env : Env) (cfg : Config.t)
    (group : ArchiveGroup) : Prop :=
  ~ (fault env (OpCreate (scratchChecksumPath cfg group)) = None /\
     fault env (OpWrite (scratchChecksumPath cfg group)) = None /\
     fault env (OpUpload (scratchChecksumPath cfg group)
                  (remoteSha256Path cfg group)) = None).

(** A string without white space, such as a hexadecimal digest. *)
Fixpoint no_space (s : string) : bool :=
  match s with
  | EmptyString => true
  | String c s' => negb (is_space c) && no_space s'
  end.

(** ** Concrete inputs *)

(** A chunk directory with three shards in two prefix groups, and some
    entries that are not shards. *)
Definition sample_chunks : FsNode :=
  FsDir 5 true
    [("0000", FsDir 1 true [("a.dat", FsFile "hello" 2 true);
                            ("sub", FsDir 3 true [("b", FsFile "xy" 4 true)])]);
     ("00ff", FsDir 1 true []);
     ("0100", FsDir 1 true [("c", FsFile "c" 7 true)]);
     ("zzzz", FsDir 1 true []);
     ("abcde", FsDir 1 true []);
     ("ABcd", FsFile "" 1 true)].

(** The same after the file in shard 0100 has been rewritten. *)
Definition changed_chunks : FsNode :=
  FsDir 5 true
    [("0000", FsDir 1 true [("a.dat", FsFile "hello" 2 true);
                            ("sub", FsDir 3 true [("b", FsFile "xy" 4 true)])]);
     ("00ff", FsDir 1 true []);
     ("0100", FsDir 8 true [("c", FsFile "cc" 8 true)]);
     ("zzzz", FsDir 1 true []);
     ("abcde", FsDir 1 true []);
     ("ABcd", FsFile "" 1 true)].

(** A chunk directory with a file in shard 0100 that cannot be opened. *)
Definition locked_chunks : FsNode :=
  FsDir 5 true
    [("0000", FsDir 1 true [("a.dat", FsFile "hello" 2 true)]);
     ("0100", FsDir 1 true [("c", FsFile "c" 7 false)])].

Definition sample_cfg : Config.t :=
  {| Config.ChunkPath := "/chunk"; Config.RemotePath := "/";
     Config.TempPath := "/tmp"; Config.PrefixDigits := 2 |}.

(** Stand-ins for the codecs, enough to run the model. *)
Definition sample_env (root : FsNode) (fails : Op -> option string) : Env :=
  {| tar_gz := fun entries =>
       String.concat ","
         ((fun e => te_name e +:+ "=" +:+ default EmptyString (te_data e))
            <$> entries);
     sha256_hex := fun data => "sha256(" +:+ data +:+ ")";
     json_MarshalIndent := fun metadata => "{version: " +:+ pretty (Version metadata) +:+ "}";
     time_Now := 100;
     time_Since := 3;
     chunk_root := Some root;
     fault := fails |}.

Definition no_fault : Op -> option string := fun _ => None.

(** The upload of the archive of group 01 fails. *)
Definition archive_upload_fault : Op -> option string :=
  fun op =>
    match op with
    | OpUpload "/tmp/0100-01ff.tar.gz" _ => Some "connection reset"
    | _ => None
    end.

(** The upload of the companion checksum record of group 01 fails. *)
Definition record_upload_fault : Op -> option string :=
  fun op =>
    match op with
    | OpUpload "/tmp/0100-01ff.tar.gz.sha256" _ => Some "connection reset"
    | _ => None
    end.

Definition empty_world : World := {| remote := ∅; temp := ∅ |}.

Definition group_00 : ArchiveGroup :=
  archiver.makeGroup 2 ("00", ["0000"; "00ff"]).
Definition group_01 : ArchiveGroup := archiver.makeGroup 2 ("01", ["0100"]).

Definition group_01_dirty : ArchiveGroup :=
  archiver.markGroup {[ "0100" := true ]} group_01.

(** The world a faultless full run over [sample_chunks] leaves. *)
Definition world_after_full_run : World :=
  (backup.RunFullBackup (sample_env sample_chunks no_fault) sample_cfg
     empty_world).2.

(** Remote storage holding a metadata document that records a checksum
    for group 01. *)
Definition prior_metadata (version : Z) : BackupMetadata :=
  {| Version := version; PrefixDigits := 2; BackupTime := 50; FileTree := ∅;
     Checksums := {[ "0100-01ff.tar.gz" := "sha256(earlier)" ]} |}.

Definition world_with_metadata (version : Z) : World :=
  {| remote := {[ "/backup-metadata.json" :=
                    {| bytes := "{version: " +:+ pretty version +:+ "}";
                       json := Some (prior_metadata version) |} ]};
     temp := ∅ |}.

(** Two snapshots: shard 0000 modified, 0001 removed, 0002 added. *)
Definition tree_before : gmap string FileTreeNode :=
  {[ "0000" := {| Name := "0000"; Size := 5; ModTime := 1; IsDir := true;
                  Children := {[ "a" := {| Name := "a"; Size := 5; ModTime := 1;
                                           IsDir := false; Children := ∅ |} ]} |};
     "0001" := {| Name := "0001"; Size := 0; ModTime := 1; IsDir := true;
                  Children := ∅ |} ]}.
Definition tree_after : gmap string FileTreeNode :=
  {[ "0000" := {| Name := "0000"; Size := 7; ModTime := 2; IsDir := true;
                  Children := {[ "a" := {| Name := "a"; Size := 7; ModTime := 2;
                                           IsDir := false; Children := ∅ |} ]} |};
     "0002" := {| Name := "0002"; Size := 0; ModTime := 1; IsDir := true;
                  Children := ∅ |} ]}.


(** * Vocabulary of the further properties *)

(** [n] and every directory below it can be listed by [os.ReadDir]. *)
Fixpoint listable (n : FsNode) : bool :=
  match n with
  | FsFile _ _ _ => true
  | FsDir _ readable entries =>
      readable && forallb (fun entry => listable entry.2) entries
  end.

(** The chunk directory can be listed, and so can every shard directory
    in it, all the way down. *)
Definition scannable (root : option FsNode) : bool :=
  match scanner.readChunkDir root with
  | Err _ => false
  | Ok entries =>
      forallb (fun entry =>
                 negb (fs_isDir entry.2 && scanner.hexPattern_MatchString entry.1)
                 || listable entry.2) entries
  end.

(** The sum of the sizes recorded for the children of a node. *)
Definition children_size (children : gmap string FileTreeNode) : Z :=
  map_fold (fun (_ : string) (child : FileTreeNode) (total : Z) =>
              Size child + total) 0 children.

(** What [os.ReadDir] and [DirEntry.Info] show of a node: the bytes of
    every file are replaced by as many zero bytes, and every file is made
    readable. *)
Fixpoint stat_only (n : FsNode) : FsNode :=
  match n with
  | FsFile content mtime _ =>
      FsFile (strings_Repeat "000" (String.length content)) mtime true
  | FsDir mtime readable entries =>
      FsDir mtime readable
        (List.map (fun entry => (entry.1, stat_only entry.2)) entries)
  end.




(** The body of the loop of [scanDirectory]: the node made for one entry
    of the directory at [dirPath]. *)
Definition scanEntry (dirPath : string) (entry : string * FsNode)
  : result FileTreeNode :=
  match entry.2 with
  | FsDir _ _ _ =>
      scanner.scanDirectory (filepath_Join dirPath entry.1) entry.1 entry.2
  | FsFile content fmtime _ =>
      Ok {| Name := entry.1; Size := Z.of_nat (String.length content);
            ModTime := fmtime; IsDir := false; Children := ∅ |}
  end.

(** The loop of [scanDirectory] over the entries, from the node built so
    far. *)
Fixpoint scanChildren (dirPath : string) (entries : list (string * FsNode))
    (node : FileTreeNode) : result FileTreeNode :=
  match entries with
  | [] => Ok node
  | entry :: rest =>
      match scanEntry dirPath entry with
      | Err msg => Err msg
      | Ok child => scanChildren dirPath rest (scanner.withChild node entry.1 child)
      end
  end.

(** The member names of all the groups of a list, in order. *)
Definition allMembers (groups : list ArchiveGroup) : list string :=
  groups ≫= Directories.

(** A member of a group is found by [os.Stat] in the chunk directory. *)
Definition present (env : Env) (chunkPath dir : string) : bool :=
  match archiver.statMember (chunk_root env) (filepath_Join chunkPath dir) dir with
  | archiver.StatNotExist => false
  | _ => true
  end.

(** The processing of [g], at its place in the loop over [groups],
    returns without error. *)
Definition succeeds_in (env : Env) (cfg : Config.t)
    (step : backup.RunState -> ArchiveGroup -> backup.RunState)
    (init : backup.RunState) (groups : list ArchiveGroup) (g : ArchiveGroup)
  : Prop :=
  exists pre post,
    groups = pre ++ g :: post /\
    is_Ok (backup.processArchiveGroup env cfg g (foldl step init pre)).1 = true.

(** A chunk directory with two shards of one prefix group, and the same
    after the second shard has been removed. *)
Definition two_shards : FsNode :=
  FsDir 5 true [("0000", FsDir 1 true [("a", FsFile "a" 2 true)]);
                ("0001", FsDir 1 true [("b", FsFile "b" 2 true)])].
Definition one_shard : FsNode :=
  FsDir 6 true [("0000", FsDir 1 true [("a", FsFile "a" 2 true)])].

(** The world a faultless full run over [two_shards] leaves. *)
Definition world_after_two_shards : World :=
  (backup.RunFullBackup (sample_env two_shards no_fault) sample_cfg
     empty_world).2.


(** Writing the companion checksum record of group 01 fails. *)
Definition record_write_fault : Op -> option string :=
  fun op =>
    match op with
    | OpWrite "/tmp/0100-01ff.tar.gz.sha256" => Some "no space left on device"
    | _ => None
    end.

(** * Properties *)

(** ** Strings *)

Lemma substring_0_length (n : nat) (s : string) :
  (n <= String.length s)%nat -> String.length (String.substring 0 n s) = n.
Proof.
  revert s. induction n as [|n IH]; intros [|c s] Hn; simpl in *; try lia; auto.
  rewrite IH; [reflexivity | lia].
Qed.

Lemma string_app_length (s t : string) :
  String.length (s +:+ t) = (String.length s + String.length t)%nat.
Proof. induction s as [|c s IH]; simpl; [reflexivity | now rewrite IH]. Qed.

Lemma strings_Repeat_length (c : ascii) (n : nat) :
  String.length (strings_Repeat c n) = n.
Proof. induction n as [|n IH]; simpl; [reflexivity | now rewrite IH]. Qed.

Lemma string_le_ne_lt (s t : string) :
  String.le s t -> s <> t -> String.ltb s t = true.
Proof.
  unfold String.le, String.leb, String.ltb. intros Hle Hne.
  destruct (String.compare s t) eqn:Hc; simpl in *; try done.
  apply String.compare_eq_iff in Hc. done.
Qed.

(** ** The prefix grouper *)

Section Grouper.
Import archiver.
Variable prefixDigits : Z.

Lemma groupMap_lookup (directories : list string) (prefix : string) :
  foldl (addToGroupMap prefixDigits) ∅ directories !! prefix
  = match bucket prefixDigits prefix directories with
    | [] => None
    | dirs => Some dirs
    end.
Proof.
  induction directories as [|dir l IH] using rev_ind.
  - reflexivity.
  - rewrite foldl_app. simpl. unfold bucket in *. rewrite filter_app.
    unfold addToGroupMap at 1.
    destruct (Nat.eqb_spec (String.length dir) 4) as [Hlen|Hlen]; simpl.
    + destruct (decide (String.substring 0 (Z.to_nat prefixDigits) dir = prefix))
        as [Hp|Hp].
      * rewrite Hp, lookup_insert_eq, IH.
        rewrite (filter_cons_True _ dir []) by done.
        rewrite filter_nil.
        destruct (filter _ l); reflexivity.
      * rewrite lookup_insert_ne by done. rewrite IH.
        rewrite (filter_cons_False _ dir []) by tauto.
        rewrite filter_nil, app_nil_r. reflexivity.
    + rewrite IH. rewrite (filter_cons_False _ dir []) by tauto.
      rewrite filter_nil, app_nil_r. reflexivity.
Qed.

Lemma groupMap_lookup_Some (directories : list string) (prefix : string)
    (dirs : list string) :
  foldl (addToGroupMap prefixDigits) ∅ directories !! prefix = Some dirs ->
  dirs = bucket prefixDigits prefix directories /\ dirs <> [].
Proof.
  rewrite groupMap_lookup. destruct (bucket prefixDigits prefix directories) eqn:Hb; [done|].
  intros [= <-]. done.
Qed.

Lemma elem_of_bucket (directories : list string) (prefix name : string) :
  name ∈ bucket prefixDigits prefix directories <->
  name ∈ directories /\ String.length name = 4%nat /\
  String.substring 0 (Z.to_nat prefixDigits) name = prefix.
Proof. unfold bucket. rewrite list_elem_of_filter. tauto. Qed.

(** Membership in the produced group list. *)
Lemma elem_of_groups (directories : list string) (g : ArchiveGroup) :
  g ∈ merge_sort prefix_le
        (makeGroup prefixDigits <$>
           map_to_list (foldl (addToGroupMap prefixDigits) ∅ directories)) <->
  exists prefix, bucket prefixDigits prefix directories <> [] /\
                 g = makeGroup prefixDigits (prefix, bucket prefixDigits prefix directories).
Proof.
  rewrite merge_sort_Permutation, list_elem_of_fmap. split.
  - intros [[prefix dirs] [-> Hin]]. apply elem_of_map_to_list in Hin.
    apply groupMap_lookup_Some in Hin as [-> Hne]. eauto.
  - intros (prefix & Hne & ->). exists (prefix, bucket prefixDigits prefix directories).
    split; [done|]. apply elem_of_map_to_list. rewrite groupMap_lookup.
    destruct (bucket prefixDigits prefix directories); done.
Qed.

Lemma makeGroup_Prefix entry : Prefix (makeGroup prefixDigits entry) = entry.1.
Proof. reflexivity. Qed.

Lemma makeGroup_Directories entry :
  Directories (makeGroup prefixDigits entry) = merge_sort String.le entry.2.
Proof. reflexivity. Qed.

Lemma groups_prefix_NoDup (directories : list string) :
  NoDup (Prefix <$>
           (makeGroup prefixDigits <$>
              map_to_list (foldl (addToGroupMap prefixDigits) ∅ directories))).
Proof.
  rewrite <- list_fmap_compose.
  rewrite (list_fmap_ext _ fst _) by reflexivity.
  apply NoDup_fst_map_to_list.
Qed.

End Grouper.

Lemma prefix_sorted_strict (groups : list ArchiveGroup) :
  StronglySorted archiver.prefix_le groups ->
  NoDup (Prefix <$> groups) ->
  StronglySorted (fun g1 g2 => String.ltb (Prefix g1) (Prefix g2) = true) groups.
Proof.
  induction 1 as [|g l Hsorted IH Hall]; intros Hnd; [constructor|].
  rewrite fmap_cons in Hnd. apply NoDup_cons in Hnd as [Hnotin Hnd].
  constructor; [auto|].
  rewrite Forall_forall in Hall |- *. intros g' Hin.
  apply string_le_ne_lt; [apply Hall, Hin|].
  intros Heq. apply Hnotin. rewrite Heq. apply list_elem_of_fmap. eauto.
Qed.

Lemma strict_sorted_NoDup (groups : list ArchiveGroup) :
  StronglySorted (fun g1 g2 => String.ltb (Prefix g1) (Prefix g2) = true) groups ->
  NoDup groups.
Proof.
  induction 1 as [|g l Hsorted IH Hall]; constructor; [|assumption].
  intros Hin. rewrite Forall_forall in Hall. specialize (Hall g Hin).
  unfold String.ltb in Hall.
  pose proof (String.compare_antisym (Prefix g) (Prefix g)) as Hanti.
  destruct (String.compare (Prefix g) (Prefix g)); simpl in *; congruence.
Qed.

(** The two sorts have one possible result each, whatever order the map
    was ranged over and whatever the sorting algorithm does with it. *)
Lemma sorted_by_prefix_unique (l1 l2 : list ArchiveGroup) :
  l1 ≡ₚ l2 ->
  StronglySorted (fun g1 g2 => String.ltb (Prefix g1) (Prefix g2) = true) l1 ->
  StronglySorted (fun g1 g2 => String.ltb (Prefix g1) (Prefix g2) = true) l2 ->
  l1 = l2.
Proof.
  intros Hperm Hs1 Hs2.
  eapply StronglySorted_unique_strong; [|exact Hs1|exact Hs2|exact Hperm].
  intros g1 g2 _ _ H12 H21. exfalso. unfold String.ltb in *.
  pose proof (String.compare_antisym (Prefix g1) (Prefix g2)) as Hanti.
  destruct (String.compare (Prefix g1) (Prefix g2)),
           (String.compare (Prefix g2) (Prefix g1)); simpl in *; congruence.
Qed.

Lemma sorted_strings_unique (l1 l2 : list string) :
  l1 ≡ₚ l2 -> Sorted String.le l1 -> Sorted String.le l2 -> l1 = l2.
Proof.
  intros Hperm Hs1 Hs2. destruct String.le_po as [[_ Htrans] Hanti].
  by apply (Sorted_unique String.le).
Qed.

(** C4. [GenerateArchiveGroups] succeeds exactly when [prefixDigits] is in
    [1,4].  When it succeeds, every input name of length 4 is a member of
    exactly one group, whose prefix is the name's first [prefixDigits]
    bytes; every group's members are sorted, its [StartRange] and
    [EndRange] are its prefix padded with '0' and 'f' to length 4, and the
    groups are strictly sorted by prefix.  Otherwise it returns the
    invalid-prefix-digits error, whatever the directory list is. *)
Theorem C4_GenerateArchiveGroups (directories : list string) (prefixDigits : Z) :
  match archiver.GenerateArchiveGroups directories prefixDigits with
  | Ok groups =>
      1 <= prefixDigits <= 4 /\
      (forall name, name ∈ directories -> String.length name = 4%nat ->
         exists g, g ∈ groups /\ name ∈ Directories g /\
           Prefix g = String.substring 0 (Z.to_nat prefixDigits) name /\
           forall g', g' ∈ groups -> name ∈ Directories g' -> g' = g) /\
      NoDup groups /\
      (forall g, g ∈ groups ->
         Sorted String.le (Directories g) /\
         String.length (Prefix g) = Z.to_nat prefixDigits /\
         StartRange g
           = Prefix g +:+ strings_Repeat "0" (4 - String.length (Prefix g)) /\
         EndRange g
           = Prefix g +:+ strings_Repeat "f" (4 - String.length (Prefix g)) /\
         String.length (StartRange g) = 4%nat /\
         String.length (EndRange g) = 4%nat) /\
      StronglySorted (fun g1 g2 => String.ltb (Prefix g1) (Prefix g2) = true) groups
  | Err msg =>
      ~ (1 <= prefixDigits <= 4) /\
      msg = "prefix digits must be between 1 and 4, got " +:+ pretty prefixDigits /\
      forall others, archiver.GenerateArchiveGroups others prefixDigits = Err msg
  end.
Proof.
  unfold archiver.GenerateArchiveGroups.
  destruct ((prefixDigits <? 1) || (prefixDigits >? 4)) eqn:Hrange.
  - split; [lia|]. split; [reflexivity|]. intros others. reflexivity.
  - assert (Hpd : 1 <= prefixDigits <= 4) by lia.
    assert (Hstrict : StronglySorted
              (fun g1 g2 => String.ltb (Prefix g1) (Prefix g2) = true)
              (merge_sort archiver.prefix_le
                 (archiver.makeGroup prefixDigits <$>
                    map_to_list
                      (foldl (archiver.addToGroupMap prefixDigits) ∅ directories)))).
    { apply prefix_sorted_strict.
      - apply StronglySorted_merge_sort; apply _.
      - rewrite merge_sort_Permutation. apply groups_prefix_NoDup. }
    split; [done|]. split; [|split; [|split]].
    + intros name Hin Hlen.
      set (p := String.substring 0 (Z.to_nat prefixDigits) name).
      assert (Hmem : name ∈ bucket prefixDigits p directories)
        by (apply elem_of_bucket; done).
      exists (archiver.makeGroup prefixDigits (p, bucket prefixDigits p directories)).
      split; [|split; [|split]].
      * apply elem_of_groups. exists p. split; [|done].
        intros Hnil. rewrite Hnil in Hmem. by apply not_elem_of_nil in Hmem.
      * rewrite makeGroup_Directories. simpl. by rewrite merge_sort_Permutation.
      * reflexivity.
      * intros g' Hg' Hname. apply elem_of_groups in Hg' as (p' & _ & ->).
        rewrite makeGroup_Directories in Hname. simpl in Hname.
        rewrite merge_sort_Permutation in Hname.
        apply elem_of_bucket in Hname as (_ & _ & Hp). fold p in Hp.
        by rewrite <- Hp.
    + by apply strict_sorted_NoDup.
    + intros g Hg. apply elem_of_groups in Hg as (p & Hne & ->).
      assert (Hplen : String.length p = Z.to_nat prefixDigits).
      { destruct (bucket prefixDigits p directories) as [|d ds] eqn:Hb; [done|].
        assert (Hd : d ∈ bucket prefixDigits p directories)
          by (rewrite Hb; apply list_elem_of_here).
        apply elem_of_bucket in Hd as (_ & Hlen & <-).
        apply substring_0_length. lia. }
      rewrite makeGroup_Directories. simpl.
      rewrite !string_app_length, !strings_Repeat_length, Hplen.
      repeat split; try reflexivity; try lia.
      * apply Sorted_merge_sort. apply String.le_total.
      * f_equal. f_equal. lia.
      * f_equal. f_equal. lia.
    + done.
Qed.

(** ** The snapshot differ *)

Lemma node_size_child (n c : FileTreeNode) (k : string) :
  Children n !! k = Some c -> (node_size c < node_size n)%nat.
Proof.
  destruct n as [nm sz mt d ch]. simpl. intros Hk.
  enough (node_size c <= map_fold (fun (_ : string) (c : FileTreeNode) (acc : nat) =>
                 (node_size c + acc)%nat) 0%nat ch)%nat by lia.
  revert k c Hk.
  apply (map_fold_weak_ind
           (fun r (m : gmap string FileTreeNode) =>
              forall k c, m !! k = Some c -> (node_size c <= r)%nat)).
  - intros k c Hk. by rewrite lookup_empty in Hk.
  - intros i x m r Hi IH k c Hk.
    destruct (decide (i = k)) as [->|Hne].
    + rewrite lookup_insert_eq in Hk. injection Hk as ->. lia.
    + rewrite lookup_insert_ne in Hk by done. specialize (IH k c Hk). lia.
Qed.

(** Induction over a tree through its children. *)
Lemma FileTreeNode_children_ind (P : FileTreeNode -> Prop) :
  (forall n, (forall k c, Children n !! k = Some c -> P c) -> P n) ->
  forall n, P n.
Proof.
  intros Hstep n.
  induction n as [n IH] using (induction_ltof1 _ node_size).
  apply Hstep. intros k c Hk. apply IH. unfold ltof.
  eapply node_size_child, Hk.
Qed.

(** A [range] loop with an early [return true] finds nothing exactly when
    no entry satisfies the test. *)
Lemma map_fold_found_false {V} (test : string -> V -> bool) (m : gmap string V) :
  map_fold (fun (k : string) (v : V) (found : bool) =>
              if found then true else test k v) false m = false
  <-> forall k v, m !! k = Some v -> test k v = false.
Proof.
  apply (map_fold_weak_ind
           (fun (r : bool) (m : gmap string V) =>
              r = false <-> forall k v, m !! k = Some v -> test k v = false)).
  - split; [|done]. intros _ k v Hk. by rewrite lookup_empty in Hk.
  - intros i x m' r Hi IH. split.
    + intros Hr k v Hk. destruct r; [done|].
      destruct (decide (i = k)) as [->|Hne].
      * rewrite lookup_insert_eq in Hk. by injection Hk as ->.
      * rewrite lookup_insert_ne in Hk by done. by apply IH.
    + intros Hall.
      assert (Hr : r = false).
      { apply IH. intros k v Hk. apply Hall.
        rewrite lookup_insert_ne; [done|]. intros ->. congruence. }
      rewrite Hr. apply Hall. apply lookup_insert_eq.
Qed.

Lemma hasTreeChanged_unfold (o n : FileTreeNode) :
  scanner.hasTreeChanged o n =
    if negb (Size o =? Size n) || negb (ModTime o =? ModTime n)
       || negb (Bool.eqb (IsDir o) (IsDir n))
    then true
    else if negb (IsDir o) then false
    else if negb (Nat.eqb (size (Children o)) (size (Children n))) then true
    else if map_fold
              (fun (name : string) (oldChild : FileTreeNode) (found : bool) =>
                 if found then true
                 else match Children n !! name with
                      | None => true
                      | Some newChild => scanner.hasTreeChanged oldChild newChild
                      end)
              false (Children o)
    then true
    else map_fold
           (fun (name : string) (_ : FileTreeNode) (found : bool) =>
              if found then true
              else match Children o !! name with
                   | None => true
                   | Some _ => false
                   end)
           false (Children n).
Proof. destruct o; reflexivity. Qed.

(** The fields compared first. *)
Lemma basic_attributes_equal (o n : FileTreeNode) :
  negb (Size o =? Size n) || negb (ModTime o =? ModTime n)
  || negb (Bool.eqb (IsDir o) (IsDir n)) = false
  <-> Size o = Size n /\ ModTime o = ModTime n /\ IsDir o = IsDir n.
Proof.
  rewrite !orb_false_iff, !negb_false_iff, !Z.eqb_eq, Bool.eqb_true_iff. tauto.
Qed.

(** [hasTreeChanged] reports no change exactly on structurally equal
    nodes. *)
Lemma hasTreeChanged_false_iff (o : FileTreeNode) :
  forall n, scanner.hasTreeChanged o n = false <-> scanner.structurally_equal o n.
Proof.
  induction o as [o IH] using FileTreeNode_children_ind. intros n.
  rewrite hasTreeChanged_unfold.
  destruct (negb (Size o =? Size n) || negb (ModTime o =? ModTime n)
            || negb (Bool.eqb (IsDir o) (IsDir n))) eqn:Hbasic.
  { split; [done|]. intros Heq. destruct Heq as [a b Hs Hm Hd _ _].
    assert (Hb : negb (Size a =? Size b) || negb (ModTime a =? ModTime b)
                 || negb (Bool.eqb (IsDir a) (IsDir b)) = false)
      by (apply basic_attributes_equal; done).
    congruence. }
  apply basic_attributes_equal in Hbasic as (Hs & Hm & Hd).
  destruct (IsDir o) eqn:Hdir; cbn [negb].
  2:{ split; [|reflexivity]. intros _.
      constructor; [assumption|assumption|congruence|congruence|congruence]. }
  destruct (Nat.eqb_spec (size (Children o)) (size (Children n))) as [Hsz|Hsz];
    cbn [negb].
  2:{ split; [discriminate|]. intros Heq. destruct Heq as [a b _ _ _ Hdom _].
      exfalso. apply Hsz. rewrite <- (size_dom (Children a)), (Hdom Hdir).
      apply size_dom. }
  match goal with
  | |- (if ?f1 then true else ?f2) = false <-> _ =>
      assert (Hfold : (if f1 then true else f2) = false
                      <-> f1 = false /\ f2 = false)
        by (destruct f1, f2; intuition congruence)
  end.
  rewrite Hfold. clear Hfold. rewrite !map_fold_found_false. split.
  - intros [Hold Hnew]. constructor; [assumption|assumption|congruence| |].
    + intros _. apply set_eq. intros k. rewrite !elem_of_dom. split.
      * intros [oc Hoc]. specialize (Hold k oc Hoc).
        destruct (Children n !! k); [eauto|done].
      * intros [nc Hnc]. specialize (Hnew k nc Hnc).
        destruct (Children o !! k); [eauto|done].
    + intros _ k oc nc Hoc Hnc. specialize (Hold k oc Hoc).
      rewrite Hnc in Hold. by apply (IH k oc Hoc).
  - intros Heq. destruct Heq as [a b _ _ _ Hdom Hchildren].
    specialize (Hdom Hdir). specialize (Hchildren Hdir). split.
    + intros k oc Hoc.
      assert (Hin : k ∈ dom (Children b))
        by (rewrite <- Hdom; apply elem_of_dom; eauto).
      apply elem_of_dom in Hin as [nc Hnc]. rewrite Hnc.
      apply (IH k oc Hoc). eauto.
    + intros k nc Hnc.
      assert (Hin : k ∈ dom (Children a))
        by (rewrite Hdom; apply elem_of_dom; eauto).
      apply elem_of_dom in Hin as [oc Hoc]. by rewrite Hoc.
Qed.

Lemma structurally_equal_refl (n : FileTreeNode) : scanner.structurally_equal n n.
Proof.
  induction n as [n IH] using FileTreeNode_children_ind.
  constructor; try reflexivity.
  intros _ name ca cb Ha Hb. rewrite Ha in Hb. injection Hb as <-. eauto.
Qed.

Lemma hasTreeChanged_refl (n : FileTreeNode) : scanner.hasTreeChanged n n = false.
Proof. apply hasTreeChanged_false_iff, structurally_equal_refl. Qed.

(** The first loop of [CompareFileTrees]: added and modified names. *)
Lemma compare_first_loop (oldTree newTree : gmap string FileTreeNode)
    (name : string) (b : bool) :
  map_fold
    (fun (dirName : string) (newNode : FileTreeNode)
         (changedDirs : gmap string bool) =>
       match oldTree !! dirName with
       | None => <[dirName := true]> changedDirs
       | Some oldNode =>
           if scanner.hasTreeChanged oldNode newNode
           then <[dirName := true]> changedDirs
           else changedDirs
       end) ∅ newTree !! name = Some b
  <-> b = true /\
      exists newNode, newTree !! name = Some newNode /\
        match oldTree !! name with
        | None => True
        | Some oldNode => scanner.hasTreeChanged oldNode newNode = true
        end.
Proof.
  revert name b.
  apply (map_fold_weak_ind
           (fun (r : gmap string bool) (m : gmap string FileTreeNode) =>
              forall name b, r !! name = Some b <->
                b = true /\
                exists newNode, m !! name = Some newNode /\
                  match oldTree !! name with
                  | None => True
                  | Some oldNode => scanner.hasTreeChanged oldNode newNode = true
                  end)).
  - intros name b. rewrite lookup_empty. split; [discriminate|].
    intros (_ & newNode & Hl & _). by rewrite lookup_empty in Hl.
  - intros i x m r Hi IH name b.
    destruct (decide (i = name)) as [->|Hne].
    + rewrite lookup_insert_eq.
      assert (Hr : r !! name = None).
      { destruct (r !! name) as [b'|] eqn:Hrn; [|reflexivity].
        apply IH in Hrn as (_ & newNode & Hl & _). congruence. }
      destruct (oldTree !! name) as [oldNode|] eqn:Hold.
      * destruct (scanner.hasTreeChanged oldNode x) eqn:Hch.
        -- rewrite lookup_insert_eq. split.
           ++ intros [= <-]. split; [reflexivity|]. exists x. by split.
           ++ intros [-> _]. reflexivity.
        -- rewrite Hr. split; [discriminate|].
           intros (_ & newNode & [= <-] & Hc). congruence.
      * rewrite lookup_insert_eq. split.
        -- intros [= <-]. split; [reflexivity|]. exists x. by split.
        -- intros [-> _]. reflexivity.
    + rewrite (lookup_insert_ne m) by done.
      rewrite <- IH.
      destruct (oldTree !! i) as [oldNode|];
        [destruct (scanner.hasTreeChanged oldNode x)|];
        rewrite ?lookup_insert_ne by done; reflexivity.
Qed.

(** The second loop: removed names. *)
Lemma compare_second_loop (oldTree newTree : gmap string FileTreeNode)
    (init : gmap string bool) (name : string) (b : bool) :
  map_fold
    (fun (dirName : string) (_ : FileTreeNode)
         (changedDirs : gmap string bool) =>
       match newTree !! dirName with
       | None => <[dirName := true]> changedDirs
       | Some _ => changedDirs
       end) init oldTree !! name = Some b
  <-> (is_Some (oldTree !! name) /\ newTree !! name = None /\ b = true)
      \/ (~ (is_Some (oldTree !! name) /\ newTree !! name = None)
          /\ init !! name = Some b).
Proof.
  revert name b.
  apply (map_fold_weak_ind
           (fun (r : gmap string bool) (m : gmap string FileTreeNode) =>
              forall name b, r !! name = Some b <->
                (is_Some (m !! name) /\ newTree !! name = None /\ b = true)
                \/ (~ (is_Some (m !! name) /\ newTree !! name = None)
                    /\ init !! name = Some b))).
  - intros name b. rewrite lookup_empty. split.
    + intros Hi. right. split; [|done]. intros [[? ?] _]. discriminate.
    + intros [([? ?] & _)|[_ Hi]]; [discriminate|done].
  - intros i x m r Hi IH name b.
    destruct (decide (i = name)) as [->|Hne].
    + rewrite lookup_insert_eq.
      destruct (newTree !! name) as [newNode|] eqn:Hnew.
      * rewrite IH. rewrite Hi. split.
        -- intros [(_ & Hn & _)|[_ Hin]]; [congruence|].
           right. split; [|assumption]. intros [_ Hn]. congruence.
        -- intros [(_ & Hn & _)|[_ Hin]]; [congruence|].
           right. split; [|assumption]. intros [[y Hy] _]. congruence.
      * rewrite lookup_insert_eq. split.
        -- intros [= <-]. left. eauto.
        -- intros [(_ & _ & ->)|[Hnot _]]; [reflexivity|].
           exfalso. apply Hnot. eauto.
    + rewrite (lookup_insert_ne m) by done. rewrite <- IH.
      destruct (newTree !! i); rewrite ?lookup_insert_ne by done; reflexivity.
Qed.

(** Lookup in the map that [CompareFileTrees] returns. *)
Lemma CompareFileTrees_lookup (previous current : gmap string FileTreeNode)
    (name : string) (b : bool) :
  scanner.CompareFileTrees previous current !! name = Some b <->
  b = true /\
  ((is_Some (current !! name) /\ previous !! name = None)
   \/ (is_Some (previous !! name) /\ current !! name = None)
   \/ (exists p c, previous !! name = Some p /\ current !! name = Some c /\
                   ~ scanner.structurally_equal p c)).
Proof.
  unfold scanner.CompareFileTrees.
  rewrite compare_second_loop, compare_first_loop. split.
  - intros [(Hp & Hc & ->)|(Hnot & -> & c & Hc & Hm)].
    + split; [reflexivity|]. right. left. done.
    + split; [reflexivity|].
      destruct (previous !! name) as [p|] eqn:Hp.
      * right. right. exists p, c. repeat split; try done.
        intros Heq. apply hasTreeChanged_false_iff in Heq. congruence.
      * left. eauto.
  - intros [-> [[[c Hc] Hp]|[[[p Hp] Hc]|(p & c & Hp & Hc & Hne)]]].
    + right. split; [intros [_ ?]; congruence|].
      split; [reflexivity|]. exists c. rewrite Hp. done.
    + left. eauto.
    + right. split; [intros [_ ?]; congruence|].
      split; [reflexivity|]. exists c. rewrite Hp. split; [done|].
      destruct (scanner.hasTreeChanged p c) eqn:Hch; [reflexivity|].
      exfalso. apply Hne. by apply hasTreeChanged_false_iff.
Qed.

(** Comparing a snapshot with itself flags nothing. *)
Lemma CompareFileTrees_same (tree : gmap string FileTreeNode) :
  scanner.CompareFileTrees tree tree = ∅.
Proof.
  apply map_eq. intros name. rewrite lookup_empty.
  destruct (scanner.CompareFileTrees tree tree !! name) as [b|] eqn:Hl;
    [|reflexivity].
  exfalso. apply CompareFileTrees_lookup in Hl as [_ Hcases].
  destruct Hcases as [[[c Hc] Hp]|[[[p Hp] Hc]|(p & c & Hp & Hc & Hne)]];
    try congruence.
  apply Hne. rewrite Hp in Hc. injection Hc as <-. apply structurally_equal_refl.
Qed.

(** C5. The differ returns a map whose keys are exactly the names that
    are in [current] but not in [previous], in [previous] but not in
    [current], or in both with trees that are not structurally equal (all
    stored values are [true]); and the comparison it uses,
    [hasTreeChanged], is the negation of structural equality as the
    specification defines it. *)
Theorem C5_CompareFileTrees (previous current : gmap string FileTreeNode) :
  (forall name,
     name ∈ dom (scanner.CompareFileTrees previous current) <->
       (is_Some (current !! name) /\ previous !! name = None)
       \/ (is_Some (previous !! name) /\ current !! name = None)
       \/ (exists p c, previous !! name = Some p /\ current !! name = Some c /\
                       ~ scanner.structurally_equal p c))
  /\ (forall name b,
        scanner.CompareFileTrees previous current !! name = Some b -> b = true)
  /\ (forall p c, scanner.hasTreeChanged p c = false <->
                  scanner.structurally_equal p c).
Proof.
  split; [|split].
  - intros name. rewrite elem_of_dom. split.
    + intros [b Hb]. apply CompareFileTrees_lookup in Hb. tauto.
    + intros H. exists true. apply CompareFileTrees_lookup. done.
  - intros name b Hb. apply CompareFileTrees_lookup in Hb. tauto.
  - intros p c. apply hasTreeChanged_false_iff.
Qed.

(** ** Names that are not shard names *)

Lemma scanEntries_keys (chunkPath : string) (entries : list (string * FsNode)) :
  forall fileTree tree,
    scanner.scanEntries chunkPath entries fileTree = Ok tree ->
    forall name, is_Some (tree !! name) ->
      is_Some (fileTree !! name)
      \/ (scanner.hexPattern_MatchString name = true /\
          exists e, (name, e) ∈ entries /\ fs_isDir e = true).
Proof.
  induction entries as [|[ename e] rest IH]; intros fileTree tree Hscan name Hname;
    simpl in Hscan.
  - injection Hscan as <-. by left.
  - destruct (fs_isDir e) eqn:Hdir; simpl in Hscan.
    2:{ destruct (IH _ _ Hscan name Hname) as [?|(? & e' & ? & ?)]; [by left|].
        right. split; [done|]. exists e'. split; [by apply list_elem_of_further|done]. }
    destruct (scanner.hexPattern_MatchString ename) eqn:Hhex; simpl in Hscan.
    2:{ destruct (IH _ _ Hscan name Hname) as [?|(? & e' & ? & ?)]; [by left|].
        right. split; [done|]. exists e'. split; [by apply list_elem_of_further|done]. }
    destruct (scanner.scanDirectory (filepath_Join chunkPath ename) ename e)
      as [node|msg]; [|discriminate].
    destruct (IH _ _ Hscan name Hname) as [Hin|(? & e' & ? & ?)].
    + destruct (decide (ename = name)) as [<-|Hne].
      * right. split; [done|]. exists e. split; [apply list_elem_of_here|done].
      * left. by rewrite lookup_insert_ne in Hin.
    + right. split; [done|]. exists e'. split; [by apply list_elem_of_further|done].
Qed.

Lemma ScanFileTree_keys (chunkPath : string) (root : option FsNode)
    (tree : gmap string FileTreeNode) (name : string) :
  scanner.ScanFileTree chunkPath root = Ok tree ->
  is_Some (tree !! name) -> scanner.hexPattern_MatchString name = true.
Proof.
  unfold scanner.ScanFileTree. destruct root as [n|]; [|discriminate].
  destruct (scanner.readChunkDir (Some n)) as [entries|msg]; [|discriminate].
  intros Hscan Hname.
  destruct (scanEntries_keys _ _ _ _ Hscan name Hname) as [[x Hx]|[Hhex _]];
    [by rewrite lookup_empty in Hx|done].
Qed.

Lemma GetChunkDirectories_hex (root : option FsNode) (dirs : list string)
    (name : string) :
  scanner.GetChunkDirectories root = Ok dirs ->
  name ∈ dirs -> scanner.hexPattern_MatchString name = true.
Proof.
  unfold scanner.GetChunkDirectories.
  destruct (scanner.readChunkDir root) as [entries|msg]; [|discriminate].
  intros [= <-]. rewrite merge_sort_Permutation.
  intros Hin. apply list_elem_of_fmap in Hin as ([nm e] & -> & Hin).
  apply list_elem_of_In, filter_In in Hin as [_ Hf]. simpl in *.
  by apply andb_true_iff in Hf as [_ ?].
Qed.

Lemma GenerateArchiveGroups_members (directories : list string)
    (prefixDigits : Z) (groups : list ArchiveGroup) (g : ArchiveGroup)
    (name : string) :
  archiver.GenerateArchiveGroups directories prefixDigits = Ok groups ->
  g ∈ groups -> name ∈ Directories g ->
  name ∈ directories /\ String.length name = 4%nat /\
  Prefix g = String.substring 0 (Z.to_nat prefixDigits) name.
Proof.
  unfold archiver.GenerateArchiveGroups.
  destruct ((prefixDigits <? 1) || (prefixDigits >? 4)); [discriminate|].
  intros [= <-] Hg Hname. apply elem_of_groups in Hg as (p & _ & ->).
  rewrite makeGroup_Directories in Hname. simpl in Hname.
  rewrite merge_sort_Permutation in Hname.
  apply elem_of_bucket in Hname as (? & ? & ?). done.
Qed.

(** C7, as the code has it.  The snapshot builder keeps no name that is
    not four hexadecimal characters.  The grouper on its own drops the
    names whose length is not 4 and checks nothing else; the names it is
    given in a run are those of [GetChunkDirectories], which are four
    hexadecimal characters, so no other name reaches a group. *)
Theorem C7_non_shard_names (name : string) :
  (forall chunkPath root tree,
     scanner.ScanFileTree chunkPath root = Ok tree ->
     scanner.hexPattern_MatchString name = false -> tree !! name = None)
  /\ (forall directories prefixDigits groups g,
        archiver.GenerateArchiveGroups directories prefixDigits = Ok groups ->
        String.length name <> 4%nat ->
        g ∈ groups -> name ∉ Directories g)
  /\ (forall root directories prefixDigits groups g,
        scanner.GetChunkDirectories root = Ok directories ->
        archiver.GenerateArchiveGroups directories prefixDigits = Ok groups ->
        scanner.hexPattern_MatchString name = false ->
        g ∈ groups -> name ∉ Directories g).
Proof.
  split; [|split].
  - intros chunkPath root tree Hscan Hhex.
    destruct (tree !! name) as [node|] eqn:Hl; [|reflexivity].
    assert (Hs : is_Some (tree !! name)) by eauto.
    apply (ScanFileTree_keys _ _ _ _ Hscan) in Hs. congruence.
  - intros directories prefixDigits groups g Hgen Hlen Hg Hname.
    destruct (GenerateArchiveGroups_members _ _ _ _ _ Hgen Hg Hname) as (_ & ? & _).
    done.
  - intros root directories prefixDigits groups g Hdirs Hgen Hhex Hg Hname.
    destruct (GenerateArchiveGroups_members _ _ _ _ _ Hgen Hg Hname) as (Hin & _ & _).
    apply (GetChunkDirectories_hex _ _ _ Hdirs) in Hin. congruence.
Qed.

(** The grouper given a four-character name that is not hexadecimal:
    it is put in a group. *)
Lemma C7_grouper_counterexample :
  scanner.hexPattern_MatchString "zzzz" = false /\
  exists groups g,
    archiver.GenerateArchiveGroups ["0000"; "zzzz"] 2 = Ok groups /\
    g ∈ groups /\ "zzzz" ∈ Directories g.
Proof.
  split; [reflexivity|].
  eexists _, _. split; [vm_compute; reflexivity|].
  split; [apply list_elem_of_further, list_elem_of_here|apply list_elem_of_here].
Qed.

(** ** The orchestrator: one group *)

Section OneGroup.
Import backup.
Variables (env : Env) (cfg : Config.t).

(** What [processArchiveGroup] can do to the checksums and the result,
    by the way it returns. *)
Lemma processArchiveGroup_cases (group : ArchiveGroup) (st : RunState) :
  let name := ArchiveName group in
  match processArchiveGroup env cfg group st with
  | (Err _, st') =>
      checksums st' = checksums st /\
      (res st' = res st \/ res st' = addUploaded name (res st))
  | (Ok _, st') =>
      exists checksum,
        checksums st' = <[name := checksum]> (checksums st) /\
        (res st' = setDetail name "created and uploaded"
                     (incUpdated
                        (addUploaded (name +:+ ".sha256")
                           (addUploaded name (res st))))
         \/ res st' = setDetail name "checksum unchanged, skipped"
                        (incSkipped
                           (setDetail name "checksum unchanged, skipped upload"
                              (res st))))
  end.
Proof.
  unfold processArchiveGroup, bind, query, call, defer_Remove, checkRemote,
    update, store.
  repeat match goal with
         | |- context [match ?x with _ => _ end] =>
             lazymatch x with
             | context [match _ with _ => _ end] => fail
             | _ => destruct x eqn:?
             end
         | H : (_, _) = (_, _) |- _ => injection H as <- <-
         | H : Ok _ = Ok _ |- _ => injection H as <-
         | H : Ok _ = Err _ |- _ => discriminate H
         | H : Err _ = Ok _ |- _ => discriminate H
         end; cbn [world checksums res set_world set_res set_checksums fst snd];
    eauto 10.
Qed.
End OneGroup.

(** ** The orchestrator: the loops over the groups *)

Section Loops.
Import backup.
Variables (env : Env) (cfg : Config.t).

Lemma fullStep_effect (st : RunState) (group : ArchiveGroup) :
  step_effect (ArchiveName group) st (fullStep env cfg st group).
Proof.
  unfold fullStep.
  pose proof (processArchiveGroup_cases env cfg group st) as Hcases.
  cbv zeta in Hcases.
  destruct (processArchiveGroup env cfg group st) as [[[]|msg] st'].
  - destruct Hcases as (checksum & Hsum & [Hres|Hres]);
      (split; rewrite ?Hsum, ?Hres; unfold outcome_count; cbn;
       [ intros k Hk; by rewrite lookup_insert_ne
       | intros k Hk; rewrite ?lookup_insert_ne by done; reflexivity
       | rewrite lookup_insert_eq; eauto
       | exists []; by rewrite app_nil_r
       | try (eexists; rewrite <- app_assoc; reflexivity);
         try (exists []; by rewrite app_nil_r)
       | lia ]).
  - destruct Hcases as (Hsum & [Hres|Hres]);
      (split; unfold recordError; cbn; rewrite ?Hsum, ?Hres;
       unfold outcome_count; cbn;
       [ done
       | intros k Hk; rewrite ?lookup_insert_ne by done; reflexivity
       | rewrite lookup_insert_eq; eauto
       | eexists; reflexivity
       | try (eexists; reflexivity); try (exists []; by rewrite app_nil_r)
       | rewrite length_app; cbn; lia ]).
Qed.

Lemma incrementalStep_effect (st : RunState) (group : ArchiveGroup) :
  step_effect (ArchiveName group) st (incrementalStep env cfg st group).
Proof.
  unfold incrementalStep. destruct (NeedsUpdate group).
  - apply fullStep_effect.
  - split; unfold outcome_count; cbn.
    + done.
    + intros k Hk. by rewrite lookup_insert_ne.
    + rewrite lookup_insert_eq. eauto.
    + exists []. by rewrite app_nil_r.
    + exists []. by rewrite app_nil_r.
    + lia.
Qed.

(** The effect of a whole loop, for any loop body with [step_effect]. *)
Section AnyLoop.
Variable step : RunState -> ArchiveGroup -> RunState.
Hypothesis step_ok :
  forall st group, step_effect (ArchiveName group) st (step st group).

Lemma loop_count (groups : list ArchiveGroup) (st : RunState) :
  outcome_count (res (foldl step st groups))
  = outcome_count (res st) + Z.of_nat (length groups).
Proof.
  revert st. induction groups as [|g groups IH]; intros st; simpl.
  - lia.
  - rewrite IH, (se_count _ _ _ (step_ok st g)). lia.
Qed.

Lemma loop_frame (groups : list ArchiveGroup) (st : RunState) (k : string) :
  k ∉ ArchiveName <$> groups ->
  checksums (foldl step st groups) !! k = checksums st !! k /\
  Details (res (foldl step st groups)) !! k = Details (res st) !! k.
Proof.
  revert st. induction groups as [|g groups IH]; intros st Hk; simpl.
  - done.
  - rewrite fmap_cons, not_elem_of_cons in Hk. destruct Hk as [Hne Hk].
    destruct (IH (step st g) Hk) as [-> ->].
    split; [apply (se_checksums _ _ _ (step_ok st g))
           |apply (se_details _ _ _ (step_ok st g))]; done.
Qed.

Lemma loop_errors (groups : list ArchiveGroup) (st : RunState) :
  exists l, ErrorArchives (res (foldl step st groups))
            = ErrorArchives (res st) ++ l.
Proof.
  revert st. induction groups as [|g groups IH]; intros st; simpl.
  - exists []. by rewrite app_nil_r.
  - destruct (IH (step st g)) as [l ->].
    destruct (se_errors _ _ _ (step_ok st g)) as [l' ->].
    exists (l' ++ l). by rewrite app_assoc.
Qed.

Lemma loop_uploaded (groups : list ArchiveGroup) (st : RunState) :
  exists l, UploadedFiles (res (foldl step st groups))
            = UploadedFiles (res st) ++ l.
Proof.
  revert st. induction groups as [|g groups IH]; intros st; simpl.
  - exists []. by rewrite app_nil_r.
  - destruct (IH (step st g)) as [l ->].
    destruct (se_uploaded _ _ _ (step_ok st g)) as [l' ->].
    exists (l' ++ l). by rewrite app_assoc.
Qed.

Lemma loop_details_kept (groups : list ArchiveGroup) (st : RunState)
    (k : string) :
  is_Some (Details (res st) !! k) ->
  is_Some (Details (res (foldl step st groups)) !! k).
Proof.
  revert st. induction groups as [|g groups IH]; intros st Hk; simpl.
  - done.
  - apply IH. destruct (decide (k = ArchiveName g)) as [->|Hne].
    + apply (se_detail _ _ _ (step_ok st g)).
    + by rewrite (se_details _ _ _ (step_ok st g)).
Qed.

(** Every group of the loop leaves an entry in [Details]. *)
Lemma loop_every_group (groups : list ArchiveGroup) (st : RunState)
    (g : ArchiveGroup) :
  g ∈ groups -> is_Some (Details (res (foldl step st groups)) !! ArchiveName g).
Proof.
  revert st. induction groups as [|g' groups IH]; intros st Hg; simpl.
  - by apply not_elem_of_nil in Hg.
  - apply elem_of_cons in Hg as [->|Hg].
    + apply loop_details_kept, (se_detail _ _ _ (step_ok st g')).
    + by apply IH.
Qed.

(** The group at a given place of the loop: what its own iteration
    left for its name is what the loop ends with, when no other group
    has that name. *)
Lemma loop_at (pre post : list ArchiveGroup) (g : ArchiveGroup)
    (st : RunState) :
  NoDup (ArchiveName <$> (pre ++ g :: post)) ->
  let before := foldl step st pre in
  let final := foldl step st (pre ++ g :: post) in
  checksums before !! ArchiveName g = checksums st !! ArchiveName g /\
  checksums final !! ArchiveName g
    = checksums (step before g) !! ArchiveName g /\
  Details (res final) !! ArchiveName g
    = Details (res (step before g)) !! ArchiveName g /\
  (forall x, x ∈ ErrorArchives (res (step before g)) ->
             x ∈ ErrorArchives (res final)) /\
  (forall x, x ∈ UploadedFiles (res (step before g)) ->
             x ∈ UploadedFiles (res final)).
Proof.
  intros Hnd before final. subst before final.
  rewrite fmap_app, fmap_cons in Hnd.
  apply NoDup_app in Hnd as (_ & Hpre & Hpost).
  apply NoDup_cons in Hpost as [Hpost _].
  assert (Hpre' : ArchiveName g ∉ ArchiveName <$> pre).
  { intros Hin. apply (Hpre _ Hin). apply list_elem_of_here. }
  rewrite foldl_app. simpl.
  destruct (loop_frame pre st _ Hpre') as [Hc _].
  destruct (loop_frame post (step (foldl step st pre) g) _ Hpost) as [Hc' Hd'].
  destruct (loop_errors post (step (foldl step st pre) g)) as [le Hle].
  destruct (loop_uploaded post (step (foldl step st pre) g)) as [lu Hlu].
  repeat split; try done.
  - intros x Hx. rewrite Hle. apply elem_of_app. by left.
  - intros x Hx. rewrite Hlu. apply elem_of_app. by left.
Qed.
End AnyLoop.

End Loops.

(** ** Archive names identify groups *)

Lemma string_app_assoc (s t u : string) : (s +:+ t) +:+ u = s +:+ (t +:+ u).
Proof.
  induction s as [|c s IH]; [reflexivity|].
  change (String c ((s +:+ t) +:+ u) = String c (s +:+ (t +:+ u))).
  by rewrite IH.
Qed.

Lemma substring_0_app (s t : string) :
  String.substring 0 (String.length s) (s +:+ t) = s.
Proof.
  induction s as [|c s IH].
  - by destruct t.
  - change (String c (String.substring 0 (String.length s) (s +:+ t)) = String c s).
    by rewrite IH.
Qed.

Lemma makeGroup_name_prefix (prefixDigits : Z) (prefix : string)
    (dirs : list string) :
  String.length prefix = Z.to_nat prefixDigits ->
  String.substring 0 (Z.to_nat prefixDigits)
    (ArchiveName (archiver.makeGroup prefixDigits (prefix, dirs))) = prefix.
Proof.
  intros <-. unfold archiver.makeGroup, archiver.calculateRange.
  cbn [ArchiveName fst snd]. rewrite string_app_assoc. apply substring_0_app.
Qed.

Lemma GenerateArchiveGroups_names_NoDup (directories : list string)
    (prefixDigits : Z) (groups : list ArchiveGroup) :
  archiver.GenerateArchiveGroups directories prefixDigits = Ok groups ->
  NoDup (ArchiveName <$> groups).
Proof.
  unfold archiver.GenerateArchiveGroups.
  destruct ((prefixDigits <? 1) || (prefixDigits >? 4)) eqn:Hrange; [discriminate|].
  intros [= <-]. rewrite merge_sort_Permutation.
  rewrite <- list_fmap_compose. apply NoDup_fmap_2_strong.
  2: apply NoDup_map_to_list.
  intros [p ds] [p' ds'] Hin Hin' Hname.
  apply elem_of_map_to_list in Hin, Hin'.
  assert (Hlen : forall q qs,
             foldl (archiver.addToGroupMap prefixDigits) ∅ directories !! q = Some qs ->
             String.length q = Z.to_nat prefixDigits).
  { intros q qs Hq. apply groupMap_lookup_Some in Hq as [-> Hne].
    destruct (bucket prefixDigits q directories) as [|d l] eqn:Hb; [done|].
    assert (Hd : d ∈ bucket prefixDigits q directories)
      by (rewrite Hb; apply list_elem_of_here).
    apply elem_of_bucket in Hd as (_ & Hd & <-).
    apply substring_0_length. lia. }
  assert (p = p') as <-.
  { pose proof (makeGroup_name_prefix prefixDigits p ds (Hlen _ _ Hin)) as Hp.
    pose proof (makeGroup_name_prefix prefixDigits p' ds' (Hlen _ _ Hin')) as Hp'.
    unfold compose in Hname. rewrite Hname in Hp. congruence. }
  congruence.
Qed.

Lemma GenerateArchiveGroups_not_marked (directories : list string)
    (prefixDigits : Z) (groups : list ArchiveGroup) (g : ArchiveGroup) :
  archiver.GenerateArchiveGroups directories prefixDigits = Ok groups ->
  g ∈ groups -> NeedsUpdate g = false.
Proof.
  unfold archiver.GenerateArchiveGroups.
  destruct ((prefixDigits <? 1) || (prefixDigits >? 4)); [discriminate|].
  intros [= <-]. rewrite merge_sort_Permutation.
  intros Hg. apply list_elem_of_fmap in Hg as (entry & -> & _). reflexivity.
Qed.

Lemma markGroup_ArchiveName (changedDirs : gmap string bool) (g : ArchiveGroup) :
  ArchiveName (archiver.markGroup changedDirs g) = ArchiveName g.
Proof. unfold archiver.markGroup. by destruct (existsb _ _). Qed.

Lemma MarkGroupsForUpdate_names (groups : list ArchiveGroup)
    (changedDirs : gmap string bool) :
  ArchiveName <$> archiver.MarkGroupsForUpdate groups changedDirs
  = ArchiveName <$> groups.
Proof.
  unfold archiver.MarkGroupsForUpdate. rewrite <- list_fmap_compose.
  apply list_fmap_ext. intros i g _. apply markGroup_ArchiveName.
Qed.


(** ** Persisting the metadata *)

Section Persist.
Import backup.
Variables (env : Env) (cfg : Config.t).

Local Abbreviation remoteDoc := (metadataRemotePath cfg).
Local Abbreviation localDoc := (metadataLocalPath cfg).

Lemma persist_is_Ok prefixDigits fileTree groups st :
  is_Ok (persist env cfg prefixDigits fileTree groups st).1 = persistence_ok env cfg.
Proof.
  unfold persist, saveAndUploadMetadata, storage.UploadFile, persistence_ok.
  fold localDoc remoteDoc.
  destruct (fault env OpMarshal); [reflexivity|].
  destruct (fault env (OpWrite localDoc)); [reflexivity|].
  destruct (fault env (OpUpload localDoc remoteDoc));
    [reflexivity|].
  cbn. by rewrite lookup_insert_eq.
Qed.

Lemma persist_Ok prefixDigits fileTree groups st result w' :
  persist env cfg prefixDigits fileTree groups st = (Ok result, w') ->
  result = finishResult (Z.of_nat (length groups)) (time_Since env) (res st) /\
  exists blob,
    remote w' !! remoteDoc = Some blob /\
    json blob = Some {| Version := MetadataVersion;
                        PrefixDigits := prefixDigits;
                        BackupTime := time_Now env;
                        FileTree := fileTree;
                        Checksums := checksums st |}.
Proof.
  unfold persist, saveAndUploadMetadata, storage.UploadFile.
  fold localDoc remoteDoc.
  destruct (fault env OpMarshal); [discriminate|].
  destruct (fault env (OpWrite localDoc)); [discriminate|].
  destruct (fault env (OpUpload localDoc remoteDoc));
    [discriminate|].
  cbn. rewrite lookup_insert_eq. intros [= <- <-]. split; [reflexivity|].
  eexists. cbn. rewrite lookup_insert_eq. split; reflexivity.
Qed.
End Persist.

(** ** The orchestrator: whole runs *)

Section Runs.
Import backup.
Variables (env : Env) (cfg : Config.t).

Lemma RunFullBackup_Ok (w : World) (result : BackupResult) (w' : World) :
  RunFullBackup env cfg w = (Ok result, w') ->
  exists tree groups,
    scanner.ScanFileTree (Config.ChunkPath cfg) (chunk_root env) = Ok tree /\
    fullGroups env cfg = Ok groups /\
    persist env cfg (Config.PrefixDigits cfg) tree groups
      (foldl (fullStep env cfg) (fullInit w) groups) = (Ok result, w').
Proof.
  unfold RunFullBackup, fullGroups.
  destruct (scanner.ScanFileTree _ _) as [tree|]; [|discriminate].
  destruct (scanner.GetChunkDirectories _) as [dirs|]; [|discriminate].
  destruct (archiver.GenerateArchiveGroups _ _) as [groups|]; [|discriminate].
  intros Hrun. exists tree, groups. auto.
Qed.

Lemma RunIncrementalBackup_Ok (w : World) (result : BackupResult) (w' : World) :
  RunIncrementalBackup env cfg w = (Ok result, w') ->
  exists old tree groups,
    loadRemoteMetadata env cfg w = Ok old /\
    scanner.ScanFileTree (Config.ChunkPath cfg) (chunk_root env) = Ok tree /\
    incrementalGroups env old tree = Ok groups /\
    persist env cfg (PrefixDigits old) tree groups
      (foldl (incrementalStep env cfg) (incrementalInit old w) groups)
    = (Ok result, w').
Proof.
  unfold RunIncrementalBackup, incrementalGroups.
  destruct (loadRemoteMetadata _ _ _) as [old|]; [|discriminate].
  destruct (scanner.ScanFileTree _ _) as [tree|]; [|discriminate].
  destruct (scanner.GetChunkDirectories _) as [dirs|]; [|discriminate].
  destruct (archiver.GenerateArchiveGroups _ _) as [groups|] eqn:Hgen;
    [|discriminate].
  intros Hrun. eexists old, tree, _. rewrite Hgen. auto.
Qed.

Lemma fullGroups_names_NoDup (groups : list ArchiveGroup) :
  fullGroups env cfg = Ok groups -> NoDup (ArchiveName <$> groups).
Proof.
  unfold fullGroups.
  destruct (scanner.GetChunkDirectories _) as [dirs|]; [|discriminate].
  apply GenerateArchiveGroups_names_NoDup.
Qed.

Lemma incrementalGroups_names_NoDup old tree (groups : list ArchiveGroup) :
  incrementalGroups env old tree = Ok groups -> NoDup (ArchiveName <$> groups).
Proof.
  unfold incrementalGroups.
  destruct (scanner.GetChunkDirectories _) as [dirs|]; [|discriminate].
  destruct (archiver.GenerateArchiveGroups _ _) as [groups0|] eqn:Hgen;
    [|discriminate].
  intros [= <-]. rewrite MarkGroupsForUpdate_names.
  by eapply GenerateArchiveGroups_names_NoDup.
Qed.

(** A group that fails inside a loop: what the loop ends with for it. *)
Lemma failed_group_in_loop (step : RunState -> ArchiveGroup -> RunState)
    (init : RunState) (groups : list ArchiveGroup) (g : ArchiveGroup)
    (msg : string) :
  (forall st group, step_effect (ArchiveName group) st (step st group)) ->
  (forall st, (processArchiveGroup env cfg g st).1 = Err msg ->
              step st g = fullStep env cfg st g) ->
  NoDup (ArchiveName <$> groups) ->
  fails_in env cfg step init groups g msg ->
  let final := foldl step init groups in
  ArchiveName g ∈ ErrorArchives (res final) /\
  Details (res final) !! ArchiveName g = Some msg /\
  checksums final !! ArchiveName g = checksums init !! ArchiveName g.
Proof.
  intros Hstep Hfull Hnd (pre & post & -> & Hfail) final. subst final.
  destruct (loop_at step Hstep pre post g init Hnd) as (Hc0 & Hc & Hd & He & _).
  rewrite Hc, Hd, <- Hc0. rewrite (Hfull _ Hfail).
  pose proof (processArchiveGroup_cases env cfg g (foldl step init pre)) as Hcases.
  cbv zeta in Hcases. unfold fullStep in *.
  destruct (processArchiveGroup env cfg g (foldl step init pre))
    as [[[]|msg'] st'] eqn:Hp; [discriminate|].
  injection Hfail as ->. destruct Hcases as [Hsum _].
  split; [|split].
  - apply He. rewrite (Hfull _ ltac:(by rewrite Hp)). unfold fullStep.
    rewrite Hp. cbn. apply elem_of_app. right. apply list_elem_of_here.
  - cbn. apply lookup_insert_eq.
  - cbn. by rewrite Hsum.
Qed.

End Runs.

Section RunTheorems.
Import backup.
Variables (env : Env) (cfg : Config.t).

Lemma RunFullBackup_is_Ok (w : World) :
  is_Ok (RunFullBackup env cfg w).1 = fullStateLevelOk env cfg.
Proof.
  unfold RunFullBackup, fullStateLevelOk, fullGroups.
  destruct (scanner.ScanFileTree _ _) as [tree|]; [|reflexivity].
  destruct (scanner.GetChunkDirectories _) as [dirs|]; [|reflexivity].
  destruct (archiver.GenerateArchiveGroups _ _) as [groups|]; [|reflexivity].
  apply persist_is_Ok.
Qed.

Lemma RunIncrementalBackup_is_Ok (w : World) :
  is_Ok (RunIncrementalBackup env cfg w).1 = incrementalStateLevelOk env cfg w.
Proof.
  unfold RunIncrementalBackup, incrementalStateLevelOk, incrementalGroups.
  destruct (loadRemoteMetadata _ _ _) as [old|]; [|reflexivity].
  destruct (scanner.ScanFileTree _ _) as [tree|]; [|reflexivity].
  destruct (scanner.GetChunkDirectories _) as [dirs|]; [|reflexivity].
  destruct (archiver.GenerateArchiveGroups _ _) as [groups|]; [|reflexivity].
  apply persist_is_Ok.
Qed.

(** C9. In the result of a full or an incremental run, every group is
    counted in exactly one of updated, skipped and errored. *)
Theorem C9_outcome_counts (w : World) (result : BackupResult) (w' : World) :
  RunFullBackup env cfg w = (Ok result, w')
  \/ RunIncrementalBackup env cfg w = (Ok result, w') ->
  TotalArchives result
  = UpdatedArchives result + SkippedArchives result
    + Z.of_nat (length (ErrorArchives result)).
Proof.
  intros [Hrun|Hrun].
  - apply RunFullBackup_Ok in Hrun as (tree & groups & _ & _ & Hpersist).
    apply persist_Ok in Hpersist as [-> _].
    pose proof (loop_count (fullStep env cfg) (fullStep_effect env cfg)
                  groups (fullInit w)) as Hcount.
    unfold outcome_count in Hcount. cbn in *. lia.
  - apply RunIncrementalBackup_Ok in Hrun
      as (old & tree & groups & _ & _ & _ & Hpersist).
    apply persist_Ok in Hpersist as [-> _].
    pose proof (loop_count (incrementalStep env cfg)
                  (incrementalStep_effect env cfg)
                  groups (incrementalInit old w)) as Hcount.
    unfold outcome_count in Hcount. cbn in *. lia.
Qed.

(** C1, as the code has it.  Whether a run returns a result depends on
    its state-level steps only, not on any group.  In the result of an
    incremental run every group has an entry in [Details], the newly
    persisted metadata holds the current snapshot, and a group whose
    processing failed is in [ErrorArchives] with its error text under
    its archive name in [Details], while its checksum in the persisted
    metadata is what the loaded metadata had.  A full run does the same
    except that it starts from an empty checksum map: a failed group
    has no checksum in the metadata it persists. *)
Theorem C1_failed_group_is_contained (w : World) :
  is_Ok (RunIncrementalBackup env cfg w).1 = incrementalStateLevelOk env cfg w
  /\ is_Ok (RunFullBackup env cfg w).1 = fullStateLevelOk env cfg
  /\ (forall result w',
        RunIncrementalBackup env cfg w = (Ok result, w') ->
        exists old tree groups blob metadata,
          loadRemoteMetadata env cfg w = Ok old /\
          scanner.ScanFileTree (Config.ChunkPath cfg) (chunk_root env) = Ok tree /\
          incrementalGroups env old tree = Ok groups /\
          remote w' !! metadataRemotePath cfg = Some blob /\
          json blob = Some metadata /\
          FileTree metadata = tree /\
          (forall g, g ∈ groups -> is_Some (Details result !! ArchiveName g)) /\
          forall g msg,
            fails_in env cfg (incrementalStep env cfg)
              (incrementalInit old w) groups g msg ->
            NeedsUpdate g = true ->
            ArchiveName g ∈ ErrorArchives result /\
            Details result !! ArchiveName g = Some msg /\
            Checksums metadata !! ArchiveName g
            = Checksums old !! ArchiveName g)
  /\ (forall result w',
        RunFullBackup env cfg w = (Ok result, w') ->
        exists tree groups blob metadata,
          scanner.ScanFileTree (Config.ChunkPath cfg) (chunk_root env) = Ok tree /\
          fullGroups env cfg = Ok groups /\
          remote w' !! metadataRemotePath cfg = Some blob /\
          json blob = Some metadata /\
          FileTree metadata = tree /\
          (forall g, g ∈ groups -> is_Some (Details result !! ArchiveName g)) /\
          forall g msg,
            fails_in env cfg (fullStep env cfg) (fullInit w) groups g msg ->
            ArchiveName g ∈ ErrorArchives result /\
            Details result !! ArchiveName g = Some msg /\
            Checksums metadata !! ArchiveName g = None).
Proof.
  split; [apply RunIncrementalBackup_is_Ok|].
  split; [apply RunFullBackup_is_Ok|]. split.
  - intros result w' Hrun.
    apply RunIncrementalBackup_Ok in Hrun
      as (old & tree & groups & Hload & Hscan & Hgroups & Hpersist).
    apply persist_Ok in Hpersist as (-> & blob & Hblob & Hjson).
    eexists old, tree, groups, blob, _.
    split; [done|]. split; [done|]. split; [done|]. split; [done|].
    split; [exact Hjson|]. split; [reflexivity|]. split.
    + intros g Hg. cbn.
      by apply (loop_every_group _ (incrementalStep_effect env cfg)).
    + intros g msg Hfails Hdirty.
      destruct (failed_group_in_loop env cfg (incrementalStep env cfg)
                  (incrementalInit old w) groups g msg) as (He & Hd & Hc).
      * apply incrementalStep_effect.
      * intros st _. unfold incrementalStep. by rewrite Hdirty.
      * by eapply incrementalGroups_names_NoDup.
      * done.
      * cbn. done.
  - intros result w' Hrun.
    apply RunFullBackup_Ok in Hrun as (tree & groups & Hscan & Hgroups & Hpersist).
    apply persist_Ok in Hpersist as (-> & blob & Hblob & Hjson).
    eexists tree, groups, blob, _.
    split; [done|]. split; [done|]. split; [done|].
    split; [exact Hjson|]. split; [reflexivity|]. split.
    + intros g Hg. cbn.
      by apply (loop_every_group _ (fullStep_effect env cfg)).
    + intros g msg Hfails.
      destruct (failed_group_in_loop env cfg (fullStep env cfg)
                  (fullInit w) groups g msg) as (He & Hd & Hc).
      * apply fullStep_effect.
      * done.
      * by eapply fullGroups_names_NoDup.
      * done.
      * cbn. rewrite Hc. done.
Qed.

End RunTheorems.

(** ** Two incremental runs in a row *)

Section Idempotence.
Import backup.


(** A loop over groups none of which is marked skips them all. *)
Lemma loop_all_skipped (env : Env) (cfg : Config.t)
    (groups : list ArchiveGroup) (st : RunState) :
  (forall g, g ∈ groups -> NeedsUpdate g = false) ->
  let final := foldl (incrementalStep env cfg) st groups in
  UpdatedArchives (res final) = UpdatedArchives (res st) /\
  SkippedArchives (res final)
  = SkippedArchives (res st) + Z.of_nat (length groups) /\
  ErrorArchives (res final) = ErrorArchives (res st) /\
  UploadedFiles (res final) = UploadedFiles (res st) /\
  world final = world st /\ checksums final = checksums st.
Proof.
  revert st. induction groups as [|g groups IH]; intros st Hclean; cbn zeta.
  - cbn. repeat split; lia.
  - cbn [foldl]. unfold incrementalStep at 2 4 6 8 10 12.
    rewrite (Hclean g) by apply list_elem_of_here.
    destruct (IH (set_res (setDetail (ArchiveName g) "unchanged, skipped")
                    (set_res incSkipped st))) as (-> & -> & -> & -> & -> & ->).
    { intros g' Hg'. apply Hclean. by apply list_elem_of_further. }
    cbn [length]. cbn. repeat split; lia.
Qed.

End Idempotence.

(** ** The companion checksum record *)

Lemma string_app_empty_r (s : string) : s +:+ EmptyString = s.
Proof.
  induction s as [|c s IH]; [reflexivity|].
  change (String c (s +:+ EmptyString) = String c s). by rewrite IH.
Qed.

Lemma fields_from_word (h : string) :
  forall cur rest,
    no_space h = true ->
    fields_from (h +:+ String " " rest) (Some cur)
    = (cur +:+ h) :: fields_from rest None.
Proof.
  induction h as [|c h IH]; intros cur rest Hh.
  - change (fields_from (String " " rest) (Some cur)
            = (cur +:+ EmptyString) :: fields_from rest None).
    by rewrite string_app_empty_r.
  - cbn [no_space] in Hh. apply andb_true_iff in Hh as [Hc Hh].
    apply negb_true_iff in Hc.
    change (fields_from (String c (h +:+ String " " rest)) (Some cur)
            = (cur +:+ String c h) :: fields_from rest None).
    cbn [fields_from]. rewrite Hc. cbn [default]. rewrite IH by done.
    f_equal. apply string_app_assoc.
Qed.

(** Reading back a record that was written for the digest [h]. *)
Lemma getRemoteChecksum_of_record (env : Env) (cfg : Config.t)
    (group : ArchiveGroup) (w : World) (path h : string) :
  h <> EmptyString -> no_space h = true ->
  fault env (OpGet path) = None ->
  remote w !! path = Some (checksumRecord cfg group h) ->
  backup.getRemoteChecksum env path w = Ok h.
Proof.
  intros Hne Hh Hfault Hrecord.
  unfold backup.getRemoteChecksum, storage.GetFileContent.
  rewrite Hfault, Hrecord. unfold checksumRecord, strings_Fields. cbn [bytes].
  destruct h as [|c h]; [done|].
  cbn [no_space] in Hh. apply andb_true_iff in Hh as [Hc Hh].
  apply negb_true_iff in Hc.
  match goal with
  | |- context [fields_from (String c h +:+ ?tail) None] =>
      change (fields_from (String c h +:+ tail) None)
        with (fields_from (String c (h +:+ tail)) None)
  end.
  cbn [fields_from]. rewrite Hc. cbn [default].
  match goal with
  | |- context [h +:+ "  " +:+ ?tail] =>
      change (h +:+ "  " +:+ tail) with (h +:+ String " " (String " " tail))
  end.
  by rewrite fields_from_word.
Qed.

(** ** The orchestrator: the paths through one group *)

Section GroupPaths.
Import backup.
Variables (env : Env) (cfg : Config.t) (group : ArchiveGroup).

Local Abbreviation remoteArchive := (remoteArchivePath cfg group).
Local Abbreviation remoteSha256 := (remoteSha256Path cfg group).
Local Abbreviation scratchArchive := (scratchArchivePath cfg group).
Local Abbreviation scratchChecksum := (scratchChecksumPath cfg group).
Local Abbreviation recordOf := (checksumRecord cfg group).

Lemma CreateArchive_Ok (w w1 : World) (archivePath : string) :
  archiver.CreateArchive env cfg group w = (Ok archivePath, w1) ->
  archivePath = scratchArchive /\
  remote w1 = remote w /\
  exists archive, w1 = set_temp <[scratchArchive := archive]> w.
Proof.
  unfold archiver.CreateArchive. fold scratchArchive.
  destruct (fault env (OpMkdirAll _)); [discriminate|].
  destruct (fault env (OpCreate _)); [discriminate|].
  destruct (archiver.addMembers _ _ _ _) as [written [msg|]]; [discriminate|].
  intros [= <- <-]. split; [reflexivity|]. split; [reflexivity|]. eauto.
Qed.

Lemma CalculateChecksum_Ok (w : World) (path h : string) :
  archiver.CalculateChecksum env path w = Ok h ->
  exists archive, temp w !! path = Some archive /\
                  h = sha256_hex env (bytes archive).
Proof.
  unfold archiver.CalculateChecksum.
  destruct (fault env (OpOpen _)); [discriminate|].
  destruct (temp w !! path) as [archive|]; [|discriminate].
  destruct (fault env (OpRead _)); [discriminate|].
  intros [= <-]. eauto.
Qed.

(** Unfolding the monadic body of [processArchiveGroup]. *)
Ltac run_body :=
  unfold processArchiveGroup, fullStep, bind, query, call, defer_Remove,
    checkRemote, update, store;
  fold remoteArchive remoteSha256.

(** The skip path: the remote record already holds the new hash. *)
Lemma processArchiveGroup_skip (st : RunState) (w1 : World) (h : string) :
  archiver.CreateArchive env cfg group (world st) = (Ok scratchArchive, w1) ->
  archiver.CalculateChecksum env scratchArchive w1 = Ok h ->
  getRemoteChecksum env remoteSha256 w1 = Ok h ->
  processArchiveGroup env cfg group st
  = (Ok tt,
     {| world := os_Remove scratchArchive w1;
        checksums := <[ArchiveName group := h]> (checksums st);
        res := setDetail (ArchiveName group) "checksum unchanged, skipped"
                 (incSkipped
                    (setDetail (ArchiveName group)
                       "checksum unchanged, skipped upload" (res st))) |}).
Proof.
  intros Hcreate Hsum Hremote. run_body.
  rewrite Hcreate. cbn [world set_world]. rewrite Hsum. cbn [world set_world].
  rewrite Hremote, String.eqb_refl. reflexivity.
Qed.

(** The upload path, up to the point where the archive itself has been
    uploaded. *)
Lemma processArchiveGroup_upload (st : RunState) (w1 : World) (h : string)
    (archive : Blob) :
  archiver.CreateArchive env cfg group (world st) = (Ok scratchArchive, w1) ->
  archiver.CalculateChecksum env scratchArchive w1 = Ok h ->
  temp w1 !! scratchArchive = Some archive ->
  getRemoteChecksum env remoteSha256 w1 <> Ok h ->
  fault env (OpUpload scratchArchive remoteArchive) = None ->
  let w2 := set_remote <[remoteArchive := archive]> w1 in
  let st2 := {| world := w2; checksums := checksums st;
                res := addUploaded (ArchiveName group) (res st) |} in
  processArchiveGroup env cfg group st
  = match archiver.CreateChecksumFile env scratchArchive h w2 with
    | (Err msg, w3) =>
        (Err (wrap_err "failed to create checksum file" msg),
         set_world (fun _ => os_Remove scratchArchive w3) st2)
    | (Ok checksumPath, w3) =>
        match storage.UploadFile env checksumPath remoteSha256 w3 with
        | (Err msg, w4) =>
            (Err (wrap_err "failed to upload checksum file" msg),
             set_world
               (fun _ => os_Remove scratchArchive (os_Remove checksumPath w4))
               st2)
        | (Ok _, w4) =>
            (Ok tt,
             {| world := os_Remove scratchArchive (os_Remove checksumPath w4);
                checksums := <[ArchiveName group := h]> (checksums st);
                res := setDetail (ArchiveName group) "created and uploaded"
                         (incUpdated
                            (addUploaded (ArchiveName group +:+ ".sha256")
                               (addUploaded (ArchiveName group) (res st)))) |})
        end
    end.
Proof.
  intros Hcreate Hsum Harchive Hne Hfault w2 st2. run_body.
  rewrite Hcreate. cbn [world set_world]. rewrite Hsum. cbn [world set_world].
  destruct (getRemoteChecksum env remoteSha256 w1) as [r|noRecord]
    eqn:Hremote.
  - destruct (String.eqb_spec r h) as [->|Hrh]; [done|].
    cbn [world set_world]. unfold storage.UploadFile at 1.
    rewrite Hfault, Harchive.
    cbn [world set_world set_res res checksums].
    fold w2.
    destruct (archiver.CreateChecksumFile env scratchArchive h w2)
      as [[checksumPath|msg] w3]; [|reflexivity].
    cbn [world set_world set_res res checksums].
    destruct (storage.UploadFile env checksumPath remoteSha256 w3)
      as [[[]|msg] w4]; reflexivity.
  - cbn [world set_world]. unfold storage.UploadFile at 1.
    rewrite Hfault, Harchive.
    cbn [world set_world set_res res checksums].
    fold w2.
    destruct (archiver.CreateChecksumFile env scratchArchive h w2)
      as [[checksumPath|msg] w3]; [|reflexivity].
    cbn [world set_world set_res res checksums].
    destruct (storage.UploadFile env checksumPath remoteSha256 w3)
      as [[[]|msg] w4]; reflexivity.
Qed.


Lemma CreateChecksumFile_Ok (w : World) (h : string) :
  fault env (OpCreate scratchChecksum) = None ->
  fault env (OpWrite scratchChecksum) = None ->
  archiver.CreateChecksumFile env scratchArchive h w
  = (Ok scratchChecksum,
     set_temp <[scratchChecksum := recordOf h]> w).
Proof.
  intros Hcreate Hwrite. unfold archiver.CreateChecksumFile.
  fold scratchChecksum. by rewrite Hcreate, Hwrite.
Qed.

(** C2. For a group whose archive has been rebuilt and hashed to [h]:
    when the checksum recorded in the remote companion record is [h],
    nothing is uploaded, the group is counted as skipped and marked
    "checksum unchanged, skipped", and [h] is recorded in the checksum
    map; when the recorded checksum differs or cannot be read, and the
    uploads succeed, the archive and its companion record are uploaded,
    the group is counted as updated, and [h] is recorded. *)
Theorem C2_upload_depends_on_the_hash (st : RunState) (w1 : World)
    (h : string) :
  archiver.CreateArchive env cfg group (world st) = (Ok scratchArchive, w1) ->
  archiver.CalculateChecksum env scratchArchive w1 = Ok h ->
  exists archive,
    temp w1 !! scratchArchive = Some archive /\
    h = sha256_hex env (bytes archive) /\
    (getRemoteChecksum env remoteSha256 w1 = Ok h ->
     exists st',
       processArchiveGroup env cfg group st = (Ok tt, st') /\
       remote (world st') = remote (world st) /\
       UploadedFiles (res st') = UploadedFiles (res st) /\
       UpdatedArchives (res st') = UpdatedArchives (res st) /\
       SkippedArchives (res st') = SkippedArchives (res st) + 1 /\
       Details (res st') !! ArchiveName group
       = Some "checksum unchanged, skipped" /\
       checksums st' = <[ArchiveName group := h]> (checksums st)) /\
    (getRemoteChecksum env remoteSha256 w1 <> Ok h ->
     fault env (OpUpload scratchArchive remoteArchive) = None ->
     fault env (OpCreate scratchChecksum) = None ->
     fault env (OpWrite scratchChecksum) = None ->
     fault env (OpUpload scratchChecksum remoteSha256) = None ->
     exists st',
       processArchiveGroup env cfg group st = (Ok tt, st') /\
       remote (world st')
       = <[remoteSha256 := recordOf h]>
           (<[remoteArchive := archive]> (remote (world st))) /\
       UploadedFiles (res st')
       = UploadedFiles (res st)
           ++ [ArchiveName group; ArchiveName group +:+ ".sha256"] /\
       UpdatedArchives (res st') = UpdatedArchives (res st) + 1 /\
       SkippedArchives (res st') = SkippedArchives (res st) /\
       Details (res st') !! ArchiveName group = Some "created and uploaded" /\
       checksums st' = <[ArchiveName group := h]> (checksums st)).
Proof.
  intros Hcreate Hsum.
  destruct (CalculateChecksum_Ok _ _ _ Hsum) as (archive & Harchive & Hh).
  destruct (CreateArchive_Ok _ _ _ Hcreate) as (_ & Hremote & _).
  exists archive. split; [done|]. split; [done|]. split.
  - intros Hsame. eexists.
    split; [by apply processArchiveGroup_skip|].
    cbn. rewrite Hremote, !lookup_insert_eq. done.
  - intros Hdiffers Hup1 Hmk Hwr Hup2. eexists. split.
    + rewrite (processArchiveGroup_upload st w1 h archive) by done.
      rewrite CreateChecksumFile_Ok by done.
      unfold storage.UploadFile. rewrite Hup2. cbn [temp set_temp set_remote].
      rewrite lookup_insert_eq. reflexivity.
    + cbn. rewrite Hremote, lookup_insert_eq, <- app_assoc. done.
Qed.

(** After a failed companion record the loop body has recorded the
    error, kept the checksums, and yet uploaded the archive. *)
Lemma fullStep_archive_only (st : RunState) (w1 : World) (h : string)
    (archive : Blob) :
  archiver.CreateArchive env cfg group (world st) = (Ok scratchArchive, w1) ->
  archiver.CalculateChecksum env scratchArchive w1 = Ok h ->
  temp w1 !! scratchArchive = Some archive ->
  getRemoteChecksum env remoteSha256 w1 <> Ok h ->
  fault env (OpUpload scratchArchive remoteArchive) = None ->
  checksumRecordFails env cfg group ->
  exists msg,
    (processArchiveGroup env cfg group st).1 = Err msg /\
    let st' := fullStep env cfg st group in
    ErrorArchives (res st') = ErrorArchives (res st) ++ [ArchiveName group] /\
    Details (res st') !! ArchiveName group = Some msg /\
    checksums st' = checksums st /\
    UploadedFiles (res st') = UploadedFiles (res st) ++ [ArchiveName group] /\
    remote (world st') = <[remoteArchive := archive]> (remote (world st)).
Proof.
  intros Hcreate Hsum Harchive Hdiffers Hup1 Hfails.
  destruct (CreateArchive_Ok _ _ _ Hcreate) as (_ & Hremote & _).
  unfold fullStep.
  rewrite (processArchiveGroup_upload st w1 h archive) by done.
  unfold archiver.CreateChecksumFile. fold scratchChecksum.
  destruct (fault env (OpCreate scratchChecksum)) as [e|] eqn:Hmk.
  { eexists. split; [reflexivity|]. cbn. rewrite Hremote, lookup_insert_eq. done. }
  destruct (fault env (OpWrite scratchChecksum)) as [e|] eqn:Hwr.
  { eexists. split; [reflexivity|]. cbn. rewrite Hremote, lookup_insert_eq. done. }
  unfold storage.UploadFile.
  destruct (fault env (OpUpload scratchChecksum remoteSha256))
    as [e|] eqn:Hup2.
  { eexists. split; [reflexivity|]. cbn. rewrite Hremote, lookup_insert_eq. done. }
  exfalso. apply Hfails. done.
Qed.

(** C10. When the archive of a group is uploaded and its companion
    checksum record then cannot be created or uploaded, the loop of the
    run (a full run, or an incremental run in which the group is dirty)
    ends with the group in [ErrorArchives], its checksum entry as it was
    when the loop started, and its archive name in [UploadedFiles]; and
    when the processing of the group ended, the remote archive had been
    replaced by the new one. *)
Theorem C10_archive_uploaded_but_group_failed
    (step : RunState -> ArchiveGroup -> RunState)
    (init : RunState) (pre post : list ArchiveGroup)
    (w1 : World) (h : string) (archive : Blob) :
  step = fullStep env cfg
  \/ (step = incrementalStep env cfg /\ NeedsUpdate group = true) ->
  NoDup (ArchiveName <$> (pre ++ group :: post)) ->
  let st := foldl step init pre in
  let final := foldl step init (pre ++ group :: post) in
  archiver.CreateArchive env cfg group (world st) = (Ok scratchArchive, w1) ->
  archiver.CalculateChecksum env scratchArchive w1 = Ok h ->
  temp w1 !! scratchArchive = Some archive ->
  getRemoteChecksum env remoteSha256 w1 <> Ok h ->
  fault env (OpUpload scratchArchive remoteArchive) = None ->
  checksumRecordFails env cfg group ->
  ArchiveName group ∈ ErrorArchives (res final) /\
  is_Ok (processArchiveGroup env cfg group st).1 = false /\
  checksums final !! ArchiveName group = checksums init !! ArchiveName group /\
  ArchiveName group ∈ UploadedFiles (res final) /\
  remote (world (step st group))
  = <[remoteArchive := archive]> (remote (world st)).
Proof.
  intros Hstep Hnd st final Hcreate Hsum Harchive Hdiffers Hup1 Hfails.
  destruct (fullStep_archive_only st w1 h archive)
    as (msg & Hmsg & He & Hd & Hc & Hu & Hr); try done.
  assert (Heffect : forall s g, step_effect (ArchiveName g) s (step s g)).
  { destruct Hstep as [->|[-> _]];
      [apply fullStep_effect|apply incrementalStep_effect]. }
  assert (Hfull : step st group = fullStep env cfg st group).
  { destruct Hstep as [->|[-> Hdirty]]; [done|].
    unfold incrementalStep. by rewrite Hdirty. }
  destruct (loop_at step Heffect pre post group init Hnd)
    as (Hc0 & Hc1 & _ & Herr & Hupl).
  fold st in Hc0, Hc1, Herr, Hupl. fold final in Hc1, Herr, Hupl.
  rewrite Hfull in *.
  split; [|split; [|split; [|split]]].
  - apply Herr. rewrite He. apply elem_of_app. right. apply list_elem_of_here.
  - by rewrite Hmsg.
  - by rewrite Hc1, Hc, Hc0.
  - apply Hupl. rewrite Hu. apply elem_of_app. right. apply list_elem_of_here.
  - done.
Qed.

(** When the archive could be built, its scratch file is gone after
    the group has been processed, however the processing ends. *)
Lemma scratch_archive_removed (st : RunState) (w1 : World) :
  archiver.CreateArchive env cfg group (world st) = (Ok scratchArchive, w1) ->
  temp (world (processArchiveGroup env cfg group st).2) !! scratchArchive
  = None.
Proof.
  intros Hcreate.
  unfold processArchiveGroup, bind, call at 1, defer_Remove at 1.
  rewrite Hcreate.
  match goal with
  | |- context [let '(r, st') := ?body in _] => destruct body as [r st']
  end.
  cbn. apply lookup_delete_eq.
Qed.

(** When the archive could not be built, nothing is removed: the world
    is as [CreateArchive] left it. *)
Lemma scratch_archive_kept (st : RunState) (w1 : World) (msg : string) :
  archiver.CreateArchive env cfg group (world st) = (Err msg, w1) ->
  processArchiveGroup env cfg group st
  = (Err (wrap_err "failed to create archive" msg),
     set_world (fun _ => w1) st).
Proof.
  intros Hcreate. unfold processArchiveGroup, bind, call at 1.
  by rewrite Hcreate.
Qed.

End GroupPaths.

(** ** Loading the metadata *)

(** C3, as the code has it.  [loadRemoteMetadata] returns whatever
    document the remote metadata file decodes to, without looking at its
    version; the documents a run writes carry version 1. *)
Theorem C3_version_is_not_checked (env : Env) (cfg : Config.t) (w : World) :
  (forall blob metadata,
     fault env (OpExists (metadataRemotePath cfg)) = None ->
     fault env (OpGet (metadataRemotePath cfg)) = None ->
     remote w !! metadataRemotePath cfg = Some blob ->
     json blob = Some metadata ->
     backup.loadRemoteMetadata env cfg w = Ok metadata)
  /\ (forall result w',
        backup.RunFullBackup env cfg w = (Ok result, w')
        \/ backup.RunIncrementalBackup env cfg w = (Ok result, w') ->
        exists blob metadata,
          remote w' !! metadataRemotePath cfg = Some blob /\
          json blob = Some metadata /\
          Version metadata = backup.MetadataVersion).
Proof.
  split.
  - intros blob metadata Hexists Hget Hblob Hjson.
    unfold backup.loadRemoteMetadata, storage.FileExists, storage.GetFileContent.
    fold (metadataRemotePath cfg).
    rewrite Hexists, Hget, Hblob, Hjson.
    rewrite bool_decide_eq_true_2 by eauto. reflexivity.
  - intros result w' [Hrun|Hrun].
    + apply RunFullBackup_Ok in Hrun as (tree & groups & _ & _ & Hpersist).
      apply persist_Ok in Hpersist as (_ & blob & Hblob & Hjson). eauto.
    + apply RunIncrementalBackup_Ok in Hrun
        as (old & tree & groups & _ & _ & _ & Hpersist).
      apply persist_Ok in Hpersist as (_ & blob & Hblob & Hjson). eauto.
Qed.

(** A metadata document of version 2 is loaded, and the incremental run
    goes on to return a result. *)
Lemma C3_counterexample :
  exists metadata result w',
    backup.loadRemoteMetadata (sample_env sample_chunks no_fault) sample_cfg
      (world_with_metadata 2) = Ok metadata /\
    Version metadata = 2 /\
    backup.RunIncrementalBackup (sample_env sample_chunks no_fault) sample_cfg
      (world_with_metadata 2) = (Ok result, w').
Proof.
  eexists _, _, _. split; [vm_compute; reflexivity|].
  split; [reflexivity|]. vm_compute. reflexivity.
Qed.

Lemma C3_witness :
  backup.loadRemoteMetadata (sample_env sample_chunks no_fault) sample_cfg
    (world_with_metadata 7) = Ok (prior_metadata 7).
Proof.
  eapply (proj1 (C3_version_is_not_checked (sample_env sample_chunks no_fault)
                   sample_cfg (world_with_metadata 7))); reflexivity.
Defined.

(** ** The scratch archive after a failed build *)

(** C8 at a shard with a file that cannot be opened: the processing of
    the group fails while building the archive, and the scratch archive
    file is still there afterwards. *)
Theorem C8_scratch_archive_left_behind :
  let outcome :=
    backup.processArchiveGroup (sample_env locked_chunks no_fault) sample_cfg
      group_01 (fullInit empty_world) in
  outcome.1
  = Err "failed to create archive: failed to add directory 0100 to archive: open /chunk/0100/c: permission denied"
  /\ is_Some (temp (backup.world outcome.2) !! "/tmp/0100-01ff.tar.gz").
Proof.
  cbv zeta. split.
  - vm_compute. reflexivity.
  - eexists. vm_compute. reflexivity.
Qed.

(** ** A failed group in a full run over an earlier backup *)

(** The remote metadata records a checksum for group 01; a full run in
    which the upload of that group's archive fails persists metadata
    without a checksum for it. *)
Lemma C1_full_run_counterexample :
  exists result w' blob metadata,
    Checksums (prior_metadata 1) !! "0100-01ff.tar.gz" = Some "sha256(earlier)" /\
    backup.RunFullBackup (sample_env sample_chunks archive_upload_fault)
      sample_cfg (world_with_metadata 1) = (Ok result, w') /\
    ErrorArchives result = ["0100-01ff.tar.gz"] /\
    remote w' !! "/backup-metadata.json" = Some blob /\
    json blob = Some metadata /\
    Checksums metadata !! "0100-01ff.tar.gz" = None.
Proof.
  eexists _, _, _, _. split; [reflexivity|].
  split; [vm_compute; reflexivity|].
  split; [reflexivity|].
  split; [vm_compute; reflexivity|].
  split; [reflexivity|]. vm_compute. reflexivity.
Qed.

(** ** The theorems at concrete inputs *)

Lemma C4_witness :
  exists groups,
    archiver.GenerateArchiveGroups
      ["0000"; "0001"; "00ff"; "0100"; "01aa"; "abcd"; "ffff"; "toolong"] 2
    = Ok groups /\
    (fun g => (Prefix g, ArchiveName g, Directories g)) <$> groups
    = [("00", "0000-00ff.tar.gz", ["0000"; "0001"; "00ff"]);
       ("01", "0100-01ff.tar.gz", ["0100"; "01aa"]);
       ("ab", "ab00-abff.tar.gz", ["abcd"]);
       ("ff", "ff00-ffff.tar.gz", ["ffff"])] /\
    NoDup groups.
Proof.
  pose proof (C4_GenerateArchiveGroups
                ["0000"; "0001"; "00ff"; "0100"; "01aa"; "abcd"; "ffff"; "toolong"]
                2) as Hspec.
  destruct (archiver.GenerateArchiveGroups _ 2) as [groups|msg] eqn:Hgen.
  - exists groups. split; [reflexivity|].
    destruct Hspec as (_ & _ & Hnodup & _). split; [|exact Hnodup].
    vm_compute in Hgen. injection Hgen as <-. reflexivity.
  - vm_compute in Hgen. discriminate Hgen.
Defined.

Lemma C5_witness :
  "0001" ∈ dom (scanner.CompareFileTrees tree_before tree_after).
Proof.
  apply (proj1 (C5_CompareFileTrees tree_before tree_after)).
  right. left. split; [eexists; vm_compute; reflexivity | vm_compute; reflexivity].
Defined.

Lemma C7_witness :
  exists tree,
    scanner.ScanFileTree "/chunk" (Some sample_chunks) = Ok tree /\
    tree !! "zzzz" = None /\ tree !! "abcde" = None.
Proof.
  destruct (scanner.ScanFileTree "/chunk" (Some sample_chunks))
    as [tree|msg] eqn:Hscan.
  - exists tree. split; [reflexivity|]. split.
    + apply (proj1 (C7_non_shard_names "zzzz") "/chunk" (Some sample_chunks)
               tree Hscan).
      reflexivity.
    + apply (proj1 (C7_non_shard_names "abcde") "/chunk" (Some sample_chunks)
               tree Hscan).
      reflexivity.
  - vm_compute in Hscan. discriminate Hscan.
Defined.

Lemma C9_witness :
  exists result w',
    backup.RunFullBackup (sample_env sample_chunks archive_upload_fault)
      sample_cfg empty_world = (Ok result, w') /\
    TotalArchives result
    = UpdatedArchives result + SkippedArchives result
      + Z.of_nat (length (ErrorArchives result)).
Proof.
  eexists _, _. split; [vm_compute; reflexivity|].
  eapply (C9_outcome_counts (sample_env sample_chunks archive_upload_fault)
            sample_cfg empty_world).
  left. vm_compute. reflexivity.
Defined.

Lemma C1_witness :
  (exists result w',
     backup.RunFullBackup (sample_env sample_chunks archive_upload_fault)
       sample_cfg empty_world = (Ok result, w') /\
     "0100-01ff.tar.gz" ∈ ErrorArchives result /\
     Details result !! "0100-01ff.tar.gz"
     = Some "failed to upload archive: connection reset")
  /\ (exists result w' blob metadata,
        backup.RunIncrementalBackup
          (sample_env changed_chunks archive_upload_fault) sample_cfg
          world_after_full_run = (Ok result, w') /\
        "0100-01ff.tar.gz" ∈ ErrorArchives result /\
        remote w' !! "/backup-metadata.json" = Some blob /\
        json blob = Some metadata /\
        Checksums metadata !! "0100-01ff.tar.gz"
        = Some "sha256(0100=,0100/c=c)").
Proof.
  split.
  - destruct (backup.RunFullBackup (sample_env sample_chunks archive_upload_fault)
                sample_cfg empty_world) as [[result|msg] w'] eqn:Hrun.
    2:{ vm_compute in Hrun. discriminate Hrun. }
    exists result, w'. split; [reflexivity|].
    destruct (proj2 (proj2 (proj2
                (C1_failed_group_is_contained
                   (sample_env sample_chunks archive_upload_fault)
                   sample_cfg empty_world))) result w' Hrun)
      as (tree & groups & blob & metadata & _ & Hgroups & _ & _ & _ & _ & Hfailed).
    vm_compute in Hgroups. injection Hgroups as <-.
    destruct (Hfailed group_01 "failed to upload archive: connection reset")
      as (Herr & Hdetail & _).
    { exists [group_00], []. split; [reflexivity|]. vm_compute. reflexivity. }
    split; [exact Herr | exact Hdetail].
  - destruct (backup.RunIncrementalBackup
                (sample_env changed_chunks archive_upload_fault) sample_cfg
                world_after_full_run) as [[result|msg] w'] eqn:Hrun.
    2:{ vm_compute in Hrun. discriminate Hrun. }
    destruct (proj1 (proj2 (proj2
                (C1_failed_group_is_contained
                   (sample_env changed_chunks archive_upload_fault)
                   sample_cfg world_after_full_run))) result w' Hrun)
      as (old & tree & groups & blob & metadata & Hload & Hscan & Hgroups
          & Hblob & Hjson & _ & _ & Hfailed).
    vm_compute in Hload. injection Hload as <-.
    vm_compute in Hscan. injection Hscan as <-.
    vm_compute in Hgroups. injection Hgroups as <-.
    destruct (Hfailed group_01_dirty "failed to upload archive: connection reset")
      as (Herr & _ & Hsum).
    { exists [group_00], []. split; [reflexivity|]. vm_compute. reflexivity. }
    { reflexivity. }
    exists result, w', blob, metadata. split; [reflexivity|].
    split; [exact Herr|]. split; [exact Hblob|]. split; [exact Hjson|].
    exact Hsum.
Defined.


Lemma C2_witness :
  (exists st',
     backup.processArchiveGroup (sample_env sample_chunks no_fault) sample_cfg
       group_01 (fullInit empty_world) = (Ok tt, st') /\
     UploadedFiles (backup.res st')
     = ["0100-01ff.tar.gz"; "0100-01ff.tar.gz.sha256"] /\
     backup.checksums st'
     = {[ "0100-01ff.tar.gz" := "sha256(0100=,0100/c=c)" ]})
  /\ (exists st',
        backup.processArchiveGroup (sample_env sample_chunks no_fault) sample_cfg
          group_01 (fullInit world_after_full_run) = (Ok tt, st') /\
        UploadedFiles (backup.res st') = [] /\
        SkippedArchives (backup.res st') = 1 /\
        backup.checksums st'
        = {[ "0100-01ff.tar.gz" := "sha256(0100=,0100/c=c)" ]}).
Proof.
  split.
  - edestruct (C2_upload_depends_on_the_hash
                 (sample_env sample_chunks no_fault) sample_cfg group_01
                 (fullInit empty_world))
      as (archive & Harchive & Hh & _ & Hupload);
      [vm_compute; reflexivity | vm_compute; reflexivity |].
    destruct Hupload as (st' & Hrun & _ & Hfiles & _ & _ & _ & Hsums);
      [vm_compute; discriminate | reflexivity | reflexivity | reflexivity
      | reflexivity |].
    exists st'. split; [exact Hrun|]. split; [exact Hfiles|]. exact Hsums.
  - edestruct (C2_upload_depends_on_the_hash
                 (sample_env sample_chunks no_fault) sample_cfg group_01
                 (fullInit world_after_full_run))
      as (archive & Harchive & Hh & Hskip & _);
      [vm_compute; reflexivity | vm_compute; reflexivity |].
    destruct Hskip as (st' & Hrun & _ & Hfiles & _ & Hskipped & _ & Hsums);
      [vm_compute; reflexivity|].
    exists st'. split; [exact Hrun|]. split; [exact Hfiles|].
    split; [exact Hskipped | exact Hsums].
Defined.

Lemma C10_witness :
  let final :=
    foldl (backup.fullStep (sample_env sample_chunks record_upload_fault) sample_cfg)
      (fullInit empty_world) [group_00; group_01] in
  "0100-01ff.tar.gz" ∈ ErrorArchives (backup.res final) /\
  "0100-01ff.tar.gz" ∈ UploadedFiles (backup.res final) /\
  backup.checksums final !! "0100-01ff.tar.gz" = None.
Proof.
  cbv zeta.
  edestruct (C10_archive_uploaded_but_group_failed
               (sample_env sample_chunks record_upload_fault) sample_cfg group_01
               (backup.fullStep (sample_env sample_chunks record_upload_fault)
                  sample_cfg)
               (fullInit empty_world) [group_00] [])
    as (Herr & _ & Hsum & Hupl & _).
  - left. reflexivity.
  - apply (bool_decide_unpack _). vm_compute. exact I.
  - vm_compute. reflexivity.
  - vm_compute. reflexivity.
  - vm_compute. reflexivity.
  - vm_compute. discriminate.
  - reflexivity.
  - intros (_ & _ & Hfault). vm_compute in Hfault. discriminate Hfault.
  - split; [exact Herr|]. split; [exact Hupl|]. exact Hsum.
Defined.

(** * Further properties *)
(** * Further properties of the snapshot builder *)

(** Closing the error branch of a concrete call that succeeds: only the
    outcome is computed, not the value. *)
Ltac call_succeeds H :=
  apply (f_equal is_Ok) in H; vm_compute in H; discriminate H.
Ltac outcome_succeeds H :=
  apply (f_equal (fun outcome => is_Ok outcome.1)) in H; vm_compute in H;
  discriminate H.

Lemma FsNode_entries_ind (P : FsNode -> Prop) :
  (forall content mtime readable, P (FsFile content mtime readable)) ->
  (forall mtime readable entries,
     Forall (fun entry => P entry.2) entries -> P (FsDir mtime readable entries)) ->
  forall n, P n.
Proof.
  intros Hfile Hdir. fix IH 1. intros [content mtime readable|mtime readable entries].
  - apply Hfile.
  - apply Hdir. revert entries. fix IHentries 1. intros [|[ename e] entries].
    + constructor.
    + constructor; [apply IH|apply IHentries].
Qed.

Lemma scanDirectory_is_Ok (n : FsNode) :
  forall dirPath name,
    is_Ok (scanner.scanDirectory dirPath name n) = fs_isDir n && listable n.
Proof.
  induction n as [content mtime readable|mtime readable entries IH]
    using FsNode_entries_ind; intros dirPath name; [reflexivity|].
  cbn [scanner.scanDirectory fs_isDir listable andb].
  destruct readable; [|reflexivity]. cbn [negb andb].
  generalize ({| Name := name; Size := 0; ModTime := mtime; IsDir := true;
                 Children := ∅ |}).
  induction IH as [|[ename e] entries He _ IHentries]; intros node; [reflexivity|].
  cbn [forallb snd]. destruct e as [content fmtime freadable|cmtime creadable centries].
  - cbn [listable andb]. apply IHentries.
  - specialize (He (filepath_Join dirPath ename) ename).
    cbn [snd fs_isDir andb] in He.
    destruct (scanner.scanDirectory (filepath_Join dirPath ename) ename
                (FsDir cmtime creadable centries)) as [childNode|msg].
    + rewrite <- He. cbn [is_Ok andb]. apply IHentries.
    + rewrite <- He. reflexivity.
Qed.

Lemma scanEntries_is_Ok (chunkPath : string) (entries : list (string * FsNode)) :
  forall fileTree,
    is_Ok (scanner.scanEntries chunkPath entries fileTree)
    = forallb (fun entry =>
                 negb (fs_isDir entry.2 && scanner.hexPattern_MatchString entry.1)
                 || listable entry.2) entries.
Proof.
  induction entries as [|[ename e] entries IH]; intros fileTree; [reflexivity|].
  cbn [scanner.scanEntries forallb fst snd].
  destruct (fs_isDir e) eqn:Hdir; cbn [negb andb orb]; [|apply IH].
  destruct (scanner.hexPattern_MatchString ename); cbn [negb andb orb]; [|apply IH].
  pose proof (scanDirectory_is_Ok e (filepath_Join chunkPath ename) ename) as Hscan.
  rewrite Hdir in Hscan. cbn [andb] in Hscan.
  destruct (scanner.scanDirectory (filepath_Join chunkPath ename) ename e).
  - rewrite <- Hscan. cbn [is_Ok andb]. apply IH.
  - rewrite <- Hscan. reflexivity.
Qed.

(** X1. [ScanFileTree] returns a snapshot exactly when the chunk directory
    can be listed and every shard directory in it (a directory entry with
    a four-hex-digit name) can be listed all the way down.  One directory
    that cannot be read anywhere below a shard fails the whole scan: no
    partial snapshot is returned.  Entries that are not shards are not
    looked into. *)
Theorem X1_scan_succeeds_iff_listable (chunkPath : string) (root : option FsNode) :
  is_Ok (scanner.ScanFileTree chunkPath root) = scannable root.
Proof.
  unfold scanner.ScanFileTree, scannable.
  destruct root as [n|]; [|reflexivity].
  destruct (scanner.readChunkDir (Some n)) as [entries|msg]; [|reflexivity].
  apply scanEntries_is_Ok.
Qed.

Lemma scanDirectory_unfold (dirPath name : string) (mtime : Z)
    (entries : list (string * FsNode)) :
  scanner.scanDirectory dirPath name (FsDir mtime true entries)
  = scanChildren dirPath entries
      {| Name := name; Size := 0; ModTime := mtime; IsDir := true; Children := ∅ |}.
Proof.
  cbn [scanner.scanDirectory negb].
  generalize ({| Name := name; Size := 0; ModTime := mtime; IsDir := true;
                 Children := ∅ |}).
  induction entries as [|[ename e] entries IH]; intros node; [reflexivity|].
  cbn [scanChildren]. unfold scanEntry. cbn [fst snd].
  destruct e as [content fmtime freadable|cmtime creadable centries].
  - apply IH.
  - destruct (scanner.scanDirectory (filepath_Join dirPath ename) ename
                (FsDir cmtime creadable centries)); [apply IH|reflexivity].
Qed.

Lemma wrap64_add_l (a b : Z) : wrap64 (wrap64 a + b) = wrap64 (a + b).
Proof.
  unfold wrap64.
  replace ((a + 2 ^ 63) mod 2 ^ 64 - 2 ^ 63 + b + 2 ^ 63)
    with ((a + 2 ^ 63) mod 2 ^ 64 + b) by lia.
  rewrite Zplus_mod_idemp_l. f_equal. f_equal. lia.
Qed.

Lemma wrap64_small (z : Z) : - 2 ^ 63 <= z < 2 ^ 63 -> wrap64 z = z.
Proof. intros Hz. unfold wrap64. rewrite Z.mod_small; lia. Qed.

Lemma children_size_insert (children : gmap string FileTreeNode) (name : string)
    (child : FileTreeNode) :
  children !! name = None ->
  children_size (<[name := child]> children) = Size child + children_size children.
Proof.
  intros Hnew. unfold children_size.
  apply (map_fold_insert_L
           (fun (_ : string) (c : FileTreeNode) (total : Z) => Size c + total));
    [|exact Hnew].
  intros; lia.
Qed.

(** The loop of [scanDirectory], from any node built so far. *)
Lemma scanChildren_spec (dirPath : string) (entries : list (string * FsNode)) :
  forall node0 node,
    scanChildren dirPath entries node0 = Ok node ->
    NoDup entries.*1 ->
    (forall k, k ∈ entries.*1 -> Children node0 !! k = None) ->
    Name node = Name node0 /\ ModTime node = ModTime node0 /\
    IsDir node = IsDir node0 /\
    (forall k c, Children node !! k = Some c <->
       Children node0 !! k = Some c
       \/ exists e, (k, e) ∈ entries /\ scanEntry dirPath (k, e) = Ok c) /\
    (Size node0 = wrap64 (children_size (Children node0)) ->
     Size node = wrap64 (children_size (Children node))).
Proof.
  induction entries as [|[ename e] entries IH]; intros node0 node Hscan Hnodup Hfresh.
  - injection Hscan as <-. repeat split; try done.
    + by left.
    + intros [?|(e & Hin & _)]; [done|]. by apply elem_of_nil in Hin.
  - cbn [scanChildren fst] in Hscan.
    destruct (scanEntry dirPath (ename, e)) as [child|msg] eqn:Hchild; [|discriminate].
    rewrite fmap_cons in Hnodup. apply NoDup_cons in Hnodup as [Hename Hnodup].
    apply IH in Hscan as (Hname & Htime & Hdir & Hchildren & Hsize); [|done|].
    2:{ intros k Hk. cbn [scanner.withChild Children].
        rewrite lookup_insert_ne; [|intros <-; done].
        apply Hfresh. rewrite fmap_cons. by apply list_elem_of_further. }
    assert (Children node0 !! ename = None) as Hnew.
    { apply Hfresh. rewrite fmap_cons. apply list_elem_of_here. }
    repeat split; try done.
    + intros Hk. apply Hchildren in Hk as [Hk|(e' & Hin & He')].
      * cbn [scanner.withChild Children] in Hk.
        destruct (decide (ename = k)) as [<-|Hne].
        -- rewrite lookup_insert_eq in Hk. injection Hk as <-.
           right. exists e. split; [apply list_elem_of_here|done].
        -- rewrite lookup_insert_ne in Hk by done. by left.
      * right. exists e'. split; [by apply list_elem_of_further|done].
    + intros [Hk|(e' & Hin & He')]; apply Hchildren.
      * left. cbn [scanner.withChild Children].
        rewrite lookup_insert_ne; [done|]. intros <-. congruence.
      * apply elem_of_cons in Hin as [[= <- <-]|Hin].
        -- left. cbn [scanner.withChild Children]. rewrite lookup_insert_eq. congruence.
        -- right. by exists e'.
    + intros Hsize0. apply Hsize. cbn [scanner.withChild Children Size].
      rewrite children_size_insert by done. unfold add64.
      rewrite Hsize0, wrap64_add_l. f_equal. lia.
Qed.

(** X2. What [scanDirectory] returns for a directory whose entries have
    pairwise different names: a directory node with the directory's name
    and modification time, with one child per entry (a file entry gives a
    leaf with the file's length and modification time, a directory entry
    the node of its own scan), and whose size is the sum of the sizes of
    its children, in 64-bit arithmetic. *)
Theorem X2_scanDirectory_node (dirPath name : string) (mtime : Z)
    (readable : bool) (entries : list (string * FsNode)) (node : FileTreeNode) :
  scanner.scanDirectory dirPath name (FsDir mtime readable entries) = Ok node ->
  NoDup entries.*1 ->
  Name node = name /\ ModTime node = mtime /\ IsDir node = true /\
  (forall k c, Children node !! k = Some c <->
     exists e, (k, e) ∈ entries /\ scanEntry dirPath (k, e) = Ok c) /\
  (forall k content fmtime freadable,
     (k, FsFile content fmtime freadable) ∈ entries ->
     Children node !! k
     = Some {| Name := k; Size := Z.of_nat (String.length content);
               ModTime := fmtime; IsDir := false; Children := ∅ |}) /\
  Size node = wrap64 (children_size (Children node)).
Proof.
  intros Hscan Hnodup. destruct readable; [|discriminate].
  rewrite scanDirectory_unfold in Hscan.
  apply scanChildren_spec in Hscan as (Hname & Htime & Hdir & Hchildren & Hsize);
    [|done|by intros].
  cbn [Name ModTime IsDir Children Size] in *.
  assert (forall k c, Children node !! k = Some c <->
            exists e, (k, e) ∈ entries /\ scanEntry dirPath (k, e) = Ok c) as Hall.
  { intros k c. rewrite Hchildren, lookup_empty. split.
    - by intros [?|?].
    - by right. }
  repeat split; try done.
  - apply Hall.
  - apply Hall.
  - intros k content fmtime freadable Hin. apply Hall.
    by exists (FsFile content fmtime freadable).
  - by apply Hsize.
Qed.

Lemma X2_witness :
  exists node,
    scanner.scanDirectory "/chunk/0000" "0000"
      (FsDir 1 true [("a.dat", FsFile "hello" 2 true);
                     ("sub", FsDir 3 true [("b", FsFile "xy" 4 true)])]) = Ok node /\
    Size node = 7 /\
    Size node = wrap64 (children_size (Children node)).
Proof.
  destruct (scanner.scanDirectory "/chunk/0000" "0000"
              (FsDir 1 true [("a.dat", FsFile "hello" 2 true);
                             ("sub", FsDir 3 true [("b", FsFile "xy" 4 true)])]))
    as [node|msg] eqn:Hscan; [|call_succeeds Hscan].
  exists node. split; [reflexivity|]. split.
  - assert (match scanner.scanDirectory "/chunk/0000" "0000"
                    (FsDir 1 true [("a.dat", FsFile "hello" 2 true);
                                   ("sub", FsDir 3 true [("b", FsFile "xy" 4 true)])])
            with Ok n => Size n | Err _ => 0 end = 7) as Hsize
      by (vm_compute; reflexivity).
    by rewrite Hscan in Hsize.
  - apply (X2_scanDirectory_node _ _ _ _ _ _ Hscan).
    apply (bool_decide_unpack _). vm_compute. exact I.
Defined.

Lemma scanEntries_has (chunkPath : string) (entries : list (string * FsNode)) :
  forall fileTree tree,
    scanner.scanEntries chunkPath entries fileTree = Ok tree ->
    forall name,
      is_Some (fileTree !! name)
      \/ (scanner.hexPattern_MatchString name = true /\
          exists e, (name, e) ∈ entries /\ fs_isDir e = true) ->
      is_Some (tree !! name).
Proof.
  induction entries as [|[ename e] rest IH]; intros fileTree tree Hscan name Hname;
    cbn [scanner.scanEntries] in Hscan.
  - injection Hscan as <-. destruct Hname as [?|(_ & e & Hin & _)]; [done|].
    by apply elem_of_nil in Hin.
  - assert (fs_isDir e && scanner.hexPattern_MatchString ename = false ->
            is_Some (fileTree !! name)
            \/ (scanner.hexPattern_MatchString name = true /\
                exists e', (name, e') ∈ rest /\ fs_isDir e' = true)) as Hskip.
    { intros Hno. destruct Hname as [?|(Hhex & e' & Hin & Hdir)]; [by left|].
      apply elem_of_cons in Hin as [[= -> ->]|Hin].
      - rewrite Hhex, Hdir in Hno. discriminate.
      - right. split; [done|]. by exists e'. }
    destruct (fs_isDir e) eqn:Hdir; cbn [negb] in Hscan.
    2:{ apply (IH _ _ Hscan). by apply Hskip. }
    destruct (scanner.hexPattern_MatchString ename) eqn:Hhex; cbn [negb] in Hscan.
    2:{ apply (IH _ _ Hscan). by apply Hskip. }
    destruct (scanner.scanDirectory (filepath_Join chunkPath ename) ename e)
      as [node|msg]; [|discriminate].
    apply (IH _ _ Hscan).
    destruct Hname as [Hin|(Hname & e' & Hin & He')].
    + left. destruct (decide (ename = name)) as [<-|Hne].
      * rewrite lookup_insert_eq. by eexists.
      * by rewrite lookup_insert_ne.
    + apply elem_of_cons in Hin as [[= -> ->]|Hin].
      * left. rewrite lookup_insert_eq. by eexists.
      * right. split; [done|]. by exists e'.
Qed.

Lemma scanChildren_attrs (dirPath : string) (entries : list (string * FsNode)) :
  forall node0 node,
    scanChildren dirPath entries node0 = Ok node ->
    Name node = Name node0 /\ IsDir node = IsDir node0.
Proof.
  induction entries as [|entry entries IH]; intros node0 node Hscan;
    cbn [scanChildren] in Hscan.
  - by injection Hscan as <-.
  - destruct (scanEntry dirPath entry); [|discriminate].
    by apply IH in Hscan.
Qed.

Lemma scanDirectory_Name (dirPath name : string) (n : FsNode) (node : FileTreeNode) :
  scanner.scanDirectory dirPath name n = Ok node ->
  Name node = name /\ IsDir node = true.
Proof.
  destruct n as [content mtime readable|mtime readable entries]; [discriminate|].
  destruct readable; [|discriminate]. rewrite scanDirectory_unfold.
  intros Hscan. by apply scanChildren_attrs in Hscan.
Qed.

Lemma scanEntries_nodes (chunkPath : string) (entries : list (string * FsNode)) :
  forall fileTree tree,
    scanner.scanEntries chunkPath entries fileTree = Ok tree ->
    (forall name node, fileTree !! name = Some node ->
       Name node = name /\ IsDir node = true) ->
    forall name node, tree !! name = Some node ->
      Name node = name /\ IsDir node = true.
Proof.
  induction entries as [|[ename e] rest IH]; intros fileTree tree Hscan Hnodes;
    cbn [scanner.scanEntries] in Hscan.
  - by injection Hscan as <-.
  - destruct (negb (fs_isDir e)); [by apply (IH _ _ Hscan)|].
    destruct (negb (scanner.hexPattern_MatchString ename)); [by apply (IH _ _ Hscan)|].
    destruct (scanner.scanDirectory (filepath_Join chunkPath ename) ename e)
      as [child|msg] eqn:Hchild; [|discriminate].
    apply (IH _ _ Hscan). intros name node.
    destruct (decide (ename = name)) as [<-|Hne].
    + rewrite lookup_insert_eq. intros [= <-]. by apply scanDirectory_Name in Hchild.
    + rewrite lookup_insert_ne by done. apply Hnodes.
Qed.

(** The snapshot and the shard list of one state of the chunk directory. *)
Lemma ScanFileTree_listing (chunkPath : string)
    (root : option FsNode) (tree : gmap string FileTreeNode) :
  scanner.ScanFileTree chunkPath root = Ok tree ->
  exists entries dirs,
    scanner.readChunkDir root = Ok entries /\
    scanner.GetChunkDirectories root = Ok dirs /\
    Sorted String.le dirs /\
    (forall name, name ∈ dirs <->
       scanner.hexPattern_MatchString name = true /\
       exists e, (name, e) ∈ entries /\ fs_isDir e = true) /\
    (forall name, is_Some (tree !! name) <-> name ∈ dirs) /\
    (forall name node, tree !! name = Some node ->
       Name node = name /\ IsDir node = true).
Proof.
  unfold scanner.ScanFileTree, scanner.GetChunkDirectories.
  destruct root as [n|]; [|discriminate].
  destruct (scanner.readChunkDir (Some n)) as [entries|msg]; [|discriminate].
  intros Hscan. exists entries. eexists. split; [reflexivity|]. split; [reflexivity|].
  assert (forall name,
            name ∈ merge_sort String.le
                     (List.filter
                        (fun entry => fs_isDir entry.2
                                      && scanner.hexPattern_MatchString entry.1)
                        entries).*1 <->
            scanner.hexPattern_MatchString name = true /\
            exists e, (name, e) ∈ entries /\ fs_isDir e = true) as Hdirs.
  { intros name. rewrite merge_sort_Permutation, list_elem_of_fmap. split.
    - intros ([nm e] & -> & Hin).
      apply list_elem_of_In, filter_In in Hin as [Hin Hf]. cbn [fst snd] in *.
      apply andb_true_iff in Hf as [Hdir Hhex]. split; [done|].
      exists e. split; [by apply list_elem_of_In|done].
    - intros (Hhex & e & Hin & Hdir). exists (name, e). split; [done|].
      apply list_elem_of_In, filter_In. split; [by apply list_elem_of_In|].
      cbn [fst snd]. by rewrite Hdir, Hhex. }
  split; [apply Sorted_merge_sort, String.le_total|].
  split; [exact Hdirs|]. split.
  - intros name. rewrite Hdirs. split.
    + intros Hname.
      destruct (scanEntries_keys _ _ _ _ Hscan name Hname) as [Hin|?]; [|done].
      rewrite lookup_empty in Hin. by destruct Hin.
    + intros Hname. apply (scanEntries_has _ _ _ _ Hscan). by right.
  - apply (scanEntries_nodes _ _ _ _ Hscan). intros name node.
    by rewrite lookup_empty.
Qed.

(** X3. The two listings of one run agree.  When [ScanFileTree] returns a
    snapshot, [GetChunkDirectories] succeeds on the same chunk directory,
    its list is sorted, it holds exactly the names of the directory
    entries that are four hexadecimal digits, and the snapshot has an
    entry for exactly those names; the node recorded under a name is a
    directory node carrying that name. *)
Theorem X3_snapshot_keys_are_the_shards (chunkPath : string)
    (root : option FsNode) (tree : gmap string FileTreeNode) :
  scanner.ScanFileTree chunkPath root = Ok tree ->
  exists entries dirs,
    scanner.readChunkDir root = Ok entries /\
    scanner.GetChunkDirectories root = Ok dirs /\
    Sorted String.le dirs /\
    (forall name, name ∈ dirs <->
       scanner.hexPattern_MatchString name = true /\
       exists e, (name, e) ∈ entries /\ fs_isDir e = true) /\
    (forall name, is_Some (tree !! name) <-> name ∈ dirs) /\
    (forall name node, tree !! name = Some node ->
       Name node = name /\ IsDir node = true).
Proof. apply ScanFileTree_listing. Qed.

Lemma X3_witness :
  exists tree dirs,
    scanner.ScanFileTree "/chunk" (Some two_shards) = Ok tree /\
    scanner.GetChunkDirectories (Some two_shards) = Ok dirs /\
    dirs = ["0000"; "0001"] /\
    forall name, is_Some (tree !! name) <-> name ∈ dirs.
Proof.
  destruct (scanner.ScanFileTree "/chunk" (Some two_shards)) as [tree|msg] eqn:Hscan;
    [|call_succeeds Hscan].
  destruct (X3_snapshot_keys_are_the_shards _ _ _ Hscan)
    as (entries & dirs & _ & Hdirs & _ & _ & Hkeys & _).
  exists tree, dirs. split; [reflexivity|]. split; [exact Hdirs|].
  split; [|exact Hkeys].
  vm_compute in Hdirs. injection Hdirs as <-. reflexivity.
Defined.

Lemma scanDirectory_stat_only (n : FsNode) :
  forall dirPath name,
    scanner.scanDirectory dirPath name (stat_only n)
    = scanner.scanDirectory dirPath name n.
Proof.
  induction n as [content mtime readable|mtime readable entries IH]
    using FsNode_entries_ind; intros dirPath name; [reflexivity|].
  cbn [stat_only]. destruct readable; [|reflexivity].
  rewrite !scanDirectory_unfold.
  generalize ({| Name := name; Size := 0; ModTime := mtime; IsDir := true;
                 Children := ∅ |}).
  induction IH as [|[ename e] entries He _ IHentries]; intros node; [reflexivity|].
  cbn [List.map scanChildren fst snd].
  assert (scanEntry dirPath (ename, stat_only e) = scanEntry dirPath (ename, e))
    as ->.
  { unfold scanEntry. cbn [fst snd] in *.
    destruct e as [content fmtime freadable|cmtime creadable centries].
    - cbn [stat_only]. by rewrite strings_Repeat_length.
    - rewrite <- (He (filepath_Join dirPath ename) ename). reflexivity. }
  destruct (scanEntry dirPath (ename, e)); [apply IHentries|reflexivity].
Qed.

Lemma fs_isDir_stat_only (n : FsNode) : fs_isDir (stat_only n) = fs_isDir n.
Proof. by destruct n. Qed.

Lemma scanEntries_stat_only (chunkPath : string) (entries : list (string * FsNode)) :
  forall fileTree,
    scanner.scanEntries chunkPath
      (List.map (fun entry => (entry.1, stat_only entry.2)) entries) fileTree
    = scanner.scanEntries chunkPath entries fileTree.
Proof.
  induction entries as [|[ename e] entries IH]; intros fileTree; [reflexivity|].
  cbn [List.map scanner.scanEntries fst snd].
  rewrite fs_isDir_stat_only, scanDirectory_stat_only, !IH.
  destruct (scanner.scanDirectory (filepath_Join chunkPath ename) ename e);
    [by rewrite IH|reflexivity].
Qed.

Lemma ScanFileTree_stat_only (chunkPath : string) (root : option FsNode) :
  scanner.ScanFileTree chunkPath (stat_only <$> root)
  = scanner.ScanFileTree chunkPath root.
Proof.
  destruct root as [[content mtime readable|mtime readable entries]|];
    [reflexivity| |reflexivity].
  cbn [fmap option_fmap option_map stat_only].
  unfold scanner.ScanFileTree, scanner.readChunkDir.
  destruct readable; [|reflexivity]. apply scanEntries_stat_only.
Qed.

Lemma GetChunkDirectories_stat_only (root : option FsNode) :
  scanner.GetChunkDirectories (stat_only <$> root)
  = scanner.GetChunkDirectories root.
Proof.
  destruct root as [[content mtime readable|mtime readable entries]|];
    [reflexivity| |reflexivity].
  cbn [fmap option_fmap option_map stat_only].
  unfold scanner.GetChunkDirectories, scanner.readChunkDir.
  destruct readable; [|reflexivity]. do 2 f_equal.
  induction entries as [|[ename e] entries IH]; [reflexivity|].
  cbn [List.map List.filter fst snd]. rewrite fs_isDir_stat_only.
  destruct (fs_isDir e && scanner.hexPattern_MatchString ename);
    [rewrite !fmap_cons; cbn [fst]|]; by rewrite IH.
Qed.

(** X4. The snapshot records sizes and modification times, never contents:
    two states of the chunk directory with the same names, kinds, file
    lengths, modification times and directory permissions give the same
    snapshot and the same shard list, so the differ reports no change
    between them, whatever the bytes of the files are. *)
Theorem X4_contents_are_not_compared (chunkPath : string)
    (root1 root2 : option FsNode) :
  stat_only <$> root1 = stat_only <$> root2 ->
  scanner.ScanFileTree chunkPath root1 = scanner.ScanFileTree chunkPath root2 /\
  scanner.GetChunkDirectories root1 = scanner.GetChunkDirectories root2 /\
  forall tree1 tree2,
    scanner.ScanFileTree chunkPath root1 = Ok tree1 ->
    scanner.ScanFileTree chunkPath root2 = Ok tree2 ->
    scanner.CompareFileTrees tree1 tree2 = ∅.
Proof.
  intros Hstat.
  assert (scanner.ScanFileTree chunkPath root1 = scanner.ScanFileTree chunkPath root2)
    as Hscan.
  { by rewrite <- (ScanFileTree_stat_only _ root1), Hstat, ScanFileTree_stat_only. }
  split; [exact Hscan|]. split.
  - by rewrite <- (GetChunkDirectories_stat_only root1), Hstat,
      GetChunkDirectories_stat_only.
  - intros tree1 tree2 H1 H2. rewrite Hscan, H2 in H1. injection H1 as <-.
    apply CompareFileTrees_same.
Qed.

Lemma X4_witness :
  exists tree,
    scanner.ScanFileTree "/chunk"
      (Some (FsDir 5 true [("0000", FsDir 1 true [("a", FsFile "old bytes" 2 true)])]))
    = Ok tree /\
    scanner.ScanFileTree "/chunk"
      (Some (FsDir 5 true [("0000", FsDir 1 true [("a", FsFile "new bytes" 2 true)])]))
    = Ok tree /\
    scanner.CompareFileTrees tree tree = ∅.
Proof.
  pose proof (X4_contents_are_not_compared "/chunk"
    (Some (FsDir 5 true [("0000", FsDir 1 true [("a", FsFile "old bytes" 2 true)])]))
    (Some (FsDir 5 true [("0000", FsDir 1 true [("a", FsFile "new bytes" 2 true)])]))
    eq_refl) as (Hscan & _ & Hsame).
  destruct (scanner.ScanFileTree "/chunk"
    (Some (FsDir 5 true [("0000", FsDir 1 true [("a", FsFile "old bytes" 2 true)])])))
    as [tree|msg] eqn:Hold; [|call_succeeds Hold].
  exists tree. split; [reflexivity|]. split; [symmetry; exact Hscan|].
  apply Hsame; [reflexivity|symmetry; exact Hscan].
Defined.

(** * Further properties of the snapshot differ *)

Lemma structurally_equal_sym (a : FileTreeNode) :
  forall b, scanner.structurally_equal a b -> scanner.structurally_equal b a.
Proof.
  induction a as [a IH] using FileTreeNode_children_ind. intros b Hab.
  inversion Hab as [a' b' Hsize Htime Hdir Hdom Hchildren]; subst a' b'.
  constructor; try congruence.
  - intros Hb. symmetry. apply Hdom. congruence.
  - intros Hb name cb ca Hcb Hca. apply (IH name ca Hca).
    apply (Hchildren ltac:(congruence) name ca cb Hca Hcb).
Qed.

Lemma structurally_equal_trans (a : FileTreeNode) :
  forall b c, scanner.structurally_equal a b -> scanner.structurally_equal b c ->
              scanner.structurally_equal a c.
Proof.
  induction a as [a IH] using FileTreeNode_children_ind. intros b c Hab Hbc.
  inversion Hab as [a' b' Hsize Htime Hdir Hdom Hchildren]; subst a' b'.
  inversion Hbc as [b' c' Hsize' Htime' Hdir' Hdom' Hchildren']; subst b' c'.
  constructor; try congruence.
  - intros Ha. rewrite Hdom by done. apply Hdom'. congruence.
  - intros Ha name ca cc Hca Hcc.
    assert (is_Some (Children b !! name)) as [cb Hcb].
    { apply elem_of_dom. rewrite <- Hdom by done. apply elem_of_dom. by eexists. }
    apply (IH name ca Hca cb cc).
    + by apply (Hchildren Ha name).
    + apply (Hchildren' ltac:(congruence) name cb cc Hcb Hcc).
Qed.

Lemma hasTreeChanged_sym (a b : FileTreeNode) :
  scanner.hasTreeChanged a b = scanner.hasTreeChanged b a.
Proof.
  destruct (scanner.hasTreeChanged a b) eqn:Hab,
           (scanner.hasTreeChanged b a) eqn:Hba; try reflexivity.
  - apply hasTreeChanged_false_iff, structurally_equal_sym,
      hasTreeChanged_false_iff in Hba. congruence.
  - apply hasTreeChanged_false_iff, structurally_equal_sym,
      hasTreeChanged_false_iff in Hab. congruence.
Qed.

(** X5. Change detection does not depend on the direction of the
    comparison: [hasTreeChanged] gives the same answer with its arguments
    swapped (and [false] on a node against itself), and [CompareFileTrees]
    returns the same change set when the previous and the current
    snapshot are exchanged. *)
Theorem X5_differ_is_symmetric (previous current : gmap string FileTreeNode)
    (a b : FileTreeNode) :
  scanner.hasTreeChanged a a = false /\
  scanner.hasTreeChanged a b = scanner.hasTreeChanged b a /\
  scanner.CompareFileTrees previous current
  = scanner.CompareFileTrees current previous.
Proof.
  split; [apply hasTreeChanged_refl|]. split; [apply hasTreeChanged_sym|].
  apply map_eq. intros name. apply option_eq. intros changed.
  rewrite !CompareFileTrees_lookup. split.
  - intros [-> [?|[?|(p & c & Hp & Hc & Hne)]]]; split; auto.
    right; right. exists c, p. repeat split; try done.
    intros Heq. by apply Hne, structurally_equal_sym.
  - intros [-> [?|[?|(p & c & Hp & Hc & Hne)]]]; split; auto.
    right; right. exists c, p. repeat split; try done.
    intros Heq. by apply Hne, structurally_equal_sym.
Qed.

(** X6. Being unchanged is transitive: when [hasTreeChanged] finds no
    change from a first node to a second and none from the second to a
    third, it finds none from the first to the third; so a shard that no
    run of a series reported as changed is unchanged from the first
    snapshot to the last. *)
Theorem X6_unchanged_is_transitive (a b c : FileTreeNode) :
  scanner.hasTreeChanged a b = false ->
  scanner.hasTreeChanged b c = false ->
  scanner.hasTreeChanged a c = false.
Proof.
  rewrite !hasTreeChanged_false_iff. apply structurally_equal_trans.
Qed.

Lemma X6_witness :
  scanner.hasTreeChanged
    {| Name := "0000"; Size := 5; ModTime := 1; IsDir := true; Children := ∅ |}
    {| Name := "0001"; Size := 5; ModTime := 1; IsDir := true; Children := ∅ |}
  = false.
Proof.
  apply (X6_unchanged_is_transitive _
           {| Name := "x"; Size := 5; ModTime := 1; IsDir := true; Children := ∅ |});
    vm_compute; reflexivity.
Defined.

(** * Further properties of the prefix grouper *)

Lemma makeGroup_members_perm (prefixDigits : Z) (prefix : string)
    (dirs dirs' : list string) :
  dirs ≡ₚ dirs' ->
  archiver.makeGroup prefixDigits (prefix, dirs)
  = archiver.makeGroup prefixDigits (prefix, dirs').
Proof.
  intros Hperm. unfold archiver.makeGroup. cbn [fst snd].
  assert (merge_sort String.le dirs = merge_sort String.le dirs') as ->;
    [|reflexivity].
  apply sorted_strings_unique.
  - by rewrite !merge_sort_Permutation.
  - apply Sorted_merge_sort, String.le_total.
  - apply Sorted_merge_sort, String.le_total.
Qed.

Lemma bucket_perm (prefixDigits : Z) (prefix : string) (dirs dirs' : list string) :
  dirs ≡ₚ dirs' -> bucket prefixDigits prefix dirs ≡ₚ bucket prefixDigits prefix dirs'.
Proof. intros Hperm. unfold bucket. by rewrite Hperm. Qed.

Lemma groups_strictly_sorted (prefixDigits : Z) (directories : list string) :
  StronglySorted (fun g1 g2 => String.ltb (Prefix g1) (Prefix g2) = true)
    (merge_sort archiver.prefix_le
       (archiver.makeGroup prefixDigits <$>
          map_to_list (foldl (archiver.addToGroupMap prefixDigits) ∅ directories))).
Proof.
  apply prefix_sorted_strict.
  - apply StronglySorted_merge_sort; apply _.
  - rewrite merge_sort_Permutation. apply groups_prefix_NoDup.
Qed.

(** X7. The groups do not depend on the order in which the directory names
    are given: [GenerateArchiveGroups] returns the same list, with the same
    members in the same order, for any rearrangement of its input. *)
Theorem X7_grouping_ignores_input_order (directories directories' : list string)
    (prefixDigits : Z) :
  directories ≡ₚ directories' ->
  archiver.GenerateArchiveGroups directories prefixDigits
  = archiver.GenerateArchiveGroups directories' prefixDigits.
Proof.
  intros Hperm. unfold archiver.GenerateArchiveGroups.
  destruct ((prefixDigits <? 1) || (prefixDigits >? 4)); [reflexivity|].
  f_equal. apply sorted_by_prefix_unique; try apply groups_strictly_sorted.
  apply NoDup_Permutation.
  - apply strict_sorted_NoDup, groups_strictly_sorted.
  - apply strict_sorted_NoDup, groups_strictly_sorted.
  - intros g. rewrite !elem_of_groups.
    split; intros (prefix & Hne & ->); exists prefix.
    + split.
      * intros Hnil. apply Hne. apply Permutation_nil_r.
        rewrite <- Hnil. by apply bucket_perm.
      * by apply makeGroup_members_perm, bucket_perm.
    + split.
      * intros Hnil. apply Hne. apply Permutation_nil_r.
        rewrite <- Hnil. by apply bucket_perm.
      * by apply makeGroup_members_perm, bucket_perm.
Qed.

Lemma X7_witness :
  archiver.GenerateArchiveGroups ["0100"; "00ff"; "0000"] 2
  = archiver.GenerateArchiveGroups ["0000"; "00ff"; "0100"] 2.
Proof.
  apply X7_grouping_ignores_input_order.
  apply (Permutation_trans (l' := ["00ff"; "0100"; "0000"]));
    [apply perm_swap|].
  apply (Permutation_trans (l' := ["00ff"; "0000"; "0100"]));
    [apply perm_skip, perm_swap|apply perm_swap].
Defined.

Lemma groupMap_members_step (prefixDigits : Z) (groupMap : gmap string (list string))
    (dir : string) :
  map_to_list (archiver.addToGroupMap prefixDigits groupMap dir) ≫= snd
  ≡ₚ (map_to_list groupMap ≫= snd)
      ++ filter (fun dir => String.length dir = 4%nat) [dir].
Proof.
  unfold archiver.addToGroupMap. rewrite filter_cons, filter_nil.
  destruct (decide (String.length dir = 4%nat)) as [Hlen|Hlen].
  2:{ apply Nat.eqb_neq in Hlen. rewrite Hlen. cbn [negb]. by rewrite app_nil_r. }
  apply Nat.eqb_eq in Hlen. rewrite Hlen. cbn [negb].
  set (prefix := String.substring 0 (Z.to_nat prefixDigits) dir).
  destruct (groupMap !! prefix) as [dirs|] eqn:Hprefix; cbn [default].
  - rewrite <- (insert_delete_eq groupMap).
    rewrite map_to_list_insert by apply lookup_delete_eq.
    rewrite <- (map_to_list_delete groupMap prefix dirs) by done.
    rewrite !bind_cons. cbn [snd]. rewrite <- !app_assoc.
    apply Permutation_app_head, Permutation_app_comm.
  - rewrite map_to_list_insert by done. rewrite bind_cons. cbn [snd].
    apply Permutation_app_comm.
Qed.

Lemma groupMap_members (prefixDigits : Z) (directories : list string) :
  map_to_list (foldl (archiver.addToGroupMap prefixDigits) ∅ directories) ≫= snd
  ≡ₚ filter (fun dir => String.length dir = 4%nat) directories.
Proof.
  induction directories as [|dir directories IH] using rev_ind.
  - cbn [foldl]. by rewrite map_to_list_empty.
  - rewrite foldl_app. cbn [foldl].
    rewrite groupMap_members_step, IH, filter_app. reflexivity.
Qed.

Lemma makeGroup_members (prefixDigits : Z) (entries : list (string * list string)) :
  (archiver.makeGroup prefixDigits <$> entries) ≫= Directories ≡ₚ entries ≫= snd.
Proof.
  induction entries as [|entry entries IH]; [reflexivity|].
  rewrite fmap_cons, !bind_cons, IH, makeGroup_Directories, merge_sort_Permutation.
  reflexivity.
Qed.

(** X8. The groups partition the accepted names: the members of all groups
    together are the names of length four of the input, each as many
    times as it was given (nothing is lost, nothing is added), and no
    group is empty. *)
Theorem X8_groups_partition_the_names (directories : list string)
    (prefixDigits : Z) (groups : list ArchiveGroup) :
  archiver.GenerateArchiveGroups directories prefixDigits = Ok groups ->
  allMembers groups
  ≡ₚ filter (fun dir => String.length dir = 4%nat) directories /\
  forall g, g ∈ groups -> Directories g <> [].
Proof.
  unfold archiver.GenerateArchiveGroups.
  destruct ((prefixDigits <? 1) || (prefixDigits >? 4)); [discriminate|].
  intros [= <-]. split.
  - unfold allMembers.
    by rewrite merge_sort_Permutation, makeGroup_members, groupMap_members.
  - intros g Hg. apply elem_of_groups in Hg as (prefix & Hne & ->).
    rewrite makeGroup_Directories. cbn [snd]. intros Hnil. apply Hne.
    apply Permutation_nil_r. rewrite <- Hnil. by rewrite merge_sort_Permutation.
Qed.

Lemma X8_witness :
  exists groups,
    archiver.GenerateArchiveGroups ["0100"; "ab"; "0000"; "0100"; "00ff"] 2
    = Ok groups /\
    allMembers groups ≡ₚ ["0100"; "0000"; "0100"; "00ff"].
Proof.
  eexists. split; [reflexivity|].
  apply (X8_groups_partition_the_names ["0100"; "ab"; "0000"; "0100"; "00ff"] 2).
  reflexivity.
Defined.

Lemma GenerateArchiveGroups_name_shape (directories : list string)
    (prefixDigits : Z) (groups : list ArchiveGroup) (g : ArchiveGroup) :
  archiver.GenerateArchiveGroups directories prefixDigits = Ok groups ->
  g ∈ groups ->
  ArchiveName g = StartRange g +:+ "-" +:+ EndRange g +:+ ".tar.gz" /\
  String.length (ArchiveName g) = 16%nat /\
  String.substring 0 (Z.to_nat prefixDigits) (ArchiveName g) = Prefix g.
Proof.
  unfold archiver.GenerateArchiveGroups.
  destruct ((prefixDigits <? 1) || (prefixDigits >? 4)) eqn:Hrange; [discriminate|].
  intros [= <-] Hg. apply elem_of_groups in Hg as (prefix & Hne & ->).
  assert (String.length prefix = Z.to_nat prefixDigits) as Hlen.
  { destruct (bucket prefixDigits prefix directories) as [|d ds] eqn:Hb; [done|].
    assert (d ∈ bucket prefixDigits prefix directories) as Hd
      by (rewrite Hb; apply list_elem_of_here).
    apply elem_of_bucket in Hd as (_ & Hd & <-).
    apply substring_0_length. lia. }
  split; [reflexivity|]. split.
  - cbn [archiver.makeGroup archiver.calculateRange ArchiveName fst snd].
    rewrite !string_app_length, !strings_Repeat_length, Hlen. cbn [String.length]. lia.
  - by apply makeGroup_name_prefix.
Qed.


(** X9. Archive names are determined by the prefix and never collide:
    every group's archive name is its range start, a dash, its range end
    and [.tar.gz] (sixteen bytes), it starts with the group's prefix, and
    two different groups of one result have different archive names. *)
Theorem X9_archive_names (directories : list string) (prefixDigits : Z)
    (groups : list ArchiveGroup) :
  archiver.GenerateArchiveGroups directories prefixDigits = Ok groups ->
  NoDup (ArchiveName <$> groups) /\
  forall g, g ∈ groups ->
    ArchiveName g = StartRange g +:+ "-" +:+ EndRange g +:+ ".tar.gz" /\
    String.length (ArchiveName g) = 16%nat /\
    String.substring 0 (Z.to_nat prefixDigits) (ArchiveName g) = Prefix g.
Proof.
  intros Hgroups. split; [by apply GenerateArchiveGroups_names_NoDup in Hgroups|].
  intros g Hg. by eapply GenerateArchiveGroups_name_shape.
Qed.

Lemma X9_witness :
  exists groups,
    archiver.GenerateArchiveGroups ["0000"; "00ff"; "0100"] 2 = Ok groups /\
    ArchiveName <$> groups = ["0000-00ff.tar.gz"; "0100-01ff.tar.gz"] /\
    NoDup (ArchiveName <$> groups).
Proof.
  eexists. split; [reflexivity|]. split; [reflexivity|].
  apply (X9_archive_names ["0000"; "00ff"; "0100"] 2). reflexivity.
Defined.

(** * Further properties of the archive builder *)




Lemma addMembers_present (env : Env) (chunkPath : string) (dirs : list string) :
  forall written,
    archiver.addMembers env chunkPath (List.filter (present env chunkPath) dirs)
      written
    = archiver.addMembers env chunkPath dirs written.
Proof.
  induction dirs as [|dir dirs IH]; intros written; [reflexivity|].
  cbn [List.filter]. unfold present at 1.
  destruct (archiver.statMember (chunk_root env) (filepath_Join chunkPath dir) dir)
    as [|msg|n] eqn:Hstat; cbn [archiver.addMembers]; rewrite Hstat;
    [apply IH|reflexivity|].
  destruct (archiver.addDirectoryToTar (filepath_Join chunkPath dir) dir n)
    as [out [msg|]]; [reflexivity|apply IH].
Qed.

(** X11. Members that are gone from the chunk directory when the archive
    is built are skipped without an error: the archive of a group is the
    archive of its members that are still present.  With the whole chunk
    directory gone, the archive is built with no entry at all and
    [CreateArchive] still succeeds. *)
Theorem X11_absent_members_are_skipped (env : Env) (cfg : Config.t)
    (group group' : ArchiveGroup) (w : World) :
  ArchiveName group' = ArchiveName group ->
  Directories group'
  = List.filter (present env (Config.ChunkPath cfg)) (Directories group) ->
  archiver.CreateArchive env cfg group' w = archiver.CreateArchive env cfg group w /\
  (chunk_root env = None ->
   fault env (OpMkdirAll (Config.TempPath cfg)) = None ->
   fault env (OpCreate (scratchArchivePath cfg group)) = None ->
   archiver.CreateArchive env cfg group w
   = (Ok (scratchArchivePath cfg group),
      set_temp <[scratchArchivePath cfg group :=
                   {| bytes := tar_gz env []; json := None |}]> w)).
Proof.
  intros Hname Hdirs. split.
  - unfold archiver.CreateArchive. by rewrite Hname, Hdirs, addMembers_present.
  - intros Hroot Hmkdir Hcreate. unfold archiver.CreateArchive.
    fold (scratchArchivePath cfg group). rewrite Hmkdir, Hcreate.
    assert (forall dirs written,
              archiver.addMembers env (Config.ChunkPath cfg) dirs written
              = (written, None)) as ->; [|reflexivity].
    induction dirs as [|dir dirs IH]; intros written; [reflexivity|].
    cbn [archiver.addMembers]. unfold archiver.statMember. rewrite Hroot. apply IH.
Qed.

Lemma X11_witness :
  archiver.CreateArchive (sample_env sample_chunks no_fault) sample_cfg
    (archiver.makeGroup 2 ("00", ["0000"; "00ff"])) empty_world
  = archiver.CreateArchive (sample_env sample_chunks no_fault) sample_cfg
      (archiver.makeGroup 2 ("00", ["0000"; "0042"; "00ff"])) empty_world.
Proof.
  apply (X11_absent_members_are_skipped (sample_env sample_chunks no_fault)
           sample_cfg (archiver.makeGroup 2 ("00", ["0000"; "0042"; "00ff"]))
           (archiver.makeGroup 2 ("00", ["0000"; "00ff"])) empty_world);
    reflexivity.
Defined.

(** * Further properties of the processing of one group *)

Section GroupOutcome.
Import backup.
Variables (env : Env) (cfg : Config.t) (group : ArchiveGroup).

Local Abbreviation remoteArchive := (remoteArchivePath cfg group).
Local Abbreviation remoteSha256 := (remoteSha256Path cfg group).
Local Abbreviation scratchArchive := (scratchArchivePath cfg group).
Local Abbreviation scratchChecksum := (scratchChecksumPath cfg group).
Local Abbreviation recordOf := (checksumRecord cfg group).

(** The archive built for a group does not depend on the scratch
  directory or on remote storage. *)
Lemma CreateArchive_any_world (w w' : World) :
archiver.CreateArchive env cfg group w'
= match archiver.CreateArchive env cfg group w with
  | (Ok path, w1) =>
      (Ok path,
       match temp w1 !! scratchArchive with
       | Some archive => set_temp <[scratchArchive := archive]> w'
       | None => w'
       end)
  | (Err msg, w1) =>
      (Err msg,
       match fault env (OpMkdirAll (Config.TempPath cfg)),
             fault env (OpCreate scratchArchive),
             temp w1 !! scratchArchive with
       | None, None, Some archive => set_temp <[scratchArchive := archive]> w'
       | _, _, _ => w'
       end)
  end.
Proof.
unfold archiver.CreateArchive. fold scratchArchive.
destruct (fault env (OpMkdirAll _)); [reflexivity|].
destruct (fault env (OpCreate _)); [reflexivity|].
destruct (archiver.addMembers _ _ _ _) as [written [msg|]];
  cbn [temp set_temp]; by rewrite lookup_insert_eq.
Qed.

(** What a successful [processArchiveGroup] has done. *)
Lemma processArchiveGroup_Ok_inv (st st' : RunState) :
processArchiveGroup env cfg group st = (Ok tt, st') ->
exists w1 archive,
  archiver.CreateArchive env cfg group (world st) = (Ok scratchArchive, w1) /\
  w1 = set_temp <[scratchArchive := archive]> (world st) /\
  archiver.CalculateChecksum env scratchArchive w1
  = Ok (sha256_hex env (bytes archive)) /\
  checksums st' = <[ArchiveName group := sha256_hex env (bytes archive)]>
                    (checksums st) /\
  ((getRemoteChecksum env remoteSha256 w1 = Ok (sha256_hex env (bytes archive)) /\
    world st' = os_Remove scratchArchive w1 /\
    res st' = setDetail (ArchiveName group) "checksum unchanged, skipped"
                (incSkipped
                   (setDetail (ArchiveName group)
                      "checksum unchanged, skipped upload" (res st))))
   \/ (getRemoteChecksum env remoteSha256 w1
       <> Ok (sha256_hex env (bytes archive)) /\
       world st'
       = os_Remove scratchArchive
           (os_Remove scratchChecksum
              (set_remote <[remoteSha256 := recordOf (sha256_hex env (bytes archive))]>
                 (set_temp <[scratchChecksum :=
                               recordOf (sha256_hex env (bytes archive))]>
                    (set_remote <[remoteArchive := archive]> w1)))) /\
       res st' = setDetail (ArchiveName group) "created and uploaded"
                   (incUpdated
                      (addUploaded (ArchiveName group +:+ ".sha256")
                         (addUploaded (ArchiveName group) (res st)))))).
Proof.
destruct (archiver.CreateArchive env cfg group (world st)) as [[path|msg] w1]
  eqn:Hcreate.
2:{ rewrite (scratch_archive_kept _ _ _ _ _ _ Hcreate). discriminate. }
destruct (CreateArchive_Ok _ _ _ _ _ _ Hcreate) as (-> & _ & archive & Hw1).
assert (temp w1 !! scratchArchive = Some archive) as Harchive.
{ rewrite Hw1. cbn [temp set_temp]. apply lookup_insert_eq. }
destruct (archiver.CalculateChecksum env scratchArchive w1) as [h|msg] eqn:Hsum.
2:{ unfold processArchiveGroup, bind, query, call, defer_Remove.
    rewrite Hcreate. cbn [world set_world]. rewrite Hsum. discriminate. }
destruct (CalculateChecksum_Ok _ _ _ _ Hsum) as (archive' & Harchive' & Hh).
assert (archive' = archive) as -> by congruence. subst h.
set (h := sha256_hex env (bytes archive)) in *.
intros Hrun. exists w1, archive. split; [reflexivity|]. split; [exact Hw1|].
split; [exact Hsum|].
assert (forall rc : result string,
          rc = Ok h \/ rc <> Ok h) as Hdec.
{ intros [r|noRecord]; [|by right].
  destruct (decide (r = h)) as [->|Hrh]; [by left|right; congruence]. }
destruct (Hdec (getRemoteChecksum env remoteSha256 w1)) as [Hremote|Hne].
{ rewrite (processArchiveGroup_skip _ _ _ _ _ _ Hcreate Hsum Hremote) in Hrun.
  injection Hrun as <-. split; [reflexivity|]. by left. }
destruct (fault env (OpUpload scratchArchive remoteArchive)) as [msg|] eqn:Hup.
{ revert Hrun.
  unfold processArchiveGroup, bind, query, call, defer_Remove, checkRemote.
  fold remoteArchive remoteSha256.
  rewrite Hcreate. cbn [world set_world]. rewrite Hsum. cbn [world set_world].
  unfold storage.UploadFile at 1.
  destruct (getRemoteChecksum env remoteSha256 w1) as [r|noRecord].
  - destruct (String.eqb_spec r h) as [->|Hrh]; [done|].
    cbn [world set_world]. rewrite Hup. discriminate.
  - cbn [world set_world]. rewrite Hup. discriminate. }
rewrite (processArchiveGroup_upload _ _ _ _ _ _ _ Hcreate Hsum Harchive Hne Hup)
  in Hrun.
revert Hrun. unfold archiver.CreateChecksumFile.
fold scratchChecksum. fold (checksumRecord cfg group h).
destruct (fault env (OpCreate scratchChecksum)); [discriminate|].
destruct (fault env (OpWrite scratchChecksum)); [discriminate|].
unfold storage.UploadFile.
destruct (fault env (OpUpload scratchChecksum remoteSha256)); [discriminate|].
cbn [temp set_temp set_remote]. rewrite lookup_insert_eq.
intros [= <-]. split; [reflexivity|]. right. done.
Qed.

Lemma CalculateChecksum_same_file (path : string) (w w' : World) :
temp w' !! path = temp w !! path ->
archiver.CalculateChecksum env path w' = archiver.CalculateChecksum env path w.
Proof. intros Hfile. unfold archiver.CalculateChecksum. by rewrite Hfile. Qed.

Lemma getRemoteChecksum_same_record (path : string) (w w' : World) :
remote w' !! path = remote w !! path ->
getRemoteChecksum env path w' = getRemoteChecksum env path w.
Proof.
intros Hrecord. unfold getRemoteChecksum, storage.GetFileContent.
by rewrite Hrecord.
Qed.

(** X12. Processing a group a second time uploads nothing.  After a
  successful [processArchiveGroup], running it again on the same chunk
  directory finds the recorded checksum in the remote companion record
  and takes the skip path: remote storage, the list of uploaded files
  and the checksum map stay as they are, and the group counts as
  skipped.  (The record must be readable and the digest a non-empty word
  without white space, as a hexadecimal digest is.) *)
Theorem X12_processing_twice_uploads_once (st st' : RunState) :
processArchiveGroup env cfg group st = (Ok tt, st') ->
fault env (OpGet remoteSha256) = None ->
(forall h, checksums st' !! ArchiveName group = Some h ->
           h <> EmptyString /\ no_space h = true) ->
exists st'',
  processArchiveGroup env cfg group st' = (Ok tt, st'') /\
  remote (world st'') = remote (world st') /\
  UploadedFiles (res st'') = UploadedFiles (res st') /\
  UpdatedArchives (res st'') = UpdatedArchives (res st') /\
  SkippedArchives (res st'') = SkippedArchives (res st') + 1 /\
  checksums st'' = checksums st'.
Proof.
intros Hrun Hget Hword.
destruct (processArchiveGroup_Ok_inv _ _ Hrun)
  as (w1 & archive & Hcreate & Hw1 & Hsum & Hchecksums & Hcases).
set (h := sha256_hex env (bytes archive)) in *.
destruct (Hword h) as [Hne Hspace].
{ rewrite Hchecksums. apply lookup_insert_eq. }
set (w1' := set_temp <[scratchArchive := archive]> (world st')).
assert (archiver.CreateArchive env cfg group (world st') = (Ok scratchArchive, w1'))
  as Hcreate'.
{ rewrite (CreateArchive_any_world (world st) (world st')), Hcreate, Hw1.
  cbn [temp set_temp]. by rewrite lookup_insert_eq. }
assert (archiver.CalculateChecksum env scratchArchive w1' = Ok h) as Hsum'.
{ rewrite <- Hsum. apply CalculateChecksum_same_file.
  rewrite Hw1. unfold w1'. cbn [temp set_temp]. by rewrite !lookup_insert_eq. }
assert (getRemoteChecksum env remoteSha256 w1' = Ok h) as Hremote'.
{ destruct Hcases as [(Hremote & Hworld & _)|(_ & Hworld & _)].
  - rewrite <- Hremote. apply getRemoteChecksum_same_record.
    unfold w1'. rewrite Hworld. reflexivity.
  - apply (getRemoteChecksum_of_record env cfg group); try done.
    unfold w1'. rewrite Hworld. cbn [remote set_temp os_Remove set_remote].
    apply lookup_insert_eq. }
rewrite (processArchiveGroup_skip _ _ _ _ _ _ Hcreate' Hsum' Hremote').
eexists. split; [reflexivity|].
cbn [world res checksums os_Remove set_temp remote UploadedFiles
     UpdatedArchives SkippedArchives setDetail incSkipped].
repeat split; try reflexivity.
rewrite Hchecksums. apply insert_insert_eq.
Qed.

(** X13. A group that was processed successfully leaves no scratch file
  behind: its archive file is gone from the scratch directory, and so is
  its checksum file when one was written. *)
Theorem X13_scratch_files_are_removed (st st' : RunState) :
processArchiveGroup env cfg group st = (Ok tt, st') ->
temp (world st') !! scratchArchive = None /\
(Details (res st') !! ArchiveName group = Some "created and uploaded" ->
 temp (world st') !! scratchChecksum = None).
Proof.
intros Hrun.
destruct (processArchiveGroup_Ok_inv _ _ Hrun)
  as (w1 & archive & _ & _ & _ & _ & [(_ & -> & ->)|(_ & -> & ->)]);
  cbn [temp os_Remove set_temp set_remote res Details setDetail incSkipped].
- split; [apply lookup_delete_eq|].
  rewrite lookup_insert_eq. discriminate.
- split; [apply lookup_delete_eq|]. intros _.
  destruct (decide (scratchArchive = scratchChecksum)) as [Heq|Hne].
  + rewrite <- Heq. apply lookup_delete_eq.
  + rewrite lookup_delete_ne by done. apply lookup_delete_eq.
Qed.

(** X14. The footprint of [processArchiveGroup], whatever its outcome: in
  the scratch directory it touches only the group's archive file and
  checksum file, on remote storage only the group's archive and checksum
  record; it removes nothing from remote storage; and in the checksum
  map it touches only the entry of the group. *)
Theorem X14_footprint_of_one_group (st : RunState) :
let st' := (processArchiveGroup env cfg group st).2 in
(forall p, p <> scratchArchive -> p <> scratchChecksum ->
           temp (world st') !! p = temp (world st) !! p) /\
(forall p, p <> remoteArchive -> p <> remoteSha256 ->
           remote (world st') !! p = remote (world st) !! p) /\
(forall p, is_Some (remote (world st) !! p) ->
           is_Some (remote (world st') !! p)) /\
(forall k, k <> ArchiveName group -> checksums st' !! k = checksums st !! k).
Proof.
unfold processArchiveGroup, bind, query, call, defer_Remove, checkRemote,
  update, store, archiver.CreateArchive, archiver.CalculateChecksum,
  storage.UploadFile, archiver.CreateChecksumFile.
fold scratchArchive. fold scratchChecksum. fold remoteArchive remoteSha256.
repeat match goal with
       | |- context [match ?x with _ => _ end] =>
           lazymatch x with
           | context [match _ with _ => _ end] => fail
           | _ => destruct x eqn:?
           end
       | H : (_, _) = (_, _) |- _ => injection H as <- <-
       | H : Ok _ = Ok _ |- _ => injection H as <-
       | H : Ok _ = Err _ |- _ => discriminate H
       | H : Err _ = Ok _ |- _ => discriminate H
       end;
  cbn [world checksums res set_world set_res set_checksums fst snd
       os_Remove set_temp set_remote temp remote];
  (split; [|split; [|split]]); intros p; intros;
  unfold scratchChecksumPath in *;
  repeat first [ rewrite lookup_delete_ne by congruence
               | rewrite lookup_insert_ne by congruence ];
  try reflexivity; try assumption;
  repeat (apply lookup_insert_is_Some'; right); assumption.
Qed.

End GroupOutcome.

Lemma X12_witness :
  exists st' st'',
    backup.processArchiveGroup (sample_env sample_chunks no_fault) sample_cfg
      group_01 (fullInit empty_world) = (Ok tt, st') /\
    backup.processArchiveGroup (sample_env sample_chunks no_fault) sample_cfg
      group_01 st' = (Ok tt, st'') /\
    UploadedFiles (backup.res st'') = UploadedFiles (backup.res st').
Proof.
  destruct (backup.processArchiveGroup (sample_env sample_chunks no_fault)
              sample_cfg group_01 (fullInit empty_world)) as [[[]|msg] st'] eqn:Hrun;
    [|outcome_succeeds Hrun].
  destruct (X12_processing_twice_uploads_once _ _ _ _ _ Hrun eq_refl)
    as (st'' & Hagain & _ & Huploaded & _).
  - intros h Hh.
    assert (exists word,
              backup.checksums
                (backup.processArchiveGroup (sample_env sample_chunks no_fault)
                   sample_cfg group_01 (fullInit empty_world)).2
              !! ArchiveName group_01 = Some word /\
              word <> EmptyString /\ no_space word = true)
      as (word & Hword & Hne & Hspace).
    { eexists. split; [vm_compute; reflexivity|]. split; [discriminate|reflexivity]. }
    rewrite Hrun in Hword. cbn [snd] in Hword.
    assert (h = word) as -> by congruence. done.
  - exists st', st''. auto.
Defined.

Lemma X13_witness :
  exists st',
    backup.processArchiveGroup (sample_env sample_chunks no_fault) sample_cfg
      group_01 (fullInit empty_world) = (Ok tt, st') /\
    temp (backup.world st') !! "/tmp/0100-01ff.tar.gz" = None /\
    temp (backup.world st') !! "/tmp/0100-01ff.tar.gz.sha256" = None.
Proof.
  destruct (backup.processArchiveGroup (sample_env sample_chunks no_fault)
              sample_cfg group_01 (fullInit empty_world)) as [[[]|msg] st'] eqn:Hrun;
    [|outcome_succeeds Hrun].
  destruct (X13_scratch_files_are_removed _ _ _ _ _ Hrun) as [Harchive Hrecord].
  exists st'. split; [reflexivity|]. split; [exact Harchive|].
  apply Hrecord.
  assert (Details
            (backup.res
               (backup.processArchiveGroup (sample_env sample_chunks no_fault)
                  sample_cfg group_01 (fullInit empty_world)).2)
          !! ArchiveName group_01 = Some "created and uploaded") as Hdetail
    by (vm_compute; reflexivity).
  rewrite Hrun in Hdetail. exact Hdetail.
Defined.


Lemma X14_witness :
  remote (backup.world
            (backup.processArchiveGroup (sample_env sample_chunks no_fault)
               sample_cfg group_01 (fullInit (world_with_metadata 1))).2)
    !! "/backup-metadata.json"
  = remote (world_with_metadata 1) !! "/backup-metadata.json".
Proof.
  destruct (X14_footprint_of_one_group (sample_env sample_chunks no_fault)
              sample_cfg group_01 (fullInit (world_with_metadata 1)))
    as (_ & Hremote & _).
  apply Hremote; intros Hpath; vm_compute in Hpath; discriminate Hpath.
Defined.

(** * Further properties of the two loops *)

Section LoopOutcomes.
Import backup.
Variables (env : Env) (cfg : Config.t).

(** Both loops: a group is processed when it is dirty ([dirty] is
  constantly [true] in a full run) and counted as skipped otherwise. *)
Variable step : RunState -> ArchiveGroup -> RunState.
Variable dirty : ArchiveGroup -> bool.
Hypothesis step_eq :
forall st g,
  step st g
  = if dirty g then fullStep env cfg st g
    else set_res (setDetail (ArchiveName g) "unchanged, skipped")
           (set_res incSkipped st).

Lemma fails_in_cons (init : RunState) (g g' : ArchiveGroup)
  (rest : list ArchiveGroup) (msg : string) :
fails_in env cfg step init (g :: rest) g' msg <->
(g' = g /\ (processArchiveGroup env cfg g init).1 = Err msg)
\/ fails_in env cfg step (step init g) rest g' msg.
Proof.
unfold fails_in. split.
- intros ([|a pre] & post & Heq & Hfail); cbn [app] in Heq; injection Heq as <- ->.
  + left. done.
  + right. exists pre, post. done.
- intros [[-> Hfail]|(pre & post & -> & Hfail)].
  + exists [], rest. done.
  + exists (g :: pre), post. done.
Qed.

Lemma succeeds_in_cons (init : RunState) (g g' : ArchiveGroup)
  (rest : list ArchiveGroup) :
succeeds_in env cfg step init (g :: rest) g' <->
(g' = g /\ is_Ok (processArchiveGroup env cfg g init).1 = true)
\/ succeeds_in env cfg step (step init g) rest g'.
Proof.
unfold succeeds_in. split.
- intros ([|a pre] & post & Heq & Hfail); cbn [app] in Heq; injection Heq as <- ->.
  + left. done.
  + right. exists pre, post. done.
- intros [[-> Hfail]|(pre & post & -> & Hfail)].
  + exists [], rest. done.
  + exists (g :: pre), post. done.
Qed.

(** What one iteration does to the result and the checksum map. *)
Lemma step_outcome (st : RunState) (g : ArchiveGroup) :
let name := ArchiveName g in
let st' := step st g in
if dirty g then
  match (processArchiveGroup env cfg g st).1 with
  | Ok _ =>
      ErrorArchives (res st') = ErrorArchives (res st) /\
      (exists h, checksums st' = <[name := h]> (checksums st)) /\
      ((UpdatedArchives (res st') = UpdatedArchives (res st) + 1 /\
        UploadedFiles (res st')
        = UploadedFiles (res st) ++ [name; name +:+ ".sha256"])
       \/ (UpdatedArchives (res st') = UpdatedArchives (res st) /\
           UploadedFiles (res st') = UploadedFiles (res st)))
  | Err _ =>
      ErrorArchives (res st') = ErrorArchives (res st) ++ [name] /\
      checksums st' = checksums st /\
      UpdatedArchives (res st') = UpdatedArchives (res st) /\
      (UploadedFiles (res st') = UploadedFiles (res st)
       \/ UploadedFiles (res st') = UploadedFiles (res st) ++ [name])
  end
else
  ErrorArchives (res st') = ErrorArchives (res st) /\
  checksums st' = checksums st /\
  UpdatedArchives (res st') = UpdatedArchives (res st) /\
  UploadedFiles (res st') = UploadedFiles (res st).
Proof.
cbv zeta. rewrite step_eq. destruct (dirty g); [|done].
unfold fullStep.
pose proof (processArchiveGroup_cases env cfg g st) as Hcases. cbv zeta in Hcases.
destruct (processArchiveGroup env cfg g st) as [[[]|msg] st']; cbn [fst].
- destruct Hcases as (h & Hsum & [->| ->]); cbn; rewrite Hsum.
  + split; [done|]. split; [by exists h|]. left. split; [done|].
    by rewrite <- app_assoc.
  + split; [done|]. split; [by exists h|]. by right.
- destruct Hcases as (Hsum & [Hres|Hres]); unfold recordError; cbn;
    rewrite Hsum, Hres; cbn; auto.
Qed.

Lemma loop_error_names (groups : list ArchiveGroup) :
forall init,
  exists l,
    ErrorArchives (res (foldl step init groups)) = ErrorArchives (res init) ++ l /\
    sublist l (ArchiveName <$> groups) /\
    forall name,
      name ∈ l <->
      exists g msg, dirty g = true /\
                    fails_in env cfg step init groups g msg /\
                    ArchiveName g = name.
Proof.
induction groups as [|g groups IH]; intros init.
- exists []. split; [by rewrite app_nil_r|]. split; [constructor|].
  intros name. split; [by intros ?%elem_of_nil|].
  intros (g & msg & _ & ([|? ?] & post & Heq & _) & _); discriminate.
- cbn [foldl]. destruct (IH (step init g)) as (l & Herrors & Hsub & Hnames).
  pose proof (step_outcome init g) as Hstep. cbv zeta in Hstep.
  destruct (dirty g) eqn:Hdirty;
    [destruct (processArchiveGroup env cfg g init).1 as [[]|msg] eqn:Hrun|].
  + destruct Hstep as (Herr & _). exists l. rewrite Herrors, Herr.
    split; [done|]. split; [by apply sublist_cons|].
    intros name. rewrite Hnames. split.
    * intros (g' & msg & ? & ? & ?). exists g', msg.
      rewrite fails_in_cons. auto.
    * intros (g' & msg & ? & [[-> Hfail]|?]%fails_in_cons & ?);
        [congruence|]. by exists g', msg.
  + destruct Hstep as (Herr & _). exists (ArchiveName g :: l).
    rewrite Herrors, Herr, <- app_assoc.
    split; [done|]. split; [by apply sublist_skip|].
    intros name. rewrite elem_of_cons, Hnames. split.
    * intros [->|(g' & msg' & ? & ? & ?)].
      -- exists g, msg. rewrite fails_in_cons. auto.
      -- exists g', msg'. rewrite fails_in_cons. auto.
    * intros (g' & msg' & ? & [[-> Hfail]|?]%fails_in_cons & ?); [by left|].
      right. by exists g', msg'.
  + destruct Hstep as (Herr & _). exists l. rewrite Herrors, Herr.
    split; [done|]. split; [by apply sublist_cons|].
    intros name. rewrite Hnames. split.
    * intros (g' & msg & ? & ? & ?). exists g', msg.
      rewrite fails_in_cons. auto.
    * intros (g' & msg & ? & [[-> Hfail]|?]%fails_in_cons & ?);
        [congruence|]. by exists g', msg.
Qed.


Lemma loop_checksum_keys (groups : list ArchiveGroup) :
forall init,
  let final := foldl step init groups in
  forall k,
    is_Some (checksums final !! k) <->
    is_Some (checksums init !! k)
    \/ exists g, dirty g = true /\ succeeds_in env cfg step init groups g /\
                 ArchiveName g = k.
Proof.
induction groups as [|g groups IH]; intros init; cbv zeta; intros k.
- cbn [foldl]. split; [by left|].
  intros [?|(g & _ & ([|? ?] & post & Heq & _) & _)]; [done|discriminate..].
- cbn [foldl]. rewrite (IH (step init g) k).
  pose proof (step_outcome init g) as Hstep. cbv zeta in Hstep.
  destruct (dirty g) eqn:Hdirty;
    [destruct (processArchiveGroup env cfg g init).1 as [[]|msg] eqn:Hrun|].
  + destruct Hstep as (_ & [h ->] & _). rewrite lookup_insert_is_Some'. split.
    * intros [[<-|?]|(g' & ? & ? & ?)].
      -- right. exists g. split; [done|]. split; [|done].
         apply succeeds_in_cons. left. by rewrite Hrun.
      -- by left.
      -- right. exists g'. split; [done|]. split; [|done].
         apply succeeds_in_cons. by right.
    * intros [?|(g' & ? & [[-> _]|?]%succeeds_in_cons & ?)]; [by left; right| |].
      -- left. by left.
      -- right. by exists g'.
  + destruct Hstep as (_ & -> & _). split.
    * intros [?|(g' & ? & ? & ?)]; [by left|].
      right. exists g'. split; [done|]. split; [|done].
      apply succeeds_in_cons. by right.
    * intros [?|(g' & ? & [[-> Hok]|?]%succeeds_in_cons & ?)]; [by left| |].
      -- rewrite Hrun in Hok. discriminate.
      -- right. by exists g'.
  + destruct Hstep as (_ & -> & _). split.
    * intros [?|(g' & ? & ? & ?)]; [by left|].
      right. exists g'. split; [done|]. split; [|done].
      apply succeeds_in_cons. by right.
    * intros [?|(g' & ? & [[-> Hok]|?]%succeeds_in_cons & ?)]; [by left| |].
      -- congruence.
      -- right. by exists g'.
Qed.

End LoopOutcomes.

(** * Further properties of the results of a run *)

Section RunOutcomes.
Import backup.
Variables (env : Env) (cfg : Config.t).

Lemma fullStep_is_step (st : RunState) (g : ArchiveGroup) :
fullStep env cfg st g
= if (fun _ : ArchiveGroup => true) g then fullStep env cfg st g
  else set_res (setDetail (ArchiveName g) "unchanged, skipped")
         (set_res incSkipped st).
Proof. reflexivity. Qed.

Lemma incrementalStep_is_step (st : RunState) (g : ArchiveGroup) :
incrementalStep env cfg st g
= if NeedsUpdate g then fullStep env cfg st g
  else set_res (setDetail (ArchiveName g) "unchanged, skipped")
         (set_res incSkipped st).
Proof. reflexivity. Qed.

(** X15. [ErrorArchives] lists the failed groups and nothing else: in the
  result of a run, a name is in [ErrorArchives] exactly when it is the
  archive name of a group whose processing returned an error (in an
  incremental run, a dirty group), and the names come in processing
  order, each at most once. *)
Theorem X15_error_list_names_the_failed_groups (w : World)
  (result : BackupResult) (w' : World) :
(RunFullBackup env cfg w = (Ok result, w') ->
 exists groups,
   fullGroups env cfg = Ok groups /\
   sublist (ErrorArchives result) (ArchiveName <$> groups) /\
   forall name,
     name ∈ ErrorArchives result <->
     exists g msg,
       fails_in env cfg (fullStep env cfg) (fullInit w) groups g msg /\
       ArchiveName g = name)
/\ (RunIncrementalBackup env cfg w = (Ok result, w') ->
    exists old tree groups,
      loadRemoteMetadata env cfg w = Ok old /\
      scanner.ScanFileTree (Config.ChunkPath cfg) (chunk_root env) = Ok tree /\
      incrementalGroups env old tree = Ok groups /\
      sublist (ErrorArchives result) (ArchiveName <$> groups) /\
      forall name,
        name ∈ ErrorArchives result <->
        exists g msg,
          NeedsUpdate g = true /\
          fails_in env cfg (incrementalStep env cfg) (incrementalInit old w)
            groups g msg /\
          ArchiveName g = name).
Proof.
split.
- intros Hrun.
  apply RunFullBackup_Ok in Hrun as (tree & groups & _ & Hgroups & Hpersist).
  apply persist_Ok in Hpersist as (-> & _).
  exists groups. split; [done|]. cbn [ErrorArchives finishResult].
  destruct (loop_error_names env cfg (fullStep env cfg) (fun _ => true)
              fullStep_is_step groups (fullInit w))
    as (l & -> & Hsub & Hnames).
  cbn [fullInit res emptyResult ErrorArchives app]. split; [done|].
  intros name. rewrite Hnames. split.
  + intros (g & msg & _ & ? & ?). by exists g, msg.
  + intros (g & msg & ? & ?). by exists g, msg.
- intros Hrun.
  apply RunIncrementalBackup_Ok in Hrun
    as (old & tree & groups & Hload & Hscan & Hgroups & Hpersist).
  apply persist_Ok in Hpersist as (-> & _).
  exists old, tree, groups. do 3 (split; [done|]).
  cbn [ErrorArchives finishResult].
  destruct (loop_error_names env cfg (incrementalStep env cfg) NeedsUpdate
              incrementalStep_is_step groups (incrementalInit old w)) as (l & -> & Hsub & Hnames).
  cbn [incrementalInit res emptyResult ErrorArchives app]. done.
Qed.


(** X17. One detail line per group: the keys of [Details] are exactly the
  archive names of the groups of the run, so [Details] has
  [TotalArchives] entries. *)
Theorem X17_one_detail_per_group (w : World) (result : BackupResult) (w' : World) :
RunFullBackup env cfg w = (Ok result, w')
\/ RunIncrementalBackup env cfg w = (Ok result, w') ->
exists groups,
  (fullGroups env cfg = Ok groups
   \/ exists old tree,
        loadRemoteMetadata env cfg w = Ok old /\
        scanner.ScanFileTree (Config.ChunkPath cfg) (chunk_root env) = Ok tree /\
        incrementalGroups env old tree = Ok groups) /\
  TotalArchives result = Z.of_nat (length groups) /\
  (forall k, is_Some (Details result !! k) <-> k ∈ ArchiveName <$> groups) /\
  Z.of_nat (size (Details result)) = TotalArchives result.
Proof.
assert (forall (step : RunState -> ArchiveGroup -> RunState) (init : RunState)
               (groups : list ArchiveGroup),
          (forall st g, step_effect (ArchiveName g) st (step st g)) ->
          res init = emptyResult ->
          NoDup (ArchiveName <$> groups) ->
          let result :=
            finishResult (Z.of_nat (length groups)) (time_Since env)
              (res (foldl step init groups)) in
          TotalArchives result = Z.of_nat (length groups) /\
          (forall k, is_Some (Details result !! k) <-> k ∈ ArchiveName <$> groups) /\
          Z.of_nat (size (Details result)) = TotalArchives result) as Hloop.
{ intros step init groups Hstep Hinit Hnodup. cbv zeta.
  cbn [TotalArchives Details finishResult].
  assert (forall k, is_Some (Details (res (foldl step init groups)) !! k)
                    <-> k ∈ ArchiveName <$> groups) as Hkeys.
  { intros k. split.
    - intros Hk. destruct (decide (k ∈ ArchiveName <$> groups)) as [|Hnot]; [done|].
      destruct (loop_frame step Hstep groups init k Hnot) as [_ Hsame].
      rewrite Hsame, Hinit in Hk. cbn in Hk. rewrite lookup_empty in Hk.
      by destruct Hk.
    - intros (g & -> & Hg)%list_elem_of_fmap.
      by apply (loop_every_group step Hstep). }
  split; [done|]. split; [done|].
  rewrite <- size_dom.
  assert (dom (Details (res (foldl step init groups)))
          = list_to_set (ArchiveName <$> groups)) as ->.
  { apply set_eq. intros k. rewrite elem_of_dom, elem_of_list_to_set. apply Hkeys. }
  rewrite size_list_to_set by done. by rewrite length_fmap. }
intros [Hrun|Hrun].
- apply RunFullBackup_Ok in Hrun as (tree & groups & _ & Hgroups & Hpersist).
  apply persist_Ok in Hpersist as (-> & _).
  exists groups. split; [by left|].
  apply Hloop; [apply fullStep_effect|reflexivity|].
  by apply (fullGroups_names_NoDup env cfg).
- apply RunIncrementalBackup_Ok in Hrun
    as (old & tree & groups & Hload & Hscan & Hgroups & Hpersist).
  apply persist_Ok in Hpersist as (-> & _).
  exists groups. split; [right; by exists old, tree|].
  apply Hloop; [apply incrementalStep_effect|reflexivity|].
  by apply (incrementalGroups_names_NoDup env old tree).
Qed.

Lemma split_at_name (groups pre pre' post post' : list ArchiveGroup)
  (g g' : ArchiveGroup) :
NoDup (ArchiveName <$> groups) ->
groups = pre ++ g :: post -> groups = pre' ++ g' :: post' ->
ArchiveName g = ArchiveName g' -> pre = pre' /\ g = g'.
Proof.
intros Hnodup -> Heq Hname. revert pre' Heq Hnodup.
induction pre as [|a pre IH]; intros [|a' pre'] Heq Hnodup; cbn [app] in *.
- by injection Heq as ->.
- injection Heq as -> ->. rewrite fmap_cons in Hnodup.
  apply NoDup_cons in Hnodup as [Hnot _]. exfalso. apply Hnot.
  rewrite Hname, fmap_app, fmap_cons. apply elem_of_app. right.
  apply list_elem_of_here.
- injection Heq as <- <-. rewrite fmap_cons in Hnodup.
  apply NoDup_cons in Hnodup as [Hnot _]. exfalso. apply Hnot.
  rewrite <- Hname, fmap_app, fmap_cons. apply elem_of_app. right.
  apply list_elem_of_here.
- injection Heq as <- Heq. rewrite fmap_cons in Hnodup.
  apply NoDup_cons in Hnodup as [_ Hnodup].
  destruct (IH pre' Heq Hnodup) as [-> ->]. done.
Qed.

(** X18. A full run rebuilds the checksum map from nothing: the metadata
  it stores has a checksum for exactly the groups that were processed
  without error.  Every group of the run is therefore either recorded
  with a checksum or listed in [ErrorArchives], never both. *)
Theorem X18_full_run_checksums (w : World) (result : BackupResult) (w' : World) :
RunFullBackup env cfg w = (Ok result, w') ->
exists groups blob metadata,
  fullGroups env cfg = Ok groups /\
  remote w' !! metadataRemotePath cfg = Some blob /\
  json blob = Some metadata /\
  (forall k, is_Some (Checksums metadata !! k) <->
     exists g, succeeds_in env cfg (fullStep env cfg) (fullInit w) groups g /\
               ArchiveName g = k) /\
  (forall g, g ∈ groups ->
     (is_Some (Checksums metadata !! ArchiveName g) /\
      ArchiveName g ∉ ErrorArchives result)
     \/ (Checksums metadata !! ArchiveName g = None /\
         ArchiveName g ∈ ErrorArchives result)).
Proof.
intros Hrun.
apply RunFullBackup_Ok in Hrun as (tree & groups & _ & Hgroups & Hpersist).
apply persist_Ok in Hpersist as (-> & blob & Hblob & Hjson).
exists groups, blob. eexists. do 3 (split; [done|]).
cbn [Checksums ErrorArchives finishResult].
pose proof (fullGroups_names_NoDup env cfg groups Hgroups) as Hnodup.
assert (forall k,
          is_Some (checksums (foldl (fullStep env cfg) (fullInit w) groups) !! k)
          <-> exists g, succeeds_in env cfg (fullStep env cfg) (fullInit w) groups g
                        /\ ArchiveName g = k) as Hkeys.
{ intros k.
  rewrite (loop_checksum_keys env cfg (fullStep env cfg) (fun _ => true)
             fullStep_is_step groups (fullInit w) k).
  cbn [fullInit checksums]. rewrite lookup_empty. split.
  - intros [[? [=]]|(g & _ & ? & ?)]. by exists g.
  - intros (g & ? & ?). right. by exists g. }
split; [exact Hkeys|].
intros g Hg. apply list_elem_of_split in Hg as (pre & post & Hsplit).
destruct (processArchiveGroup env cfg g
            (foldl (fullStep env cfg) (fullInit w) pre)).1 as [[]|msg] eqn:Hout.
- left. split.
  + apply Hkeys. exists g. split; [|done]. exists pre, post. by rewrite Hout.
  + destruct (loop_error_names env cfg (fullStep env cfg) (fun _ => true)
                fullStep_is_step groups (fullInit w)) as (l & -> & _ & Hnames).
    cbn [fullInit res emptyResult ErrorArchives app].
    rewrite Hnames. intros (g' & msg & _ & (pre' & post' & Hsplit' & Hfail) & Hname).
    destruct (split_at_name groups pre' pre post' post g' g Hnodup Hsplit' Hsplit
                Hname) as [-> ->].
    congruence.
- right.
  destruct (failed_group_in_loop env cfg (fullStep env cfg) (fullInit w) groups g msg)
    as (Herr & _ & Hsum); try done.
  + apply fullStep_effect.
  + by exists pre, post.
Qed.

(** X19. An incremental run never drops a checksum: every name that had a
  checksum in the loaded metadata still has one in the metadata the run
  stores; the entries of names that belong to no current group and of
  groups that are not dirty are carried over unchanged. *)
Theorem X19_incremental_run_checksums (w : World) (result : BackupResult)
  (w' : World) :
RunIncrementalBackup env cfg w = (Ok result, w') ->
exists old tree groups blob metadata,
  loadRemoteMetadata env cfg w = Ok old /\
  scanner.ScanFileTree (Config.ChunkPath cfg) (chunk_root env) = Ok tree /\
  incrementalGroups env old tree = Ok groups /\
  remote w' !! metadataRemotePath cfg = Some blob /\
  json blob = Some metadata /\
  (forall k, is_Some (Checksums old !! k) -> is_Some (Checksums metadata !! k)) /\
  (forall k, k ∉ ArchiveName <$> groups ->
             Checksums metadata !! k = Checksums old !! k) /\
  (forall g, g ∈ groups -> NeedsUpdate g = false ->
             Checksums metadata !! ArchiveName g = Checksums old !! ArchiveName g).
Proof.
intros Hrun.
apply RunIncrementalBackup_Ok in Hrun
  as (old & tree & groups & Hload & Hscan & Hgroups & Hpersist).
apply persist_Ok in Hpersist as (-> & blob & Hblob & Hjson).
exists old, tree, groups, blob. eexists. do 5 (split; [done|]).
cbn [Checksums].
pose proof (incrementalGroups_names_NoDup env old tree groups Hgroups) as Hnodup.
split; [|split].
- intros k Hk.
  apply (loop_checksum_keys env cfg (incrementalStep env cfg) NeedsUpdate
           incrementalStep_is_step groups (incrementalInit old w) k).
  by left.
- intros k Hk.
  by destruct (loop_frame (incrementalStep env cfg)
                 (incrementalStep_effect env cfg) groups (incrementalInit old w)
                 k Hk) as [-> _].
- intros g Hg Hclean. apply list_elem_of_split in Hg as (pre & post & ->).
  destruct (loop_at (incrementalStep env cfg) (incrementalStep_effect env cfg)
              pre post g (incrementalInit old w) Hnodup) as (Hbefore & -> & _).
  unfold incrementalStep at 1. rewrite Hclean. cbn [checksums set_res].
  exact Hbefore.
Qed.

End RunOutcomes.

Lemma X15_witness :
  exists result w' groups g msg,
    backup.RunFullBackup (sample_env sample_chunks archive_upload_fault)
      sample_cfg empty_world = (Ok result, w') /\
    fullGroups (sample_env sample_chunks archive_upload_fault) sample_cfg
    = Ok groups /\
    fails_in (sample_env sample_chunks archive_upload_fault) sample_cfg
      (backup.fullStep (sample_env sample_chunks archive_upload_fault) sample_cfg)
      (fullInit empty_world) groups g msg /\
    ArchiveName g = "0100-01ff.tar.gz".
Proof.
  destruct (backup.RunFullBackup (sample_env sample_chunks archive_upload_fault)
              sample_cfg empty_world) as [[result|msg] w'] eqn:Hrun;
    [|outcome_succeeds Hrun].
  destruct (X15_error_list_names_the_failed_groups
              (sample_env sample_chunks archive_upload_fault) sample_cfg
              empty_world result w') as [Hfull _].
  destruct (Hfull Hrun) as (groups & Hgroups & _ & Hnames).
  destruct (Hnames "0100-01ff.tar.gz") as [Hfails _].
  destruct Hfails as (g & msg & Hfail & Hname).
  - assert (match (backup.RunFullBackup
                      (sample_env sample_chunks archive_upload_fault) sample_cfg
                      empty_world).1 with
            | Ok r => ErrorArchives r
            | Err _ => []
            end = ["0100-01ff.tar.gz"]) as Herrors by (vm_compute; reflexivity).
    rewrite Hrun in Herrors. cbn [fst] in Herrors. rewrite Herrors.
    apply list_elem_of_here.
  - exists result, w', groups, g, msg. auto.
Defined.


Lemma X17_witness :
  exists result w',
    backup.RunFullBackup (sample_env sample_chunks no_fault) sample_cfg empty_world
    = (Ok result, w') /\
    Z.of_nat (size (Details result)) = TotalArchives result.
Proof.
  destruct (backup.RunFullBackup (sample_env sample_chunks no_fault) sample_cfg
              empty_world) as [[result|msg] w'] eqn:Hrun;
    [|outcome_succeeds Hrun].
  exists result, w'. split; [reflexivity|].
  destruct (X17_one_detail_per_group _ _ _ _ _ (or_introl Hrun))
    as (groups & _ & _ & _ & Hsize).
  exact Hsize.
Defined.

Lemma X18_witness :
  exists result w' blob metadata,
    backup.RunFullBackup (sample_env sample_chunks archive_upload_fault)
      sample_cfg empty_world = (Ok result, w') /\
    remote w' !! metadataRemotePath sample_cfg = Some blob /\
    json blob = Some metadata.
Proof.
  destruct (backup.RunFullBackup (sample_env sample_chunks archive_upload_fault)
              sample_cfg empty_world) as [[result|msg] w'] eqn:Hrun;
    [|outcome_succeeds Hrun].
  destruct (X18_full_run_checksums _ _ _ _ _ Hrun)
    as (groups & blob & metadata & _ & Hblob & Hjson & _).
  exists result, w', blob, metadata. auto.
Defined.

Lemma X19_witness :
  exists result w' old blob metadata,
    backup.RunIncrementalBackup (sample_env changed_chunks no_fault) sample_cfg
      (world_with_metadata 1) = (Ok result, w') /\
    backup.loadRemoteMetadata (sample_env changed_chunks no_fault) sample_cfg
      (world_with_metadata 1) = Ok old /\
    remote w' !! metadataRemotePath sample_cfg = Some blob /\
    json blob = Some metadata /\
    forall k, is_Some (Checksums old !! k) -> is_Some (Checksums metadata !! k).
Proof.
  destruct (backup.RunIncrementalBackup (sample_env changed_chunks no_fault)
              sample_cfg (world_with_metadata 1)) as [[result|msg] w'] eqn:Hrun;
    [|outcome_succeeds Hrun].
  destruct (X19_incremental_run_checksums _ _ _ _ _ Hrun)
    as (old & tree & groups & blob & metadata & Hload & _ & _ & Hblob & Hjson
        & Hkept & _).
  exists result, w', old, blob, metadata. auto.
Defined.

(** * Further properties of a whole run *)

Lemma persist_Ok_world (env : Env) (cfg : Config.t) (prefixDigits : Z)
    (fileTree : gmap string FileTreeNode) (groups : list ArchiveGroup)
    (st : backup.RunState) (result : BackupResult) (w' : World) :
  backup.persist env cfg prefixDigits fileTree groups st = (Ok result, w') ->
  let metadata := {| Version := backup.MetadataVersion;
                     PrefixDigits := prefixDigits;
                     BackupTime := time_Now env;
                     FileTree := fileTree;
                     Checksums := backup.checksums st |} in
  let document := {| bytes := json_MarshalIndent env metadata;
                     json := Some metadata |} in
  w' = set_remote <[metadataRemotePath cfg := document]>
         (set_temp <[metadataLocalPath cfg := document]> (backup.world st)).
Proof.
  unfold backup.persist, backup.saveAndUploadMetadata, storage.UploadFile.
  fold (metadataLocalPath cfg). fold (metadataRemotePath cfg).
  destruct (fault env OpMarshal); [discriminate|].
  destruct (fault env (OpWrite (metadataLocalPath cfg))); [discriminate|].
  destruct (fault env (OpUpload (metadataLocalPath cfg) (metadataRemotePath cfg)));
    [discriminate|].
  cbn [temp set_temp]. rewrite lookup_insert_eq. by intros [= <- <-].
Qed.




(** X21. A run that fails before its loop changes nothing.  Without a
    metadata document on remote storage an incremental run returns the
    error that asks for a full backup; and whenever loading, scanning,
    listing or grouping fails, remote storage and the scratch directory
    are left as they were. *)
Theorem X21_early_failure_changes_nothing (env : Env) (cfg : Config.t) (w : World) :
  (remote w !! metadataRemotePath cfg = None ->
   fault env (OpExists (metadataRemotePath cfg)) = None ->
   backup.RunIncrementalBackup env cfg w
   = (Err "failed to load previous backup metadata: no previous backup metadata found, use full backup mode",
      w))
  /\ (is_Ok (scanner.ScanFileTree (Config.ChunkPath cfg) (chunk_root env))
      && is_Ok (fullGroups env cfg) = false ->
      is_Ok (backup.RunFullBackup env cfg w).1 = false /\
      (backup.RunFullBackup env cfg w).2 = w)
  /\ (match backup.loadRemoteMetadata env cfg w,
            scanner.ScanFileTree (Config.ChunkPath cfg) (chunk_root env) with
      | Ok old, Ok tree => is_Ok (incrementalGroups env old tree)
      | _, _ => false
      end = false ->
      is_Ok (backup.RunIncrementalBackup env cfg w).1 = false /\
      (backup.RunIncrementalBackup env cfg w).2 = w).
Proof.
  split; [|split].
  - intros Hnone Hexists.
    unfold backup.RunIncrementalBackup, backup.loadRemoteMetadata, storage.FileExists.
    fold (metadataRemotePath cfg). rewrite Hexists, Hnone.
    rewrite bool_decide_eq_false_2; [reflexivity|]. by intros [? [=]].
  - unfold backup.RunFullBackup, fullGroups.
    destruct (scanner.ScanFileTree _ _) as [tree|]; [|done].
    destruct (scanner.GetChunkDirectories _) as [dirs|]; [|done].
    destruct (archiver.GenerateArchiveGroups _ _) as [groups|]; [|done].
    discriminate.
  - unfold backup.RunIncrementalBackup, incrementalGroups.
    destruct (backup.loadRemoteMetadata env cfg w) as [old|]; [|done].
    destruct (scanner.ScanFileTree _ _) as [tree|]; [|done].
    destruct (scanner.GetChunkDirectories _) as [dirs|]; [|done].
    destruct (archiver.GenerateArchiveGroups _ _) as [groups|]; [|done].
    discriminate.
Qed.

Lemma X21_witness :
  backup.RunIncrementalBackup (sample_env sample_chunks no_fault) sample_cfg
    empty_world
  = (Err "failed to load previous backup metadata: no previous backup metadata found, use full backup mode",
     empty_world).
Proof.
  apply (X21_early_failure_changes_nothing (sample_env sample_chunks no_fault)
           sample_cfg empty_world); reflexivity.
Defined.

(** X22. An incremental run groups by the prefix digits of the loaded
    metadata and stores them again; the prefix digits of the
    configuration play no part in it. *)
Theorem X22_incremental_run_keeps_prefix_digits (env : Env) (cfg : Config.t)
    (w : World) :
  (forall prefixDigits,
     backup.RunIncrementalBackup env
       {| Config.ChunkPath := Config.ChunkPath cfg;
          Config.RemotePath := Config.RemotePath cfg;
          Config.TempPath := Config.TempPath cfg;
          Config.PrefixDigits := prefixDigits |} w
     = backup.RunIncrementalBackup env cfg w)
  /\ (forall result w',
        backup.RunIncrementalBackup env cfg w = (Ok result, w') ->
        exists old blob metadata,
          backup.loadRemoteMetadata env cfg w = Ok old /\
          remote w' !! metadataRemotePath cfg = Some blob /\
          json blob = Some metadata /\
          PrefixDigits metadata = PrefixDigits old /\
          1 <= PrefixDigits old <= 4).
Proof.
  split.
  - intros prefixDigits. reflexivity.
  - intros result w' Hrun.
    apply RunIncrementalBackup_Ok in Hrun
      as (old & tree & groups & Hload & _ & Hgroups & Hpersist).
    apply persist_Ok in Hpersist as (_ & blob & Hblob & Hjson).
    exists old, blob. eexists. do 3 (split; [done|]).
    split; [reflexivity|].
    unfold incrementalGroups, archiver.GenerateArchiveGroups in Hgroups.
    destruct (scanner.GetChunkDirectories _); [|discriminate].
    destruct ((PrefixDigits old <? 1) || (PrefixDigits old >? 4)) eqn:Hrange;
      [discriminate|]. lia.
Qed.

Lemma X22_witness :
  exists result w' old,
    backup.RunIncrementalBackup (sample_env changed_chunks no_fault) sample_cfg
      (world_with_metadata 1) = (Ok result, w') /\
    backup.loadRemoteMetadata (sample_env changed_chunks no_fault) sample_cfg
      (world_with_metadata 1) = Ok old /\
    1 <= PrefixDigits old <= 4.
Proof.
  destruct (backup.RunIncrementalBackup (sample_env changed_chunks no_fault)
              sample_cfg (world_with_metadata 1)) as [[result|msg] w'] eqn:Hrun;
    [|outcome_succeeds Hrun].
  destruct (X22_incremental_run_keeps_prefix_digits
              (sample_env changed_chunks no_fault) sample_cfg
              (world_with_metadata 1)) as [_ Hkept].
  destruct (Hkept result w' Hrun) as (old & blob & metadata & Hload & _ & _ & _ & Hrange).
  exists result, w', old. auto.
Defined.

(** Which groups an incremental run marks. *)
Lemma incrementalGroups_dirty (env : Env) (chunkPath : string)
    (old : BackupMetadata) (tree : gmap string FileTreeNode)
    (groups : list ArchiveGroup) (g : ArchiveGroup) :
  scanner.ScanFileTree chunkPath (chunk_root env) = Ok tree ->
  incrementalGroups env old tree = Ok groups ->
  g ∈ groups ->
  (forall d, d ∈ Directories g -> is_Some (tree !! d)) /\
  (NeedsUpdate g = true <->
   exists d n, d ∈ Directories g /\ tree !! d = Some n /\
     match FileTree old !! d with
     | None => True
     | Some o => scanner.hasTreeChanged o n = true
     end).
Proof.
  intros Hscan Hgroups Hg. unfold incrementalGroups in Hgroups.
  destruct (ScanFileTree_listing _ _ _ Hscan)
    as (entries & dirs & _ & Hdirs & _ & _ & Hkeys & _).
  rewrite Hdirs in Hgroups.
  destruct (archiver.GenerateArchiveGroups dirs (PrefixDigits old))
    as [groups0|] eqn:Hgen; [|discriminate].
  injection Hgroups as <-.
  apply list_elem_of_fmap in Hg as (g0 & -> & Hg0).
  pose proof (GenerateArchiveGroups_not_marked _ _ _ _ Hgen Hg0) as Hclean.
  assert (forall d, d ∈ Directories g0 -> is_Some (tree !! d)) as Hpresent.
  { intros d Hd. apply Hkeys.
    by destruct (GenerateArchiveGroups_members _ _ _ _ _ Hgen Hg0 Hd). }
  assert (Directories (archiver.markGroup
                         (scanner.CompareFileTrees (FileTree old) tree) g0)
          = Directories g0) as Hsame.
  { unfold archiver.markGroup. by destruct (existsb _ _). }
  rewrite Hsame. split; [exact Hpresent|].
  assert (NeedsUpdate (archiver.markGroup
                         (scanner.CompareFileTrees (FileTree old) tree) g0)
          = existsb (archiver.isChanged
                       (scanner.CompareFileTrees (FileTree old) tree))
              (Directories g0)) as ->.
  { unfold archiver.markGroup. by destruct (existsb _ _). }
  rewrite existsb_exists. split.
  - intros (d & Hd%list_elem_of_In & Hchanged).
    destruct (Hpresent d Hd) as [n Hn]. exists d, n. do 2 (split; [done|]).
    unfold archiver.isChanged in Hchanged.
    destruct (scanner.CompareFileTrees (FileTree old) tree !! d) as [b|] eqn:Hlookup;
      [|discriminate].
    apply CompareFileTrees_lookup in Hlookup
      as [_ [[_ ->]|[[_ Hgone]|(p & c & -> & Hc & Hne)]]]; [done|congruence|].
    assert (c = n) as -> by congruence.
    destruct (scanner.hasTreeChanged p n) eqn:Hchange; [done|].
    by apply hasTreeChanged_false_iff in Hchange.
  - intros (d & n & Hd & Hn & Hold). exists d. split; [by apply list_elem_of_In|].
    unfold archiver.isChanged.
    assert (scanner.CompareFileTrees (FileTree old) tree !! d = Some true) as ->;
      [|reflexivity].
    apply CompareFileTrees_lookup. split; [done|].
    destruct (FileTree old !! d) as [o|] eqn:Ho.
    + right; right. exists o, n. do 2 (split; [done|]).
      intros Heq%hasTreeChanged_false_iff. congruence.
    + left. split; [by eexists|done].
Qed.

(** X23. Which groups an incremental run rebuilds.  A group is marked
    dirty exactly when one of its members is new (absent from the previous
    snapshot) or modified ([hasTreeChanged] against its previous node).
    Every member of a group is a shard of the current snapshot, so a shard
    that was removed since the previous run marks no group. *)
Theorem X23_dirty_iff_a_member_is_new_or_modified (env : Env)
    (chunkPath : string) (old : BackupMetadata)
    (tree : gmap string FileTreeNode) (groups : list ArchiveGroup)
    (g : ArchiveGroup) :
  scanner.ScanFileTree chunkPath (chunk_root env) = Ok tree ->
  incrementalGroups env old tree = Ok groups ->
  g ∈ groups ->
  (forall d, d ∈ Directories g -> is_Some (tree !! d)) /\
  (NeedsUpdate g = true <->
   exists d n, d ∈ Directories g /\ tree !! d = Some n /\
     match FileTree old !! d with
     | None => True
     | Some o => scanner.hasTreeChanged o n = true
     end).
Proof. apply incrementalGroups_dirty. Qed.

(** X24. Removing shards triggers no upload.  When every shard of the
    current snapshot is in the previous snapshot and unchanged, an
    incremental run skips every group, whatever shards have disappeared
    in between: nothing is archived or uploaded except the metadata
    document, which records the current snapshot; the archives on remote
    storage stay as they are. *)
Theorem X24_removed_shards_trigger_no_upload (env : Env) (cfg : Config.t)
    (w : World) (result : BackupResult) (w' : World) (old : BackupMetadata)
    (tree : gmap string FileTreeNode) :
  backup.RunIncrementalBackup env cfg w = (Ok result, w') ->
  backup.loadRemoteMetadata env cfg w = Ok old ->
  scanner.ScanFileTree (Config.ChunkPath cfg) (chunk_root env) = Ok tree ->
  (forall d n, tree !! d = Some n ->
     exists o, FileTree old !! d = Some o /\ scanner.hasTreeChanged o n = false) ->
  UpdatedArchives result = 0 /\
  SkippedArchives result = TotalArchives result /\
  ErrorArchives result = [] /\ UploadedFiles result = [] /\
  exists document metadata,
    json document = Some metadata /\
    FileTree metadata = tree /\ Checksums metadata = Checksums old /\
    remote w' = <[metadataRemotePath cfg := document]> (remote w).
Proof.
  intros Hrun Hload Hscan Hsame.
  apply RunIncrementalBackup_Ok in Hrun
    as (old' & tree' & groups & Hload' & Hscan' & Hgroups & Hpersist).
  assert (old' = old) as -> by congruence.
  assert (tree' = tree) as -> by congruence.
  assert (forall g, g ∈ groups -> NeedsUpdate g = false) as Hclean.
  { intros g Hg. destruct (NeedsUpdate g) eqn:Hdirty; [|done].
    destruct (incrementalGroups_dirty _ _ _ _ _ _ Hscan Hgroups Hg) as [_ Hiff].
    apply Hiff in Hdirty as (d & n & _ & Hn & Hchanged).
    destruct (Hsame d n Hn) as (o & Ho & Hunchanged).
    rewrite Ho in Hchanged. congruence. }
  destruct (loop_all_skipped env cfg groups (incrementalInit old w) Hclean)
    as (Hupdated & Hskipped & Herrors & Huploaded & Hworld & Hchecksums).
  pose proof (persist_Ok_world _ _ _ _ _ _ _ _ Hpersist) as Hw'.
  apply persist_Ok in Hpersist as (-> & _).
  cbv zeta in Hw'. subst w'.
  cbn [UpdatedArchives SkippedArchives TotalArchives ErrorArchives UploadedFiles
       backup.finishResult].
  rewrite Hupdated, Hskipped, Herrors, Huploaded, Hworld, Hchecksums.
  cbn [incrementalInit backup.res backup.world backup.checksums backup.emptyResult
       UpdatedArchives SkippedArchives ErrorArchives UploadedFiles].
  split; [done|]. split; [lia|]. split; [done|]. split; [done|].
  eexists. eexists. split; [|split; [|split]].
  4: { cbn [remote set_remote set_temp]. reflexivity. }
  all: reflexivity.
Qed.

Lemma X24_witness :
  exists result w',
    backup.RunIncrementalBackup (sample_env one_shard no_fault) sample_cfg
      world_after_two_shards = (Ok result, w') /\
    UploadedFiles result = [] /\ SkippedArchives result = TotalArchives result.
Proof.
  destruct (backup.RunIncrementalBackup (sample_env one_shard no_fault)
              sample_cfg world_after_two_shards) as [[result|msg] w'] eqn:Hrun;
    [|outcome_succeeds Hrun].
  destruct (backup.loadRemoteMetadata (sample_env one_shard no_fault)
              sample_cfg world_after_two_shards) as [old|msg] eqn:Hload;
    [|call_succeeds Hload].
  destruct (scanner.ScanFileTree (Config.ChunkPath sample_cfg)
              (chunk_root (sample_env one_shard no_fault))) as [tree|msg]
    eqn:Hscan; [|call_succeeds Hscan].
  destruct (X24_removed_shards_trigger_no_upload _ _ _ _ _ _ _ Hrun Hload Hscan)
    as (_ & Hskipped & _ & Huploaded & _).
  - assert (forallb
              (fun entry : string * FileTreeNode =>
                 negb (from_option (fun o => scanner.hasTreeChanged o entry.2) true
                         (FileTree old !! entry.1)))
              (map_to_list tree) = true) as Hall.
    { assert (match backup.loadRemoteMetadata (sample_env one_shard no_fault)
                      sample_cfg world_after_two_shards,
                    scanner.ScanFileTree (Config.ChunkPath sample_cfg)
                      (chunk_root (sample_env one_shard no_fault)) with
              | Ok old, Ok tree =>
                  forallb
                    (fun entry : string * FileTreeNode =>
                       negb (from_option
                               (fun o => scanner.hasTreeChanged o entry.2) true
                               (FileTree old !! entry.1)))
                    (map_to_list tree)
              | _, _ => false
              end = true) as Hvalue by (vm_compute; reflexivity).
      by rewrite Hload, Hscan in Hvalue. }
    intros d n Hn. rewrite forallb_forall in Hall.
    apply elem_of_map_to_list, list_elem_of_In in Hn.
    specialize (Hall (d, n) Hn). cbn [fst snd] in Hall.
    destruct (FileTree old !! d) as [o|]; [|discriminate].
    exists o. split; [reflexivity|]. by apply negb_true_iff in Hall.
  - exists result, w'. auto.
Defined.

Lemma X23_witness :
  exists tree groups,
    scanner.ScanFileTree "/chunk" (Some one_shard) = Ok tree /\
    incrementalGroups (sample_env one_shard no_fault)
      {| Version := 1; PrefixDigits := 2; BackupTime := 50; FileTree := ∅;
         Checksums := ∅ |} tree = Ok groups /\
    forall g, g ∈ groups -> forall d, d ∈ Directories g -> is_Some (tree !! d).
Proof.
  destruct (scanner.ScanFileTree "/chunk" (Some one_shard)) as [tree|msg]
    eqn:Hscan; [|call_succeeds Hscan].
  destruct (incrementalGroups (sample_env one_shard no_fault)
              {| Version := 1; PrefixDigits := 2; BackupTime := 50; FileTree := ∅;
                 Checksums := ∅ |} tree) as [groups|msg] eqn:Hgroups.
  2:{ exfalso.
      assert (match scanner.ScanFileTree "/chunk" (Some one_shard) with
              | Ok tree =>
                  is_Ok (incrementalGroups (sample_env one_shard no_fault)
                           {| Version := 1; PrefixDigits := 2; BackupTime := 50;
                              FileTree := ∅; Checksums := ∅ |} tree)
              | Err _ => false
              end = true) as Hvalue by (vm_compute; reflexivity).
      rewrite Hscan, Hgroups in Hvalue. discriminate. }
  exists tree, groups. split; [reflexivity|]. split; [exact Hgroups|].
  intros g Hg.
  apply (X23_dirty_iff_a_member_is_new_or_modified
           (sample_env one_shard no_fault) "/chunk" _ tree groups g Hscan
           Hgroups Hg).
Defined.

(** * Further properties of the storage calls and of the checksum record *)








(** * The layout of an archive *)

Lemma addDirectoryToTar_layout (n : FsNode) :
  forall file rel,
    (forall e, e ∈ (archiver.addDirectoryToTar file rel n).1 ->
               exists rest, te_name e = rel +:+ rest) /\
    ((archiver.addDirectoryToTar file rel n).2 = None ->
     exists e, e ∈ (archiver.addDirectoryToTar file rel n).1 /\ te_name e = rel).
Proof.
  induction n as [content mtime readable|mtime readable entries IH]
    using FsNode_entries_ind; intros file rel.
  - cbn [archiver.addDirectoryToTar].
    destruct readable; cbn [fst snd]; (split; [|intros Hok]).
    + intros e ->%list_elem_of_singleton. exists EmptyString.
      by rewrite string_app_empty_r.
    + eexists. split; [apply list_elem_of_here|reflexivity].
    + intros e ->%list_elem_of_singleton. exists EmptyString.
      by rewrite string_app_empty_r.
    + discriminate.
  - cbn [archiver.addDirectoryToTar].
    destruct readable; cbn [negb fst snd];
      [|split; [by intros e ?%elem_of_nil|discriminate]].
    set (header := {| te_name := rel; te_isDir := true; te_mtime := mtime;
                      te_data := None |}).
    assert (forall written,
              (forall e, e ∈ written -> exists rest, te_name e = rel +:+ rest) ->
              header ∈ written ->
              let out :=
                (fix each (es : list (string * FsNode)) (written : list TarEntry)
                   {struct es} : list TarEntry * option string :=
                   match es with
                   | [] => (written, None)
                   | (ename, e) :: es' =>
                       match archiver.addDirectoryToTar (filepath_Join file ename)
                               (rel +:+ "/" +:+ ename) e with
                       | (out, Some msg) => (written ++ out, Some msg)
                       | (out, None) => each es' (written ++ out)
                       end
                   end) entries written in
              (forall e, e ∈ out.1 -> exists rest, te_name e = rel +:+ rest) /\
              header ∈ out.1) as Hloop.
    { induction IH as [|[ename e] entries He _ IHentries]; intros written Hnames Hheader;
        cbv zeta; [done|].
      cbn [snd] in He.
      destruct (He (filepath_Join file ename) (rel +:+ "/" +:+ ename))
        as [Hsub _].
      assert (forall e', e' ∈ written ++
                           (archiver.addDirectoryToTar (filepath_Join file ename)
                              (rel +:+ "/" +:+ ename) e).1 ->
                         exists rest, te_name e' = rel +:+ rest) as Hnames'.
      { intros e' [He'|He']%elem_of_app; [by apply Hnames|].
        destruct (Hsub e' He') as [rest ->].
        exists (("/" +:+ ename) +:+ rest). by rewrite string_app_assoc. }
      destruct (archiver.addDirectoryToTar (filepath_Join file ename)
                  (rel +:+ "/" +:+ ename) e) as [out [msg|]]; cbn [fst snd] in *.
      - split; [done|]. apply elem_of_app. by left.
      - apply IHentries; [done|]. apply elem_of_app. by left. }
    destruct (Hloop [header]) as [Hnames Hheader].
    + intros e ->%list_elem_of_singleton. exists EmptyString.
      by rewrite string_app_empty_r.
    + apply list_elem_of_here.
    + split; [exact Hnames|]. intros _. by exists header.
Qed.

Lemma addMembers_layout (env : Env) (chunkPath : string) (dirs : list string) :
  forall written,
    let out := archiver.addMembers env chunkPath dirs written in
    (forall e, e ∈ out.1 ->
       e ∈ written \/ exists d rest, d ∈ dirs /\ te_name e = d +:+ rest) /\
    (forall e, e ∈ written -> e ∈ out.1) /\
    (out.2 = None ->
     forall d, d ∈ dirs -> present env chunkPath d = true ->
               exists e, e ∈ out.1 /\ te_name e = d).
Proof.
  induction dirs as [|dir dirs IH]; intros written; cbv zeta.
  - cbn [archiver.addMembers fst snd]. split; [by left|]. split; [done|].
    by intros _ d ?%elem_of_nil.
  - cbn [archiver.addMembers]. unfold present.
    destruct (archiver.statMember (chunk_root env) (filepath_Join chunkPath dir) dir)
      as [|msg|n] eqn:Hstat.
    + destruct (IH written) as (Hnames & Hkept & Htop). split; [|split].
      * intros e He. destruct (Hnames e He) as [?|(d & rest & ? & ?)]; [by left|].
        right. exists d, rest. split; [by apply list_elem_of_further|done].
      * done.
      * intros Hok d [->|Hd]%elem_of_cons Hpresent.
        -- unfold present in Hpresent. by rewrite Hstat in Hpresent.
        -- by apply Htop.
    + cbn [fst snd]. split; [by left|]. split; [done|]. discriminate.
    + destruct (addDirectoryToTar_layout n (filepath_Join chunkPath dir) dir)
        as [Hsub Hfirst].
      destruct (archiver.addDirectoryToTar (filepath_Join chunkPath dir) dir n)
        as [out [msg|]]; cbn [fst snd] in *.
      * split; [|split; [|discriminate]].
        -- intros e [?|He]%elem_of_app; [by left|].
           destruct (Hsub e He) as [rest ?]. right. exists dir, rest.
           split; [apply list_elem_of_here|done].
        -- intros e He. apply elem_of_app. by left.
      * destruct (IH (written ++ out)) as (Hnames & Hkept & Htop). split; [|split].
        -- intros e He.
           destruct (Hnames e He) as [[?|Hout]%elem_of_app|(d & rest & ? & ?)].
           ++ by left.
           ++ destruct (Hsub e Hout) as [rest ?]. right. exists dir, rest.
              split; [apply list_elem_of_here|done].
           ++ right. exists d, rest. split; [by apply list_elem_of_further|done].
        -- intros e He. apply Hkept, elem_of_app. by left.
        -- intros Hok d [->|Hd]%elem_of_cons Hpresent.
           ++ destruct (Hfirst eq_refl) as (e & He & Hname).
              exists e. split; [|done]. apply Hkept, elem_of_app. by right.
           ++ by apply Htop.
Qed.

(** X27. What an archive holds.  When [CreateArchive] succeeds, the scratch
    file is the tar stream of a list of entries in which every entry name
    is a member name of the group or continues one, and every member that
    is present in the chunk directory has a top-level entry under its own
    name. *)
Theorem X27_archive_layout (env : Env) (cfg : Config.t) (group : ArchiveGroup)
    (w w1 : World) (path : string) :
  archiver.CreateArchive env cfg group w = (Ok path, w1) ->
  exists written,
    temp w1 !! path = Some {| bytes := tar_gz env written; json := None |} /\
    (forall e, e ∈ written ->
       exists d rest, d ∈ Directories group /\ te_name e = d +:+ rest) /\
    (forall d, d ∈ Directories group ->
       present env (Config.ChunkPath cfg) d = true ->
       exists e, e ∈ written /\ te_name e = d).
Proof.
  unfold archiver.CreateArchive.
  destruct (fault env (OpMkdirAll _)); [discriminate|].
  destruct (fault env (OpCreate _)); [discriminate|].
  pose proof (addMembers_layout env (Config.ChunkPath cfg) (Directories group) [])
    as Hlayout. cbv zeta in Hlayout.
  destruct (archiver.addMembers env (Config.ChunkPath cfg) (Directories group) [])
    as [written [msg|]]; [discriminate|].
  cbn [fst snd] in Hlayout. destruct Hlayout as (Hnames & _ & Htop).
  intros [= <- <-]. exists written. cbn [temp set_temp].
  rewrite lookup_insert_eq. split; [reflexivity|]. split.
  - intros e He. destruct (Hnames e He) as [?%elem_of_nil|?]; done.
  - by apply Htop.
Qed.

Lemma X27_witness :
  exists written,
    temp (archiver.CreateArchive (sample_env two_shards no_fault) sample_cfg
            (archiver.makeGroup 2 ("00", ["0000"; "0001"])) empty_world).2
      !! "/tmp/0000-00ff.tar.gz"
    = Some {| bytes := tar_gz (sample_env two_shards no_fault) written;
              json := None |} /\
    exists e, e ∈ written /\ te_name e = "0001".
Proof.
  destruct (archiver.CreateArchive (sample_env two_shards no_fault) sample_cfg
              (archiver.makeGroup 2 ("00", ["0000"; "0001"])) empty_world)
    as [[path|msg] w1] eqn:Hcreate; [|outcome_succeeds Hcreate].
  destruct (X27_archive_layout _ _ _ _ _ _ Hcreate) as (written & Hfile & _ & Htop).
  exists written. split.
  - destruct (CreateArchive_Ok _ _ _ _ _ _ Hcreate) as (Hpath & _).
    rewrite Hpath in Hfile. exact Hfile.
  - apply Htop; [|reflexivity].
    apply list_elem_of_further, list_elem_of_here.
Defined.

(** * A run over a chunk directory without shards *)

Lemma scanEntries_no_shards (chunkPath : string) (entries : list (string * FsNode)) :
  forall fileTree,
    List.filter (fun entry => fs_isDir entry.2
                              && scanner.hexPattern_MatchString entry.1) entries = [] ->
    scanner.scanEntries chunkPath entries fileTree = Ok fileTree.
Proof.
  induction entries as [|[ename e] entries IH]; intros fileTree Hnone; [reflexivity|].
  cbn [List.filter scanner.scanEntries fst snd] in *.
  destruct (fs_isDir e); cbn [negb andb] in *; [|by apply IH].
  destruct (scanner.hexPattern_MatchString ename); cbn [negb];
    [discriminate|by apply IH].
Qed.

(** X28. A full run over a chunk directory that holds no shard succeeds
    with nothing to do: no group, all counters zero, and a metadata
    document with an empty snapshot and no checksum is stored. *)
Theorem X28_full_run_without_shards (env : Env) (cfg : Config.t) (w : World) :
  scanner.GetChunkDirectories (chunk_root env) = Ok [] ->
  1 <= Config.PrefixDigits cfg <= 4 ->
  persistence_ok env cfg = true ->
  let metadata := {| Version := backup.MetadataVersion;
                     PrefixDigits := Config.PrefixDigits cfg;
                     BackupTime := time_Now env;
                     FileTree := ∅; Checksums := ∅ |} in
  let document := {| bytes := json_MarshalIndent env metadata;
                     json := Some metadata |} in
  backup.RunFullBackup env cfg w
  = (Ok {| TotalArchives := 0; UpdatedArchives := 0; SkippedArchives := 0;
           ErrorArchives := []; UploadedFiles := []; Duration := time_Since env;
           Details := ∅ |},
     set_remote <[metadataRemotePath cfg := document]>
       (set_temp <[metadataLocalPath cfg := document]> w)).
Proof.
  intros Hdirs Hrange Hpersist. cbv zeta. unfold backup.RunFullBackup.
  assert (scanner.ScanFileTree (Config.ChunkPath cfg) (chunk_root env) = Ok ∅) as ->.
  { revert Hdirs. unfold scanner.GetChunkDirectories, scanner.ScanFileTree.
    destruct (chunk_root env) as [n|]; [|discriminate].
    destruct (scanner.readChunkDir (Some n)) as [entries|]; [|discriminate].
    intros [= Hsorted]. apply scanEntries_no_shards.
    apply (fmap_nil_inv fst), Permutation_nil_r.
    by rewrite <- Hsorted, merge_sort_Permutation. }
  rewrite Hdirs. unfold archiver.GenerateArchiveGroups.
  replace ((Config.PrefixDigits cfg <? 1) || (Config.PrefixDigits cfg >? 4))
    with false by lia.
  cbn [foldl]. rewrite map_to_list_empty. cbn [fmap list_fmap].
  change (merge_sort archiver.prefix_le []) with (@nil ArchiveGroup).
  cbn [foldl length].
  unfold persistence_ok in Hpersist.
  apply andb_true_iff in Hpersist as [[Hmarshal Hwrite]%andb_true_iff Hupload].
  apply bool_decide_eq_true in Hmarshal, Hwrite, Hupload.
  unfold backup.persist, backup.saveAndUploadMetadata, storage.UploadFile.
  fold (metadataLocalPath cfg). fold (metadataRemotePath cfg).
  rewrite Hmarshal, Hwrite, Hupload. cbn [temp set_temp backup.world].
  rewrite lookup_insert_eq. reflexivity.
Qed.

Lemma X28_witness :
  exists w',
    backup.RunFullBackup
      (sample_env (FsDir 5 true [("notes.txt", FsFile "n" 1 true)]) no_fault)
      sample_cfg empty_world
    = (Ok {| TotalArchives := 0; UpdatedArchives := 0; SkippedArchives := 0;
             ErrorArchives := []; UploadedFiles := []; Duration := 3;
             Details := ∅ |}, w').
Proof.
  eexists.
  apply (X28_full_run_without_shards
           (sample_env (FsDir 5 true [("notes.txt", FsFile "n" 1 true)]) no_fault)
           sample_cfg empty_world); [reflexivity|vm_compute; split; discriminate|
                                     reflexivity].
Defined.

(** * Two more paths through a run *)

Lemma scratchChecksumPath_ne (cfg : Config.t) (group : ArchiveGroup) :
  scratchChecksumPath cfg group <> scratchArchivePath cfg group.
Proof.
  unfold scratchChecksumPath. intros Heq.
  apply (f_equal String.length) in Heq. rewrite string_app_length in Heq.
  cbn [String.length] in Heq. lia.
Qed.

(** X29. A checksum record that cannot be written is left behind.  When
    the archive has been uploaded and the checksum file has been created
    but writing it fails, [processArchiveGroup] returns the error, the
    scratch archive is removed, the archive stays on remote storage, and
    the checksum file stays in the scratch directory: its removal is
    deferred only after [CreateChecksumFile] has returned without error. *)
Theorem X29_checksum_file_left_after_write_failure (env : Env) (cfg : Config.t)
    (group : ArchiveGroup) (st : backup.RunState) (w1 : World) (h : string)
    (archive : Blob) (msg : string) :
  archiver.CreateArchive env cfg group (backup.world st)
  = (Ok (scratchArchivePath cfg group), w1) ->
  archiver.CalculateChecksum env (scratchArchivePath cfg group) w1 = Ok h ->
  temp w1 !! scratchArchivePath cfg group = Some archive ->
  backup.getRemoteChecksum env (remoteSha256Path cfg group) w1 <> Ok h ->
  fault env (OpUpload (scratchArchivePath cfg group) (remoteArchivePath cfg group))
  = None ->
  fault env (OpCreate (scratchChecksumPath cfg group)) = None ->
  fault env (OpWrite (scratchChecksumPath cfg group)) = Some msg ->
  let outcome := backup.processArchiveGroup env cfg group st in
  outcome.1
  = Err ("failed to create checksum file: failed to write checksum: " +:+ msg) /\
  is_Some (temp (backup.world outcome.2) !! scratchChecksumPath cfg group) /\
  temp (backup.world outcome.2) !! scratchArchivePath cfg group = None /\
  remote (backup.world outcome.2) !! remoteArchivePath cfg group = Some archive /\
  backup.checksums outcome.2 = backup.checksums st.
Proof.
  intros Hcreate Hsum Harchive Hne Hupload Hcreate' Hwrite. cbv zeta.
  rewrite (processArchiveGroup_upload _ _ _ _ _ _ _ Hcreate Hsum Harchive Hne Hupload).
  unfold archiver.CreateChecksumFile. fold (scratchChecksumPath cfg group).
  rewrite Hcreate', Hwrite.
  cbn [fst snd backup.world backup.set_world backup.checksums os_Remove set_temp
       set_remote temp remote].
  split; [reflexivity|]. split; [|split; [|split]].
  - rewrite lookup_delete_ne by (intros Heq; by apply (scratchChecksumPath_ne cfg group)).
    rewrite lookup_insert_eq. by eexists.
  - apply lookup_delete_eq.
  - apply lookup_insert_eq.
  - reflexivity.
Qed.

Lemma X29_witness :
  let outcome :=
    backup.processArchiveGroup (sample_env sample_chunks record_write_fault)
      sample_cfg group_01 (fullInit empty_world) in
  is_Some (temp (backup.world outcome.2) !! "/tmp/0100-01ff.tar.gz.sha256") /\
  temp (backup.world outcome.2) !! "/tmp/0100-01ff.tar.gz" = None.
Proof.
  assert (match archiver.CreateArchive (sample_env sample_chunks record_write_fault)
                  sample_cfg group_01 (backup.world (fullInit empty_world)) with
          | (Ok path, w1) =>
              String.eqb path (scratchArchivePath sample_cfg group_01)
              && is_Ok (archiver.CalculateChecksum
                          (sample_env sample_chunks record_write_fault)
                          (scratchArchivePath sample_cfg group_01) w1)
              && bool_decide (is_Some (temp w1 !! scratchArchivePath sample_cfg group_01))
              && negb (is_Ok (backup.getRemoteChecksum
                                (sample_env sample_chunks record_write_fault)
                                (remoteSha256Path sample_cfg group_01) w1))
          | (Err _, _) => false
          end = true) as Hvalue by (vm_compute; reflexivity).
  destruct (archiver.CreateArchive (sample_env sample_chunks record_write_fault)
              sample_cfg group_01 (backup.world (fullInit empty_world)))
    as [[path|msg] w1] eqn:Hcreate; [|discriminate].
  apply andb_true_iff in Hvalue as [[[Hpath Hsum]%andb_true_iff Harchive]%andb_true_iff
                                      Hremote].
  apply String.eqb_eq in Hpath as ->.
  apply bool_decide_eq_true in Harchive as [archive Harchive].
  destruct (archiver.CalculateChecksum (sample_env sample_chunks record_write_fault)
              (scratchArchivePath sample_cfg group_01) w1) as [h|msg] eqn:Hsum';
    [|discriminate].
  destruct (X29_checksum_file_left_after_write_failure
              (sample_env sample_chunks record_write_fault) sample_cfg group_01
              (fullInit empty_world) w1 h archive "no space left on device"
              Hcreate Hsum' Harchive) as (_ & Hrecord & Hgone & _).
  - intros Hok. rewrite Hok in Hremote. discriminate.
  - reflexivity.
  - reflexivity.
  - reflexivity.
  - split; [exact Hrecord|exact Hgone].
Defined.


